(** * A shallow embedding of the real-estate chatbot back end

    The development follows the two JavaScript modules of the server:

    - [services/mistralService.js]: the completion client
      ([MistralService.formatMessageHistory],
      [MistralService.createSystemMessage],
      [MistralService.generateResponse]);
    - [controllers/chatbotController.js]: [extractUserInfo],
      [generateTemplateResponse], [generateResponse],
      [formatNotionStyleResponse], [processMessage] and [getChatHistory].

    JavaScript strings are sequences of UTF-16 code units, regular
    expressions are run by a backtracking matcher with the priorities of
    ECMAScript (leftmost match, ordered alternatives, greedy quantifiers),
    promises are their settled outcome, and the remote services (the
    completion endpoint, the lead store, the deadline timer) are inputs of
    the functions that call them.  What the functions write to the console
    is left out.

    The definitions come first: the language ([JSString], [RegExp],
    [JSValue]), the program ([Lead], [MistralService],
    [ChatbotController]), then what the statements need ([Semantics],
    [Spec]).  The lemmas and theorems follow. *)

From Stdlib Require Import String Ascii List NArith ZArith QArith Bool Lia.
Import ListNotations.

Set Implicit Arguments.
Set Warnings "-register-all,-comment-terminator-in-string".

(* ===================================================================== *)
(** * JavaScript strings *)
(* ===================================================================== *)

Module JSString.

Local Open Scope N_scope.

(** A string value is a list of 16-bit code units. *)
Definition jsstring := list N.

(** ASCII text written as a Rocq string literal. *)
Definition str (s : string) : jsstring :=
  map N_of_ascii (list_ascii_of_string s).

Definition jsstring_eqb (a b : jsstring) : bool :=
  if list_eq_dec N.eq_dec a b then true else false.

(** ToBoolean of a string: the empty string is the only falsy one. *)
Definition truthy (s : jsstring) : bool :=
  match s with [] => false | _ => true end.

(** ToBoolean of a property that holds a string or is undefined. *)
Definition truthy_opt (o : option jsstring) : bool :=
  match o with Some s => truthy s | None => false end.

(** Template-literal interpolation [${x}] of a string-or-undefined. *)
Definition interp (o : option jsstring) : jsstring :=
  match o with Some s => s | None => str "undefined" end.

(** ** Character classes of the language *)

(** LineTerminator: LF, CR, LS, PS. *)
Definition isLineTerminator (c : N) : bool :=
  (c =? 10) || (c =? 13) || (c =? 8232) || (c =? 8233).

(** WhiteSpace: TAB, VT, FF, ZWNBSP and the space separators (Zs). *)
Definition isWhiteSpace (c : N) : bool :=
  (c =? 9) || (c =? 11) || (c =? 12) || (c =? 32) || (c =? 160)
  || (c =? 5760) || ((8192 <=? c) && (c <=? 8202)) || (c =? 8239)
  || (c =? 8287) || (c =? 12288) || (c =? 65279).

(** The class [\s], which is also what [trim] strips. *)
Definition isSpace (c : N) : bool := isWhiteSpace c || isLineTerminator c.

Definition isDigit (c : N) : bool := (48 <=? c) && (c <=? 57).

Definition isAsciiUpper (c : N) : bool := (65 <=? c) && (c <=? 90).
Definition isAsciiLower (c : N) : bool := (97 <=? c) && (c <=? 122).

Definition upperAscii (c : N) : N := if isAsciiLower c then c - 32 else c.
Definition lowerAscii (c : N) : N := if isAsciiUpper c then c + 32 else c.

(** ** String.prototype methods *)

Fixpoint dropWhile (p : N -> bool) (s : jsstring) : jsstring :=
  match s with
  | c :: s' => if p c then dropWhile p s' else s
  | [] => []
  end.

Definition trimStart (s : jsstring) : jsstring := dropWhile isSpace s.
Definition trimEnd (s : jsstring) : jsstring := rev (dropWhile isSpace (rev s)).

(** [s.trim()] *)
Definition trim (s : jsstring) : jsstring := trimEnd (trimStart s).

Fixpoint startsWith (w s : jsstring) : bool :=
  match w, s with
  | [], _ => true
  | _ :: _, [] => false
  | a :: w', b :: s' => (a =? b) && startsWith w' s'
  end.

(** [s.includes(w)] *)
Fixpoint includes (w s : jsstring) : bool :=
  startsWith w s ||
  match s with
  | [] => false
  | _ :: s' => includes w s'
  end.

(** [s.indexOf(w)]: the first index at which [w] occurs, or -1. *)
Fixpoint indexOf (w s : jsstring) : Z :=
  if startsWith w s then 0%Z
  else match s with
       | [] => (-1)%Z
       | _ :: s' => let i := indexOf w s' in
                    if (i <? 0)%Z then (-1)%Z else (i + 1)%Z
       end.

(** [s.substring(a, b)]: both ends clamped to [0, length], swapped when
    out of order. *)
Definition clamp (s : jsstring) (i : Z) : nat :=
  Nat.min (Z.to_nat i) (length s).

Definition substring (s : jsstring) (a b : Z) : jsstring :=
  let a' := clamp s a in
  let b' := clamp s b in
  let lo := Nat.min a' b' in
  let hi := Nat.max a' b' in
  firstn (hi - lo) (skipn lo s).

(** The slice between two indices of a match, [lo <= hi <= length]. *)
Definition slice (s : jsstring) (lo hi : nat) : jsstring :=
  firstn (hi - lo) (skipn lo s).

(** ** Case conversion

    [toUpperCase] and [toLowerCase] work code point by code point.  An
    ASCII code unit is a code point of its own and is mapped by the ASCII
    table; what the Unicode tables do to a maximal run of other code units
    (surrogate pairs, special casing, the context rule of final sigma) is
    not part of this repository and is an interface of the model. *)
Class UnicodeTables := {
  (** upper-casing of a maximal run of non-ASCII code units *)
  upperNonAscii : jsstring -> jsstring;
  (** lower-casing of such a run, given the text before and after it *)
  lowerNonAscii : jsstring -> jsstring -> jsstring -> jsstring
}.

(** Tables that leave every non-ASCII run as it is. *)
Definition asciiTables : UnicodeTables :=
  {| upperNonAscii := fun r => r;
     lowerNonAscii := fun _ r _ => r |}.

Section CaseConversion.
Context {U : UnicodeTables}.

Definition flushUpper (run : jsstring) : jsstring :=
  match run with [] => [] | _ => upperNonAscii (rev run) end.

(** [run]: the pending non-ASCII run, last unit first. *)
Fixpoint toUpperCase_go (run s : jsstring) : jsstring :=
  match s with
  | [] => flushUpper run
  | c :: s' =>
      if c <? 128
      then flushUpper run ++ upperAscii c :: toUpperCase_go [] s'
      else toUpperCase_go (c :: run) s'
  end.

(** [s.toUpperCase()] *)
Definition toUpperCase (s : jsstring) : jsstring := toUpperCase_go [] s.

Definition flushLower (before run after : jsstring) : jsstring :=
  match run with
  | [] => []
  | _ => lowerNonAscii (rev before) (rev run) after
  end.

(** [before]: the text already passed (run excluded), last unit first. *)
Fixpoint toLowerCase_go (before run s : jsstring) : jsstring :=
  match s with
  | [] => flushLower before run []
  | c :: s' =>
      if c <? 128
      then flushLower before run s
           ++ lowerAscii c :: toLowerCase_go (c :: run ++ before) [] s'
      else toLowerCase_go before (c :: run) s'
  end.

(** [s.toLowerCase()] *)
Definition toLowerCase (s : jsstring) : jsstring := toLowerCase_go [] [] s.

End CaseConversion.

End JSString.

(* ===================================================================== *)
(** * Regular expressions *)
(* ===================================================================== *)

Module RegExp.
Import JSString.

Local Open Scope N_scope.

(** Sets of code units: the atoms and classes of a pattern. *)
Inductive cset : Type :=
| CChar (c : N)            (** a literal character *)
| CRange (lo hi : N)       (** [lo-hi] inside a class *)
| CSpace                   (** [\s] *)
| CDigit                   (** [\d] *)
| CAny                     (** [.]: anything but a line terminator *)
| CUnion (a b : cset)      (** members of one class *)
| CNot (a : cset).         (** a negated class *)

(** Patterns.  Every quantifier of the program's patterns is greedy, has
    no upper bound and applies to a single-character atom. *)
Inductive regex : Type :=
| REmpty
| RSet (cs : cset)
| RSeq (r1 r2 : regex)
| RAlt (r1 r2 : regex)
| RRep (min : nat) (cs : cset)   (** [cs*] (min 0), [cs+] (min 1), [cs{n,}] *)
| RGroup (n : nat) (r : regex)   (** the [n]-th capturing group *)
| RBol                           (** [^] *)
| REol.                          (** [$] *)

(** A RegExp object: its pattern and flags. *)
Record RegExp := {
  source : regex;
  ignoreCase : bool;
  multiline : bool;
  global : bool
}.

(** A literal piece of pattern text. *)
Fixpoint RLit (s : jsstring) : regex :=
  match s with
  | [] => REmpty
  | [c] => RSet (CChar c)
  | c :: s' => RSeq (RSet (CChar c)) (RLit s')
  end.

Fixpoint ngroups (r : regex) : nat :=
  match r with
  | RSeq a b | RAlt a b => Nat.max (ngroups a) (ngroups b)
  | RGroup n a => Nat.max n (ngroups a)
  | _ => 0%nat
  end.

(** Membership without case folding. *)
Fixpoint cset_in (cs : cset) (c : N) : bool :=
  match cs with
  | CChar x => c =? x
  | CRange lo hi => (lo <=? c) && (c <=? hi)
  | CSpace => isSpace c
  | CDigit => isDigit c
  | CAny => negb (isLineTerminator c)
  | CUnion a b => cset_in a c || cset_in b c
  | CNot a => negb (cset_in a c)
  end.

(** Membership as the matcher tests it.  With the [i] flag a character
    belongs to a set when some member has the same canonical form; a
    negated class inverts that test.  Without the [u] flag the canonical
    form of a code unit above 127 is never an ASCII unit, and the members
    written in the program's patterns are ASCII letters, digits, white
    space and punctuation, so the members with the canonical form of [c]
    are [c] itself and its ASCII upper- and lower-case forms. *)
Fixpoint cset_match (icase : bool) (cs : cset) (c : N) : bool :=
  match cs with
  | CUnion a b => cset_match icase a c || cset_match icase b c
  | CNot a => negb (cset_match icase a c)
  | _ => cset_in cs c
         || (icase && (cset_in cs (upperAscii c) || cset_in cs (lowerAscii c)))
  end.

(** ** The matcher *)

(** A position in the input: the code units before it (last one first)
    and those from it on. *)
Record state := { before : jsstring; rest : jsstring }.

Definition pos (st : state) : nat := length (before st).
Definition input (st : state) : jsstring := rev (before st) ++ rest st.

(** What the capturing groups hold: the two ends of each captured slice. *)
Definition captures := nat -> option (nat * nat).
Definition noCaptures : captures := fun _ => None.
Definition setCapture (n : nat) (lo hi : nat) (c : captures) : captures :=
  fun m => if Nat.eqb m n then Some (lo, hi) else c m.

Section Matcher.
Variable re : RegExp.
Variable R : Type.

Definition atBol (st : state) : bool :=
  match before st with
  | [] => true
  | c :: _ => multiline re && isLineTerminator c
  end.

Definition atEol (st : state) : bool :=
  match rest st with
  | [] => true
  | c :: _ => multiline re && isLineTerminator c
  end.

(** The greedy quantifier: one more character first, the continuation
    when that fails and [min] characters have been taken. *)
Fixpoint rep (cs : cset) (k : state -> captures -> option R) (caps : captures)
    (min : nat) (bef rst : jsstring) : option R :=
  let stop := match min with
              | O => k {| before := bef; rest := rst |} caps
              | S _ => None
              end in
  match rst with
  | c :: rst' =>
      if cset_match (ignoreCase re) cs c then
        match rep cs k caps (Nat.pred min) (c :: bef) rst' with
        | Some r => Some r
        | None => stop
        end
      else stop
  | [] => stop
  end.

(** [rmatch r k st caps]: match [r] at [st], then go on with [k]; the
    first success in priority order, [None] when every way fails. *)
Fixpoint rmatch (r : regex) (k : state -> captures -> option R)
    (st : state) (caps : captures) : option R :=
  match r with
  | REmpty => k st caps
  | RSet cs =>
      match rest st with
      | c :: rst' =>
          if cset_match (ignoreCase re) cs c
          then k {| before := c :: before st; rest := rst' |} caps
          else None
      | [] => None
      end
  | RSeq r1 r2 => rmatch r1 (fun st' caps' => rmatch r2 k st' caps') st caps
  | RAlt r1 r2 =>
      match rmatch r1 k st caps with
      | Some res => Some res
      | None => rmatch r2 k st caps
      end
  | RRep min cs => rep cs k caps min (before st) (rest st)
  | RGroup n r1 =>
      rmatch r1 (fun st' caps' => k st' (setCapture n (pos st) (pos st') caps'))
             st caps
  | RBol => if atBol st then k st caps else None
  | REol => if atEol st then k st caps else None
  end.

End Matcher.

(** One attempt at one position: the end of the match and the captures. *)
Definition matchAt (re : RegExp) (st : state) : option (state * captures) :=
  rmatch re (source re) (fun st' caps => Some (st', caps)) st noCaptures.

(** The array RegExpBuiltinExec returns: the matched text, then what
    each group captured ([None] is [undefined]). *)
Definition matchArray (re : RegExp) (st e : state) (caps : captures)
  : list (option jsstring) :=
  Some (slice (input st) (pos st) (pos e))
  :: map (fun n => match caps n with
                   | Some (lo, hi) => Some (slice (input st) lo hi)
                   | None => None
                   end)
         (seq 1 (ngroups (source re))).

(** The leftmost position from [bef|rst] on at which the pattern matches. *)
Fixpoint search (re : RegExp) (bef rst : jsstring)
  : option (state * state * captures) :=
  match matchAt re {| before := bef; rest := rst |} with
  | Some (e, caps) => Some ({| before := bef; rest := rst |}, e, caps)
  | None =>
      match rst with
      | [] => None
      | c :: rst' => search re (c :: bef) rst'
      end
  end.

(** [re.exec(s)] with [lastIndex = 0]. *)
Definition exec (re : RegExp) (s : jsstring) : option (list (option jsstring)) :=
  match search re [] s with
  | Some (st, e, caps) => Some (matchArray re st e caps)
  | None => None
  end.

(** [re.test(s)] with [lastIndex = 0]. *)
Definition test (re : RegExp) (s : jsstring) : bool :=
  match search re [] s with Some _ => true | None => false end.

(** The successive matches of a global pattern, as the loops of
    [match] and [replace] find them: after a match the search resumes at
    its end, one unit further when the match was empty.  [skip] counts the
    units of the current match still to pass; [unmatched] says what to do
    with a unit outside every match and [found] with a match. *)
Section Global.
Variable re : RegExp.
Variable A : Type.
Variable found : list (option jsstring) -> A -> A.
Variable unmatched : N -> A -> A.
Variable done : A.

Fixpoint scan (bef rst : jsstring) (skip : nat) : A :=
  match skip with
  | S skip' =>
      match rst with
      | c :: rst' => scan (c :: bef) rst' skip'
      | [] => done
      end
  | O =>
      let st := {| before := bef; rest := rst |} in
      match matchAt re st with
      | Some (e, caps) =>
          found (matchArray re st e caps)
            match rst with
            | [] => done
            | c :: rst' =>
                match (pos e - pos st)%nat with
                | O => unmatched c (scan (c :: bef) rst' 0)
                | S skip' => scan (c :: bef) rst' skip'
                end
            end
      | None =>
          match rst with
          | [] => done
          | c :: rst' => unmatched c (scan (c :: bef) rst' 0)
          end
      end
  end.

End Global.

(** [s.replace(re, replacer)] for a global [re]; [replacer] gets the match
    array (a replacement string such as ['$1'] is the function that
    expands it). *)
Definition replaceAll (re : RegExp) (replacer : list (option jsstring) -> jsstring)
    (s : jsstring) : jsstring :=
  scan re (fun m out => replacer m ++ out) (fun c out => c :: out) [] [] s 0.

(** [s.match(re)]: for a global [re] the list of matched texts, for
    another the array of [exec]; [None] is [null]. *)
Definition matchAll (re : RegExp) (s : jsstring) : list (option jsstring) :=
  scan re (fun m out => hd None m :: out) (fun _ out => out) [] [] s 0.

Definition match_ (re : RegExp) (s : jsstring) : option (list (option jsstring)) :=
  if global re then
    match matchAll re s with
    | [] => None
    | ms => Some ms
    end
  else exec re s.

(** [m[i]] on a match array. *)
Definition at_ (m : list (option jsstring)) (i : nat) : option jsstring :=
  nth i m None.

End RegExp.

(* ===================================================================== *)
(** * Values, exceptions and promises *)
(* ===================================================================== *)

Module JSValue.
Import JSString.

(** The values a parsed JSON payload is made of, and [undefined]. *)
Inductive jsval : Type :=
| VUndefined
| VNull
| VBool (b : bool)
| VNum (q : Q)
| VStr (s : jsstring)
| VArr (items : list jsval)
| VObj (fields : list (jsstring * jsval)).

(** ToBoolean *)
Definition truthyVal (v : jsval) : bool :=
  match v with
  | VUndefined | VNull => false
  | VBool b => b
  | VNum q => negb (Qeq_bool q 0)
  | VStr s => truthy s
  | VArr _ | VObj _ => true
  end.

Fixpoint lookup (key : jsstring) (fields : list (jsstring * jsval)) : jsval :=
  match fields with
  | [] => VUndefined
  | (k, v) :: fields' => if jsstring_eqb k key then v else lookup key fields'
  end.

(** [v.key] for a key that no built-in prototype defines, on a value that
    is neither [null] nor [undefined]. *)
Definition get (v : jsval) (key : jsstring) : jsval :=
  match v with
  | VObj fields => lookup key fields
  | _ => VUndefined
  end.

(** [v[0]] on such a value. *)
Definition getFirst (v : jsval) : jsval :=
  match v with
  | VArr items => hd VUndefined items
  | VStr (c :: _) => VStr [c]
  | VObj fields => lookup (str "0") fields
  | _ => VUndefined
  end.

(** What a [throw] carries. *)
Inductive error : Type :=
| Error (message : jsstring)
| TypeError
(** a failure of the HTTP client: [response] is set when the server
    answered outside 2xx, [request] when the request was sent and nothing
    came back, neither when the request could not be set up *)
| AxiosError (response : option (Z * jsval)) (request : bool).

(** The outcome of a computation that may throw; for an [async] function,
    how its promise settles ([Return]: fulfilled, [Throw]: rejected). *)
Inductive outcome (A : Type) : Type :=
| Return (a : A)
| Throw (e : error).
Arguments Return {A} a.
Arguments Throw {A} e.

Definition bind {A B} (m : outcome A) (f : A -> outcome B) : outcome B :=
  match m with
  | Return a => f a
  | Throw e => Throw e
  end.

(** [try { body } catch (error) { handler }] *)
Definition tryCatch {A} (body : outcome A) (handler : error -> outcome A)
  : outcome A :=
  match body with
  | Return a => Return a
  | Throw e => handler e
  end.

End JSValue.

Declare Scope js_scope.
Notation "x <- m ;; k" := (JSValue.bind m (fun x => k))
  (at level 61, m at next level, right associativity) : js_scope.

(* ===================================================================== *)
(** * models/Lead.js *)
(* ===================================================================== *)

Module Lead.
Import JSString.

(** An entry of [messageHistory] (its timestamp is set by the store's
    clock and read nowhere). *)
Record Turn := { sender : jsstring; message : jsstring }.

(** A lead document; an unset path is [undefined]. *)
Record Lead := {
  _id : N;
  name : option jsstring;
  phone : option jsstring;
  budget : option jsstring;
  preferredLocation : option jsstring;
  propertyType : option jsstring;
  messageHistory : list Turn
}.

(** [new Lead()], with the identifier the store assigns. *)
Definition new (id : N) : Lead :=
  {| _id := id; name := None; phone := None; budget := None;
     preferredLocation := None; propertyType := None; messageHistory := [] |}.

(** Assignments to the string paths; the schema declares each of them
    with [trim: true], so the value is trimmed when it is set. *)
Definition set_name (v : jsstring) (l : Lead) : Lead :=
  {| _id := _id l; name := Some (trim v); phone := phone l; budget := budget l;
     preferredLocation := preferredLocation l; propertyType := propertyType l;
     messageHistory := messageHistory l |}.

Definition set_budget (v : jsstring) (l : Lead) : Lead :=
  {| _id := _id l; name := name l; phone := phone l; budget := Some (trim v);
     preferredLocation := preferredLocation l; propertyType := propertyType l;
     messageHistory := messageHistory l |}.

Definition set_preferredLocation (v : jsstring) (l : Lead) : Lead :=
  {| _id := _id l; name := name l; phone := phone l; budget := budget l;
     preferredLocation := Some (trim v); propertyType := propertyType l;
     messageHistory := messageHistory l |}.

Definition set_propertyType (v : jsstring) (l : Lead) : Lead :=
  {| _id := _id l; name := name l; phone := phone l; budget := budget l;
     preferredLocation := preferredLocation l; propertyType := Some (trim v);
     messageHistory := messageHistory l |}.

(** [lead.messageHistory.push(turn)] *)
Definition push (t : Turn) (l : Lead) : Lead :=
  {| _id := _id l; name := name l; phone := phone l; budget := budget l;
     preferredLocation := preferredLocation l; propertyType := propertyType l;
     messageHistory := messageHistory l ++ [t] |}.

End Lead.

(* ===================================================================== *)
(** * services/mistralService.js *)
(* ===================================================================== *)

Module MistralService.
Import JSString JSValue.
Local Open Scope js_scope.

(** [leadInfo.uiInfo] *)
Record UiInfo := { width : jsval; height : jsval; isNotionStyle : bool }.

(** The [leadInfo] object the service reads. *)
Record LeadInfo := {
  name : option jsstring;
  budget : option jsstring;
  preferredLocation : option jsstring;
  propertyType : option jsstring;
  uiInfo : option UiInfo;
  oneQuestionAtATime : bool
}.

(** An entry of the [messages] array of a request. *)
Record ChatMessage := { role : jsstring; content : jsstring }.

(** The request [axios.post] sends. *)
Record Request := {
  url : jsstring;
  model : jsstring;
  messages : list ChatMessage;
  temperature : Q;
  max_tokens : Z;
  headers : list (jsstring * jsstring);
  timeout : Z
}.

Definition nl : jsstring := [10%N].

(** [formatMessageHistory]: the last ten turns, as API messages. *)
Definition formatMessageHistory (messageHistory : option (list Lead.Turn))
  : list ChatMessage :=
  match messageHistory with
  | None | Some [] => []
  | Some history =>
      let recentMessages := skipn (length history - 10) history in
      map (fun msg =>
             {| role := if jsstring_eqb (Lead.sender msg) (str "user")
                        then str "user" else str "assistant";
                content := Lead.message msg |})
          recentMessages
  end.

(** The instruction every system message carries. *)
Definition singleQuestionInstruction : jsstring :=
  nl ++ nl ++
  str "IMPORTANT INSTRUCTION: Ask only ONE question at a time. Wait for the user to respond before asking the next question. Do not ask multiple questions in a single response. Focus on getting a complete answer to one question before moving to the next topic. This creates a more natural conversation flow."
  ++ nl ++ nl ++
  str "Even if you have multiple questions in mind, only ask the most important one first. After the user responds, you can ask the next question based on their response. This sequential approach helps create a more engaging and personalized conversation experience."
  ++ nl ++ nl ++
  str "Remember: ONE QUESTION PER RESPONSE - NO EXCEPTIONS.".

(** The emphasis added when [oneQuestionAtATime] is set; it opens with
    the warning sign U+26A0 U+FE0F. *)
Definition userPreferenceNote : jsstring :=
  nl ++ nl ++ [9888%N; 65039%N] ++
  str " USER PREFERENCE: The user has specifically requested that you ask only ONE question at a time. This is extremely important. Never combine multiple questions in a single response. After each user reply, choose the next most logical question based on their answer.".

Definition notionGuidelines : jsstring :=
  nl ++ nl ++
  str "You are displayed in a Notion-like interface. Format your responses accordingly with these guidelines:" ++ nl ++
  str "- Use clean paragraph breaks for readability" ++ nl ++
  str "- Use bullet points (" ++ [8226%N] ++ str ") for lists" ++ nl ++
  str "- You can use simple formatting like UPPERCASE for emphasis" ++ nl ++
  str "- Keep responses concise and well-structured" ++ nl ++
  str "- Organize information in a clear, hierarchical manner" ++ nl.

(** What [createSystemMessage] appends for a non-null [leadInfo]. *)
Definition clientContext (l : LeadInfo) : jsstring :=
  str "Here is what you know about the client: "
  ++ (if truthy_opt (name l)
      then str "Their name is " ++ interp (name l) ++ str ". " else [])
  ++ (if truthy_opt (budget l)
      then str "Their budget is " ++ interp (budget l) ++ str ". " else [])
  ++ (if truthy_opt (preferredLocation l)
      then str "They are interested in properties in "
           ++ interp (preferredLocation l) ++ str ". " else [])
  ++ (if truthy_opt (propertyType l)
      then str "They are looking for a " ++ interp (propertyType l) ++ str ". "
      else [])
  ++ str "Use this information to provide personalized assistance. "
  ++ (match uiInfo l with
      | Some ui => if isNotionStyle ui then notionGuidelines else []
      | None => []
      end).

(** [createSystemMessage(leadInfo)]; [None] is a null or undefined
    argument. *)
Definition createSystemMessage (leadInfo : option LeadInfo) : ChatMessage :=
  let context := str "You are a helpful real estate assistant. " in
  let context :=
    match leadInfo with
    | Some l => context ++ clientContext l
    | None => context
    end in
  let context := context ++
    str "Be friendly, professional, and helpful. Your goal is to collect information about their real estate needs and preferences." in
  let context := context ++ singleQuestionInstruction in
  let context :=
    match leadInfo with
    | Some l => if oneQuestionAtATime l then context ++ userPreferenceNote
                else context
    | None => context
    end in
  {| role := str "system"; content := context |}.

(** The reply the service returns when the call fails. *)
Definition fallbackNotice : jsstring :=
  str "I'm sorry, I'm having trouble connecting to my AI service right now. How else can I help you with your property search?".

Section Service.
(** [process.env.MISTRAL_API_KEY], read when the service is constructed. *)
Variable apiKey : option jsstring.
(** [axios.post]: the settled outcome of the request, a response body
    ([response.data]) or a thrown error. *)
Variable axios_post : Request -> outcome jsval.

Definition baseURL : jsstring := str "https://api.mistral.ai/v1/chat/completions".

(** The request body and configuration [generateResponse] builds. *)
Definition completionRequest (userMessage : jsstring)
    (leadInfo : option LeadInfo) (messageHistory : option (list Lead.Turn))
  : Request :=
  let formattedHistory := formatMessageHistory messageHistory in
  let systemMessage := createSystemMessage leadInfo in
  let formattedHistory :=
    formattedHistory ++ [{| role := str "user"; content := userMessage |}] in
  {| url := baseURL;
     model := str "mistral-tiny";
     messages := systemMessage :: formattedHistory;
     temperature := 7 # 10;
     max_tokens := 300;
     headers := [(str "Content-Type", str "application/json");
                 (str "Authorization", str "Bearer " ++ interp apiKey)];
     timeout := 10000 |}.

(** "Validate response structure": the test that makes the service throw. *)
Definition invalidStructure (data : jsval) : bool :=
  negb (truthyVal data)
  || negb (truthyVal (get data (str "choices")))
  || negb (truthyVal (getFirst (get data (str "choices"))))
  || negb (truthyVal (get (getFirst (get data (str "choices"))) (str "message"))).

(** The [try] block of [generateResponse]. *)
Definition requestCompletion (userMessage : jsstring)
    (leadInfo : option LeadInfo) (messageHistory : option (list Lead.Turn))
  : outcome jsval :=
  if negb (truthy_opt apiKey) then Throw (Error (str "API key configuration error"))
  else
    data <- axios_post (completionRequest userMessage leadInfo messageHistory) ;;
    if invalidStructure data
    then Throw (Error (str "Invalid API response structure"))
    else Return (get (get (getFirst (get data (str "choices"))) (str "message"))
                     (str "content")).

(** [generateResponse(userMessage, leadInfo, messageHistory)]: how the
    promise it returns settles.  Its [catch] block logs the error and
    returns the fixed notice. *)
Definition generateResponse (userMessage : jsstring)
    (leadInfo : option LeadInfo) (messageHistory : option (list Lead.Turn))
  : outcome jsval :=
  tryCatch (requestCompletion userMessage leadInfo messageHistory)
           (fun error => Return (VStr fallbackNotice)).

End Service.

End MistralService.

(* ===================================================================== *)
(** * controllers/chatbotController.js *)
(* ===================================================================== *)

Module ChatbotController.
Import JSString JSValue RegExp.
Local Open Scope js_scope.

(** ** Pattern notation *)

(** The patterns of the controller are written with these combinators, in
    the order of their source text. *)

Definition ch (a : ascii) : N := N_of_ascii a.
Definition lit (s : string) : regex := RLit (str s).
Definition seqs (rs : list regex) : regex := fold_right RSeq REmpty rs.
Fixpoint alts (rs : list regex) : regex :=
  match rs with
  | [] => REmpty
  | [r] => r
  | r :: rs' => RAlt r (alts rs')
  end.
(** A class [[...]] by its members (no member: the empty set). *)
Fixpoint class (items : list cset) : cset :=
  match items with
  | [] => CNot (CUnion CAny (CNot CAny))
  | [i] => i
  | i :: items' => CUnion i (class items')
  end.
Definition star (cs : cset) : regex := RRep 0 cs.
Definition plus (cs : cset) : regex := RRep 1 cs.

(** The pattern "/(?:my name is|i am|i'm) ([a-z\s]+)/i". *)
Definition nameRe : RegExp :=
  {| source := seqs [alts [lit "my name is"; lit "i am"; lit "i'm"];
                     lit " ";
                     RGroup 1 (plus (class [CRange (ch "a") (ch "z"); CSpace]))];
     ignoreCase := true; multiline := false; global := false |}.

(** The pattern "/(?:budget|afford|looking for|range|price) [^\d]*(\d+[\d,.]*)/i". *)
Definition budgetRe : RegExp :=
  {| source := seqs [alts [lit "budget"; lit "afford"; lit "looking for";
                           lit "range"; lit "price"];
                     lit " ";
                     star (CNot CDigit);
                     RGroup 1 (seqs [plus CDigit;
                                     star (class [CDigit; CChar (ch ",");
                                                  CChar (ch ".")])])];
     ignoreCase := true; multiline := false; global := false |}.

(** The pattern "/(?:location|area|place|interested in) ([a-z\s,]+)/i". *)
Definition locationRe : RegExp :=
  {| source := seqs [alts [lit "location"; lit "area"; lit "place";
                           lit "interested in"];
                     lit " ";
                     RGroup 1 (plus (class [CRange (ch "a") (ch "z"); CSpace;
                                            CChar (ch ",")]))];
     ignoreCase := true; multiline := false; global := false |}.

(** The pattern "/^(hi|hello|hey|greetings)/i". *)
Definition greetingRe : RegExp :=
  {| source := seqs [RBol;
                     RGroup 1 (alts [lit "hi"; lit "hello"; lit "hey";
                                     lit "greetings"])];
     ignoreCase := true; multiline := false; global := false |}.

(** The pattern "/\n{2,}/g". *)
Definition paragraphRe : RegExp :=
  {| source := RRep 2 (CChar 10);
     ignoreCase := false; multiline := false; global := true |}.

(** The pattern "/^\s*-\s(.+)$/gm". *)
Definition bulletRe : RegExp :=
  {| source := seqs [RBol; star CSpace; lit "-"; RSet CSpace;
                     RGroup 1 (plus CAny); REol];
     ignoreCase := false; multiline := true; global := true |}.

(** The pattern "/^#+\s(.+)$/gm". *)
Definition headingRe : RegExp :=
  {| source := seqs [RBol; plus (CChar (ch "#")); RSet CSpace;
                     RGroup 1 (plus CAny); REol];
     ignoreCase := false; multiline := true; global := true |}.

(** The pattern "/\?/g". *)
Definition questionRe : RegExp :=
  {| source := lit "?";
     ignoreCase := false; multiline := false; global := true |}.

Definition propertyTypes : list jsstring :=
  [str "apartment"; str "house"; str "condo"; str "villa"; str "flat";
   str "studio"; str "penthouse"; str "duplex"].

(** ** extractUserInfo *)

(** The [info] object: a property that was never assigned is
    [undefined]. *)
Record Info := {
  name : option jsstring;
  budget : option jsstring;
  preferredLocation : option jsstring;
  propertyType : option jsstring
}.

(** [m && m[1]] followed by [m[1].trim()]: the trimmed first group of a
    match whose first group is not empty. *)
Definition trimmedGroup (m : option (list (option jsstring))) : option jsstring :=
  match m with
  | Some arr => if truthy_opt (at_ arr 1)
                then option_map trim (at_ arr 1)
                else None
  | None => None
  end.

Section Controller.
Context {U : UnicodeTables}.

(** The [for ... of] loop over [propertyTypes], left at the first word
    the lower-cased message includes. *)
Definition firstPropertyType (message : jsstring) : option jsstring :=
  find (fun type => includes type (toLowerCase message)) propertyTypes.

Definition extractUserInfo (message : jsstring) : Info :=
  {| name := trimmedGroup (match_ nameRe message);
     budget := trimmedGroup (match_ budgetRe message);
     preferredLocation := trimmedGroup (match_ locationRe message);
     propertyType := firstPropertyType message |}.

(** ** generateTemplateResponse *)

Definition isSome {A} (o : option A) : bool :=
  match o with Some _ => true | None => false end.

Definition generateTemplateResponse (message : jsstring) (leadInfo : Lead.Lead)
  : jsstring :=
  let name := Lead.name leadInfo in
  let propertyType := Lead.propertyType leadInfo in
  let budget := Lead.budget leadInfo in
  let preferredLocation := Lead.preferredLocation leadInfo in
  (* Greeting patterns *)
  if isSome (match_ greetingRe message) then
    if truthy_opt name
    then str "Hello " ++ interp name
         ++ str "! How can I help you with your real estate search today?"
    else str "Hello! I'm your real estate assistant. May I know your name?"
  (* If we don't have the user's name yet *)
  else if negb (truthy_opt name) && (3 <? length message)%nat then
    match trimmedGroup (match_ nameRe message) with
    | Some nameMatch1 =>
        str "Nice to meet you, " ++ nameMatch1
        ++ str "! What kind of property are you looking for?"
    | None =>
        str "Thanks for your message! May I know your name so I can better assist you?"
    end
  (* If we have the name but not property type *)
  else if truthy_opt name && negb (truthy_opt propertyType) then
    match firstPropertyType message with
    | Some type =>
        str "Great! I'll help you find a " ++ type
        ++ str ". Do you have a specific budget in mind?"
    | None =>
        str "What type of property are you interested in? Apartment, house, condo?"
    end
  (* If we have name and property type but not budget *)
  else if truthy_opt name && truthy_opt propertyType && negb (truthy_opt budget) then
    match trimmedGroup (match_ budgetRe message) with
    | Some _ => str "Thank you! And do you have a preferred location or area in mind?"
    | None => str "What's your budget range for the " ++ interp propertyType ++ str "?"
    end
  (* If we have name, property type, budget but not location *)
  else if truthy_opt name && truthy_opt propertyType && truthy_opt budget
          && negb (truthy_opt preferredLocation) then
    match trimmedGroup (match_ locationRe message) with
    | Some locationMatch1 =>
        str "Perfect! I'll look for " ++ interp propertyType
        ++ str " properties in " ++ locationMatch1
        ++ str " within your budget. Is there anything specific you're looking for in the property?"
    | None => str "Which area or location are you interested in?"
    end
  (* If we have all the information *)
  else if truthy_opt name && truthy_opt propertyType && truthy_opt budget
          && truthy_opt preferredLocation then
    str "Thank you for providing all the details, " ++ interp name
    ++ str ". I'll help you find " ++ interp propertyType
    ++ str " properties in " ++ interp preferredLocation
    ++ str " within your budget of " ++ interp budget
    ++ str ". A real estate agent will contact you soon with some great options. Is there anything else you'd like to know?"
  (* Default response *)
  else str "Thank you for your message. How else can I assist you with your property search?".

(** ** formatNotionStyleResponse *)

(** What ['$1'] expands to, and the [heading] argument of the replacer:
    the text of the first group. *)
Definition group1 (m : list (option jsstring)) : jsstring :=
  match at_ m 1 with Some s => s | None => [] end.

(** The bullet character U+2022. *)
Definition bullet : N := 8226%N.

Definition withParagraphs (response : jsstring) : jsstring :=
  replaceAll paragraphRe (fun _ => [10%N; 10%N]) response.

Definition withBullets (withParagraphs : jsstring) : jsstring :=
  replaceAll bulletRe (fun m => [bullet; 32%N] ++ group1 m) withParagraphs.

Definition withHeadings (withBullets : jsstring) : jsstring :=
  replaceAll headingRe (fun m => toUpperCase (group1 m)) withBullets.

(** The last step: keep only the first question. *)
Definition firstQuestion (withHeadings : jsstring) : jsstring :=
  match match_ questionRe withHeadings with
  | Some questionMarks =>
      if (1 <? length questionMarks)%nat then
        let firstQuestionEnd := (indexOf (str "?") withHeadings + 1)%Z in
        substring withHeadings 0 firstQuestionEnd
      else withHeadings
  | None => withHeadings
  end.

Definition formatNotionStyleResponse (response : jsstring) : jsstring :=
  firstQuestion (withHeadings (withBullets (withParagraphs response))).

(** ** generateResponse *)

(** [{ ...leadInfo }] with [uiInfo] and [oneQuestionAtATime] added.  The
    function is called with a lead of the store, a Mongoose document: the
    schema paths of a document are accessors of its prototype, not
    properties of its own, so the spread copies none of them and the
    context has no name, no budget, no location and no property type. *)
Definition contextWithUiInfo (leadInfo : Lead.Lead) (uiSize : jsval)
  : MistralService.LeadInfo :=
  {| MistralService.name := None;
     MistralService.budget := None;
     MistralService.preferredLocation := None;
     MistralService.propertyType := None;
     MistralService.uiInfo :=
       if truthyVal uiSize
       then Some {| MistralService.width := get uiSize (str "width");
                    MistralService.height := get uiSize (str "height");
                    MistralService.isNotionStyle := true |}
       else None;
     MistralService.oneQuestionAtATime := true |}.

Section Orchestrator.
Variable apiKey : option jsstring.
Variable axios_post : MistralService.Request -> outcome jsval.

(** [generateResponse(message, leadInfo, messageHistory, uiSize)]: how
    its promise settles.  Calling [formatNotionStyleResponse] on a value
    that is not a string throws a TypeError (it has no [replace]), which
    the [catch] block receives like any other error. *)
Definition generateResponse (message : jsstring) (leadInfo : Lead.Lead)
    (messageHistory : list Lead.Turn) (uiSize : jsval) : outcome jsstring :=
  tryCatch
    (response <- MistralService.generateResponse apiKey axios_post message
                   (Some (contextWithUiInfo leadInfo uiSize))
                   (Some messageHistory) ;;
     match response with
     | VStr text => Return (formatNotionStyleResponse text)
     | _ => Throw TypeError
     end)
    (fun error => Return (generateTemplateResponse message leadInfo)).

End Orchestrator.

(** ** processMessage *)

(** What the handler depends on besides the request. *)
Record World := {
  apiKey : option jsstring;
  axios_post : MistralService.Request -> outcome jsval;
  (** [Lead.findById]: the document, [None] for [null], or a store error *)
  findById : jsval -> outcome (option Lead.Lead);
  (** the identifier [new Lead()] gets *)
  freshId : N;
  (** [lead.save()] *)
  save : Lead.Lead -> outcome unit;
  (** whether the 15 s timer settles before the generation does *)
  deadlineFirst : bool
}.

(** The JSON bodies the handler sends. *)
Inductive Body : Type :=
| Failure (error : jsstring) (message : option jsstring)
| Success (response : jsstring) (userId : N) (warning : option jsstring).

Record Response := { status : Z; body : Body }.

(** The handler's effect: the response it sends and, when it gets as far
    as [lead.save()], the document it saves. *)
Record Handled := { sent : Response; document : option Lead.Lead }.

(** Lines "Update lead information with extracted data". *)
Definition updateLead (extractedInfo : Info) (lead : Lead.Lead) : Lead.Lead :=
  let lead := match name extractedInfo with
              | Some v => if truthy v then Lead.set_name v lead else lead
              | None => lead
              end in
  let lead := match budget extractedInfo with
              | Some v => if truthy v then Lead.set_budget v lead else lead
              | None => lead
              end in
  let lead := match preferredLocation extractedInfo with
              | Some v => if truthy v then Lead.set_preferredLocation v lead else lead
              | None => lead
              end in
  match propertyType extractedInfo with
  | Some v => if truthy v then Lead.set_propertyType v lead else lead
  | None => lead
  end.

(** "Find or create lead". *)
Definition findOrCreate (w : World) (userId : jsval) : outcome Lead.Lead :=
  if truthyVal userId then
    found <- findById w userId ;;
    match found with
    | Some lead => Return lead
    | None => Return (Lead.new (freshId w))
    end
  else Return (Lead.new (freshId w)).

(** The bot response: the race of [generateResponse] against the timer,
    and the template when the race is lost or the generation fails. *)
Definition botResponse (w : World) (message : jsstring) (lead : Lead.Lead)
    (uiSize : jsval) : jsstring :=
  let raced :=
    if deadlineFirst w then Throw (Error (str "Response generation timed out"))
    else generateResponse (apiKey w) (axios_post w) message lead
                          (Lead.messageHistory lead) uiSize in
  match raced with
  | Return response => response
  | Throw aiError => generateTemplateResponse message lead
  end.

(** [processMessage(req, res)] for the request body [reqBody]. *)
Definition processMessage (w : World) (reqBody : jsval) : Handled :=
  let serverError :=
    {| sent := {| status := 500;
                  body := Failure (str "Server error")
                    (Some (str "An unexpected error occurred. Please try again later.")) |};
       document := None |} in
  match reqBody with
  | VUndefined | VNull => serverError
  | _ =>
    let message := get reqBody (str "message") in
    let userId := get reqBody (str "userId") in
    let uiSize := get reqBody (str "uiSize") in
    if negb (truthyVal message) then
      {| sent := {| status := 400;
                    body := Failure (str "Message is required") None |};
         document := None |}
    else
      match message with
      | VStr message =>
        let extractedInfo := extractUserInfo message in
        match findOrCreate w userId with
        | Throw dbError =>
            {| sent := {| status := 503;
                          body := Failure (str "Database connection error")
                            (Some (str "Unable to connect to database. Please try again later.")) |};
               document := None |}
        | Return lead =>
            let lead := updateLead extractedInfo lead in
            let lead := Lead.push {| Lead.sender := str "user";
                                     Lead.message := message |} lead in
            let response := botResponse w message lead uiSize in
            let lead := Lead.push {| Lead.sender := str "bot";
                                     Lead.message := response |} lead in
            match save w lead with
            | Throw saveError =>
                {| sent := {| status := 200;
                              body := Success response (Lead._id lead)
                                (Some (str "Your conversation history may not be saved")) |};
                   document := Some lead |}
            | Return _ =>
                {| sent := {| status := 200;
                              body := Success response (Lead._id lead) None |};
                   document := Some lead |}
            end
        end
      | _ => serverError  (* [message.match] is not a function *)
      end
  end.

(** ** getChatHistory *)

(** The JSON bodies [getChatHistory] sends: [{ success: false, error }]
    and [{ success: true, history }]. *)
Inductive HistoryBody : Type :=
| HistoryFailure (error : jsstring)
| HistorySuccess (history : list Lead.Turn).

Record HistoryResponse := { historyStatus : Z; historyBody : HistoryBody }.

(** [getChatHistory(req, res)] for the route parameters [params]
    ([req.params]).  The handler reads the store and writes nothing. *)
Definition getChatHistory (w : World) (params : jsval) : HistoryResponse :=
  let serverError :=
    {| historyStatus := 500; historyBody := HistoryFailure (str "Server error") |} in
  match params with
  | VUndefined | VNull => serverError
  | _ =>
    let userId := get params (str "userId") in
    if negb (truthyVal userId) then
      {| historyStatus := 400;
         historyBody := HistoryFailure (str "User ID is required") |}
    else
      match findById w userId with
      | Throw error => serverError
      | Return None =>
          {| historyStatus := 404;
             historyBody := HistoryFailure (str "Lead not found") |}
      | Return (Some lead) =>
          {| historyStatus := 200;
             historyBody := HistorySuccess (Lead.messageHistory lead) |}
      end
  end.

End Controller.

End ChatbotController.

(* ===================================================================== *)
(** * What a pattern matches *)
(* ===================================================================== *)

Module Semantics.
Import JSString RegExp.

(** [matches re r st caps st' caps']: the pattern [r] can take the matcher
    from position [st] with captures [caps] to position [st'] with
    captures [caps'].  The relation has no priorities: it holds of every
    way there is to match. *)
Inductive matches (re : RegExp)
  : regex -> state -> captures -> state -> captures -> Prop :=
| MEmpty st caps : matches re REmpty st caps st caps
| MSet cs st caps c rst :
    rest st = c :: rst ->
    cset_match (ignoreCase re) cs c = true ->
    matches re (RSet cs) st caps {| before := c :: before st; rest := rst |} caps
| MSeq r1 r2 st caps st1 caps1 st2 caps2 :
    matches re r1 st caps st1 caps1 ->
    matches re r2 st1 caps1 st2 caps2 ->
    matches re (RSeq r1 r2) st caps st2 caps2
| MAltL r1 r2 st caps st' caps' :
    matches re r1 st caps st' caps' ->
    matches re (RAlt r1 r2) st caps st' caps'
| MAltR r1 r2 st caps st' caps' :
    matches re r2 st caps st' caps' ->
    matches re (RAlt r1 r2) st caps st' caps'
| MRep min cs st caps run rst :
    rest st = run ++ rst ->
    forallb (cset_match (ignoreCase re) cs) run = true ->
    (min <= length run)%nat ->
    matches re (RRep min cs) st caps
            {| before := rev run ++ before st; rest := rst |} caps
| MGroup n r st caps st' caps' :
    matches re r st caps st' caps' ->
    matches re (RGroup n r) st caps st' (setCapture n (pos st) (pos st') caps')
| MBol st caps : atBol re st = true -> matches re RBol st caps st caps
| MEol st caps : atEol re st = true -> matches re REol st caps st caps.

(** [st'] is [st] moved forward over [consumed]. *)
Definition advances (st : state) (consumed : jsstring) (st' : state) : Prop :=
  rest st = consumed ++ rest st' /\ before st' = rev consumed ++ before st.

(** The position [i] of the text [s]. *)
Definition stateAt (s : jsstring) (i : nat) : state :=
  {| before := rev (firstn i s); rest := skipn i s |}.

(** The position [st] in a text that goes on with [post]. *)
Definition extend (st : state) (post : jsstring) : state :=
  {| before := before st; rest := rest st ++ post |}.

(** Patterns without [$]. *)
Fixpoint noEol (r : regex) : bool :=
  match r with
  | REol => false
  | RSeq a b | RAlt a b => noEol a && noEol b
  | RGroup _ a => noEol a
  | _ => true
  end.

(** The common end of the bullet and heading patterns: white space, then
    the rest of the line as group 1. *)
Definition lineTail : regex :=
  RSeq (RSet CSpace) (RSeq (RGroup 1 (RRep 1 CAny)) (RSeq REol REmpty)).

(** Patterns that end with [lineTail] after a part without [$]. *)
Fixpoint endsWithLineTail (r : regex) : Prop :=
  r = lineTail \/
  match r with
  | RSeq a b => noEol a = true /\ endsWithLineTail b
  | _ => False
  end.

(** The text [s] starts with the literal [w], each unit compared as the
    matcher compares it. *)
Fixpoint litMatch (icase : bool) (w s : jsstring) : bool :=
  match w, s with
  | [], _ => true
  | _ :: _, [] => false
  | a :: w', b :: s' => cset_match icase (CChar a) b && litMatch icase w' s'
  end.

(** The patterns of the extractor: case-blind, not global, with a space
    among the patterns [ps] that come before their one group. *)
Definition capturing (re : RegExp) (ps : list regex) (G : regex) : Prop :=
  global re = false /\ ignoreCase re = true
  /\ source re = fold_right RSeq (RSeq (RGroup 1 G) REmpty) ps
  /\ ngroups (source re) = 1%nat
  /\ In (RSet (CChar 32)) ps.

End Semantics.

(** Inversion of a match, down to the atoms of the pattern. *)
Ltac inv_matches :=
  repeat match goal with
         | H : Semantics.matches _ (RegExp.RSeq _ _) _ _ _ _ |- _ =>
             inversion H; clear H; subst
         | H : Semantics.matches _ (RegExp.RSet _) _ _ _ _ |- _ =>
             inversion H; clear H; subst
         | H : Semantics.matches _ (RegExp.RRep _ _) _ _ _ _ |- _ =>
             inversion H; clear H; subst
         | H : Semantics.matches _ (RegExp.RGroup _ _) _ _ _ _ |- _ =>
             inversion H; clear H; subst
         | H : Semantics.matches _ RegExp.REmpty _ _ _ _ |- _ =>
             inversion H; clear H; subst
         | H : Semantics.matches _ RegExp.RBol _ _ _ _ |- _ =>
             inversion H; clear H; subst
         | H : Semantics.matches _ RegExp.REol _ _ _ _ |- _ =>
             inversion H; clear H; subst
         end.

(* ===================================================================== *)
(** * Vocabulary of the statements *)
(* ===================================================================== *)

Module Spec.
Import JSString JSValue RegExp ChatbotController.

(** ** Payloads *)

(** The message of the first choice of a payload, [data.choices[0].message]
    as JavaScript reads it; [undefined] when the payload has no choices, no
    first choice or no message there. *)
Definition firstChoiceMessage (data : jsval) : jsval :=
  get (getFirst (get data (str "choices"))) (str "message").

(** What that message holds as content. *)
Definition payloadContent (data : jsval) : jsval :=
  get (firstChoiceMessage data) (str "content").

(** The text content of a payload, when it has one: a payload is well
    formed when its first choice has a message with text content. *)
Definition textContent (data : jsval) : option jsstring :=
  match payloadContent data with
  | VStr text => Some text
  | _ => None
  end.

(** The ways the remote completion call fails, for the request [req] the
    service sends. *)
Inductive CompletionFailure (apiKey : option jsstring)
    (axios_post : MistralService.Request -> outcome jsval)
    (req : MistralService.Request) : Prop :=
| MissingCredential :
    truthy_opt apiKey = false -> CompletionFailure apiKey axios_post req
| NoResponse (request : bool) :
    (** transport error, or the request could not be set up *)
    axios_post req = Throw (AxiosError None request) ->
    CompletionFailure apiKey axios_post req
| BadStatus (status : Z) (data : jsval) (request : bool) :
    (** the server answered outside 2xx *)
    axios_post req = Throw (AxiosError (Some (status, data)) request) ->
    CompletionFailure apiKey axios_post req
| MalformedPayload (data : jsval) :
    (** the server answered with a payload without text content *)
    axios_post req = Return data ->
    textContent data = None ->
    CompletionFailure apiKey axios_post req.

(** The one failure that leaves the client something to relay: with a
    credential, the endpoint answers with a payload whose first choice has
    a message, but that message has no text content (no content, or a
    content that is not a string). *)
Definition MessageWithoutText (apiKey : option jsstring)
    (axios_post : MistralService.Request -> outcome jsval)
    (req : MistralService.Request) : Prop :=
  truthy_opt apiKey = true
  /\ exists data,
       axios_post req = Return data
       /\ truthyVal (firstChoiceMessage data) = true
       /\ textContent data = None.

(** All four attributes of a lead are set to non-empty strings. *)
Definition allSet (l : Lead.Lead) : Prop :=
  truthy_opt (Lead.name l) = true /\ truthy_opt (Lead.propertyType l) = true /\
  truthy_opt (Lead.budget l) = true /\ truthy_opt (Lead.preferredLocation l) = true.

(** The full-summary reply of the template responder. *)
Definition fullSummary (l : Lead.Lead) : jsstring :=
  str "Thank you for providing all the details, " ++ interp (Lead.name l)
  ++ str ". I'll help you find " ++ interp (Lead.propertyType l)
  ++ str " properties in " ++ interp (Lead.preferredLocation l)
  ++ str " within your budget of " ++ interp (Lead.budget l)
  ++ str ". A real estate agent will contact you soon with some great options. Is there anything else you'd like to know?".

(** A lead whose four attributes are set. *)
Definition alice : Lead.Lead :=
  {| Lead._id := 1; Lead.name := Some (str "Alice"); Lead.phone := None;
     Lead.budget := Some (str "500,000");
     Lead.preferredLocation := Some (str "Boston");
     Lead.propertyType := Some (str "house"); Lead.messageHistory := [] |}.

(** An endpoint that cannot be reached. *)
Definition unreachable (_ : MistralService.Request) : outcome jsval :=
  Throw (AxiosError None true).

(** An endpoint that answers with a payload without choices. *)
Definition blank (_ : MistralService.Request) : outcome jsval :=
  Return (VObj [(str "id", VStr (str "cmpl-1"))]).

(** An endpoint that answers with one choice whose message has a role and
    no content. *)
Definition silent (_ : MistralService.Request) : outcome jsval :=
  Return (VObj [(str "choices",
                 VArr [VObj [(str "message",
                              VObj [(str "role", VStr (str "assistant"))])]])]).






(** The four attributes, as read from the extractor's output and from a
    lead. *)
Inductive attribute : Type := Name | Budget | PreferredLocation | PropertyType.

Definition extracted (a : attribute) (i : Info) : option jsstring :=
  match a with
  | Name => name i
  | Budget => budget i
  | PreferredLocation => preferredLocation i
  | PropertyType => propertyType i
  end.

Definition stored (a : attribute) (l : Lead.Lead) : option jsstring :=
  match a with
  | Name => Lead.name l
  | Budget => Lead.budget l
  | PreferredLocation => Lead.preferredLocation l
  | PropertyType => Lead.propertyType l
  end.


(** A world without credential, with an empty store that accepts every
    save, in which the timer never wins. *)
Definition offline : World :=
  {| apiKey := None; axios_post := unreachable;
     findById := fun _ => Return None; freshId := 7;
     save := fun _ => Return tt; deadlineFirst := false |}.

(** The request body [{ message: text }]. *)
Definition say (text : jsstring) : jsval :=
  VObj [(str "message", VStr text)].

(** The words of the greeting pattern. *)
Definition greetingWords : list jsstring :=
  [str "hi"; str "hello"; str "hey"; str "greetings"].

(** The message starts with a greeting word, letter case apart. *)
Definition startsWithGreeting (message : jsstring) : bool :=
  existsb (fun w => startsWith w (map lowerAscii message)) greetingWords.

(** ** Texts *)

(** The longest prefix of code units that satisfy [p]. *)
Fixpoint takeWhile (p : N -> bool) (s : jsstring) : jsstring :=
  match s with
  | c :: s' => if p c then c :: takeWhile p s' else []
  | [] => []
  end.

(** The number of code units of [s] that satisfy [p]. *)
Definition count (p : N -> bool) (s : jsstring) : nat := length (filter p s).

(** The question mark. *)
Definition qmark : N := 63%N.
Definition isQmark (c : N) : bool := N.eqb c qmark.

(** The line feed. *)
Definition isLF (c : N) : bool := N.eqb c 10%N.

(** Runs of line feeds cut down to two; [n] counts the line feeds of the
    current run that were kept. *)
Fixpoint collapse (n : nat) (s : jsstring) : jsstring :=
  match s with
  | [] => []
  | c :: s' =>
      if N.eqb c 10%N
      then if (n <? 2)%nat then c :: collapse (S n) s' else collapse n s'
      else c :: collapse 0 s'
  end.

(** Text outside ASCII. *)
Definition nonAscii (r : jsstring) : bool :=
  forallb (fun c => negb (N.ltb c 128%N)) r.

(** The Unicode tables yield no question mark when they upper-case text
    outside ASCII. *)
Definition noQmarkFromTables {U : UnicodeTables} : Prop :=
  forall r, nonAscii r = true -> count isQmark (upperNonAscii r) = 0%nat.

(** The code units group 1 of the name pattern takes: ASCII letters and
    white space. *)
Definition nameChar (c : N) : bool :=
  cset_match true (class [CRange (ch "a") (ch "z"); CSpace]) c.

(** The introduction of a name. *)
Definition myNameIsAlice : jsstring := str "my name is Alice".

(** ** Conversations *)

(** The turns the handler adds to a history. *)
Definition userTurn (message : jsstring) : Lead.Turn :=
  {| Lead.sender := str "user"; Lead.message := message |}.

Definition botTurn (response : jsstring) : Lead.Turn :=
  {| Lead.sender := str "bot"; Lead.message := response |}.

(** The API message that carries what the user said. *)
Definition userMessage (message : jsstring) : MistralService.ChatMessage :=
  {| MistralService.role := str "user"; MistralService.content := message |}.

(** The message [m] is the turn [turn] as the API wants it: the same
    text, under the role ['user'] when the user sent it and under the role
    ['assistant'] when anyone else did. *)
Definition formatted (turn : Lead.Turn) (m : MistralService.ChatMessage) : Prop :=
  MistralService.content m = Lead.message turn
  /\ (Lead.sender turn = str "user" -> MistralService.role m = str "user")
  /\ (Lead.sender turn <> str "user" -> MistralService.role m = str "assistant").

(** The two roles a formatted turn can have. *)
Definition chatRole (m : MistralService.ChatMessage) : bool :=
  jsstring_eqb (MistralService.role m) (str "user")
  || jsstring_eqb (MistralService.role m) (str "assistant").

(** The endpoint answers the request [req] with a payload whose first
    choice has a message, and that message holds [content] (which is
    [undefined] when the message has no such key). *)
Definition Answered (apiKey : option jsstring)
    (axios_post : MistralService.Request -> outcome jsval)
    (req : MistralService.Request) (content : jsval) : Prop :=
  truthy_opt apiKey = true
  /\ exists fields choice others message,
       axios_post req = Return (VObj fields)
       /\ lookup (str "choices") fields = VArr (VObj choice :: others)
       /\ lookup (str "message") choice = message
       /\ truthyVal message = true
       /\ get message (str "content") = content.

(** An endpoint that answers every request with one choice whose message
    holds [content]. *)
Definition answering (content : jsval) (_ : MistralService.Request)
  : outcome jsval :=
  Return (VObj [(str "choices",
                 VArr [VObj [(str "message",
                              VObj [(str "role", VStr (str "assistant"));
                                    (str "content", content)])]])]).

(** The request the controller has the service send for [message], on
    behalf of [lead]. *)
Definition sentRequest (w : World) (message : jsstring) (lead : Lead.Lead)
    (uiSize : jsval) : MistralService.Request :=
  MistralService.completionRequest (apiKey w) message
    (Some (contextWithUiInfo lead uiSize)) (Some (Lead.messageHistory lead)).

(** The world [w] with another [lead.save()]. *)
Definition withSave (save' : Lead.Lead -> outcome unit) (w : World) : World :=
  {| apiKey := apiKey w; axios_post := axios_post w; findById := findById w;
     freshId := freshId w; save := save'; deadlineFirst := deadlineFirst w |}.

(** A store that holds [lead] under every identifier and accepts every
    save, in a world without credential. *)
Definition serving (lead : Lead.Lead) : World :=
  {| apiKey := None; axios_post := unreachable;
     findById := fun _ => Return (Some lead); freshId := 7;
     save := fun _ => Return tt; deadlineFirst := false |}.

(** A world with a credential whose endpoint answers every request with
    [content], with an empty store, in which the timer never wins. *)
Definition online (content : jsval) : World :=
  {| apiKey := Some (str "key"); axios_post := answering content;
     findById := fun _ => Return None; freshId := 7;
     save := fun _ => Return tt; deadlineFirst := false |}.

(** The request body [{ message: text, userId: id }]. *)
Definition sayAs (id text : jsstring) : jsval :=
  VObj [(str "message", VStr text); (str "userId", VStr id)].

(** The route parameters [{ userId: id }]. *)
Definition historyOf (id : jsstring) : jsval :=
  VObj [(str "userId", VStr id)].

(** What a response tells the client, the warning apart. *)
Definition reply (r : Response) : Z * option (jsstring * N) :=
  (status r,
   match body r with
   | Success response userId _ => Some (response, userId)
   | Failure _ _ => None
   end).

(** The warning of a response, if it has one. *)
Definition warning (r : Response) : option jsstring :=
  match body r with
  | Success _ _ warning => warning
  | Failure _ _ => None
  end.

(** A history made of exchanges: a turn of the user, then a turn of the
    bot, and so on. *)
Fixpoint exchanges (history : list Lead.Turn) : bool :=
  match history with
  | [] => true
  | asked :: answered :: history' =>
      jsstring_eqb (Lead.sender asked) (str "user")
      && jsstring_eqb (Lead.sender answered) (str "bot")
      && exchanges history'
  | [_] => false
  end.

(** The lead as the handler has it when it asks for a reply: what the
    message tells is merged and the user's turn is recorded. *)
Definition heard {U : UnicodeTables} (message : jsstring) (lead : Lead.Lead)
  : Lead.Lead :=
  Lead.push (userTurn message) (updateLead (extractUserInfo message) lead).




(** ** Characters *)

Definition isAsciiLetter (c : N) : bool := isAsciiLower c || isAsciiUpper c.

Definition comma : N := 44%N.
Definition period : N := 46%N.
Definition hyphen : N := 45%N.
Definition numberSign : N := 35%N.
Definition space : N := 32%N.

(** Three line feeds in a row. *)
Definition threeLF : jsstring := [10%N; 10%N; 10%N].

End Spec.

(* ===================================================================== *)
(** * Strings *)
(* ===================================================================== *)

Section StringFacts.
Import JSString.
Local Open Scope N_scope.

Lemma startsWith_app w s : startsWith w (w ++ s) = true.
Proof.
  induction w as [|a w IH]; simpl; [reflexivity|].
  rewrite N.eqb_refl. exact IH.
Qed.


Lemma includes_startsWith w s : startsWith w s = true -> includes w s = true.
Proof. intros H. destruct s; simpl; rewrite H; reflexivity. Qed.

Lemma includes_app w pre post : includes w (pre ++ w ++ post) = true.
Proof.
  induction pre as [|c pre IH]; simpl.
  - apply includes_startsWith, startsWith_app.
  - rewrite IH. apply orb_true_r.
Qed.




Lemma dropWhile_idem p s : dropWhile p (dropWhile p s) = dropWhile p s.
Proof.
  induction s as [|c s IH]; simpl; [reflexivity|].
  destruct (p c) eqn:E; [exact IH|]. simpl. rewrite E. reflexivity.
Qed.

Lemma dropWhile_snoc p l c :
  p c = false -> dropWhile p (l ++ [c]) = dropWhile p l ++ [c].
Proof.
  intros Hc. induction l as [|a l IH]; simpl.
  - rewrite Hc. reflexivity.
  - destruct (p a); [exact IH|reflexivity].
Qed.

Lemma trimEnd_cons c s :
  isSpace c = false -> trimEnd (c :: s) = c :: trimEnd s.
Proof.
  intros Hc. unfold trimEnd. simpl.
  rewrite dropWhile_snoc by exact Hc.
  rewrite rev_app_distr. reflexivity.
Qed.

Lemma trimEnd_idem s : trimEnd (trimEnd s) = trimEnd s.
Proof.
  unfold trimEnd. rewrite rev_involutive, dropWhile_idem. reflexivity.
Qed.

(** [trim] changes nothing in a text that is already trimmed. *)
Lemma trim_idem s : trim (trim s) = trim s.
Proof.
  unfold trim, trimStart.
  destruct (dropWhile isSpace s) as [|c x] eqn:E.
  - reflexivity.
  - assert (Hc : isSpace c = false).
    { clear -E. induction s as [|a s IH]; simpl in E; [discriminate|].
      destruct (isSpace a) eqn:Ea; [exact (IH E)|].
      injection E as -> _. exact Ea. }
    rewrite trimEnd_cons by exact Hc. simpl. rewrite Hc.
    rewrite trimEnd_cons by exact Hc. rewrite trimEnd_idem. reflexivity.
Qed.


End StringFacts.

(* ===================================================================== *)
(** * The matcher *)
(* ===================================================================== *)

Section Engine.
Import JSString RegExp Semantics Spec.
Variable re : RegExp.

Lemma advances_refl st : advances st [] st.
Proof. split; reflexivity. Qed.

Lemma advances_trans st1 st2 st3 a b :
  advances st1 a st2 -> advances st2 b st3 -> advances st1 (a ++ b) st3.
Proof.
  intros [H1 H2] [H3 H4]. split.
  - rewrite H1, H3, app_assoc. reflexivity.
  - rewrite H4, H2, rev_app_distr, app_assoc. reflexivity.
Qed.

(** A match consumes a piece of the input and nothing else. *)
Lemma matches_advances r st caps st' caps' :
  matches re r st caps st' caps' -> exists consumed, advances st consumed st'.
Proof.
  induction 1.
  - exists []. apply advances_refl.
  - exists [c]. split; simpl; assumption || reflexivity.
  - destruct IHmatches1 as [a Ha]. destruct IHmatches2 as [b Hb].
    exists (a ++ b). eapply advances_trans; eassumption.
  - assumption.
  - assumption.
  - exists run. split; simpl; assumption || reflexivity.
  - assumption.
  - exists []. apply advances_refl.
  - exists []. apply advances_refl.
Qed.

Section Continuation.
Variable R : Type.
Variable k : state -> captures -> option R.

Lemma rep_sound cs caps res : forall rst min bef,
  rep re cs k caps min bef rst = Some res ->
  exists run rst',
    rst = run ++ rst'
    /\ forallb (cset_match (ignoreCase re) cs) run = true
    /\ (min <= length run)%nat
    /\ k {| before := rev run ++ bef; rest := rst' |} caps = Some res.
Proof.
  induction rst as [|c rst IH]; intros min bef H; simpl in H.
  - destruct min; [|discriminate].
    exists [], []. repeat split; auto.
  - destruct (cset_match (ignoreCase re) cs c) eqn:Hc.
    + destruct (rep re cs k caps (Nat.pred min) (c :: bef) rst) eqn:Hrep.
      * injection H as <-.
        destruct (IH _ _ Hrep) as (run & rst' & -> & Hall & Hmin & Hk).
        exists (c :: run), rst'. simpl. rewrite Hc, Hall.
        repeat split; [lia|]. rewrite <- app_assoc. exact Hk.
      * destruct min; [|discriminate].
        exists [], (c :: rst). repeat split; auto.
    + destruct min; [|discriminate].
      exists [], (c :: rst). repeat split; auto.
Qed.

Lemma rep_complete cs caps : forall rst min bef,
  rep re cs k caps min bef rst = None ->
  forall run rst',
    rst = run ++ rst' ->
    forallb (cset_match (ignoreCase re) cs) run = true ->
    (min <= length run)%nat ->
    k {| before := rev run ++ bef; rest := rst' |} caps = None.
Proof.
  induction rst as [|c rst IH]; intros min bef H run rst' E Hall Hmin; simpl in H.
  - destruct run; [|discriminate]. simpl in E. subst rst'.
    destruct min; [exact H|simpl in Hmin; lia].
  - destruct run as [|x run]; simpl in E.
    + subst rst'. destruct min; [|simpl in Hmin; lia]. simpl.
      destruct (cset_match (ignoreCase re) cs c);
        [destruct (rep re cs k caps (Nat.pred 0) (c :: bef) rst)|];
        congruence.
    + injection E as <- ->. simpl in Hall.
      apply andb_true_iff in Hall. destruct Hall as [Hc Hall]. rewrite Hc in H.
      destruct (rep re cs k caps (Nat.pred min) (c :: bef) (run ++ rst')) eqn:Hrep;
        [discriminate|].
      simpl. rewrite <- app_assoc. simpl.
      eapply IH; [exact Hrep|reflexivity|exact Hall|simpl in Hmin; lia].
Qed.

(** The quantifier is greedy: when the continuation accepts the position
    after the longest run, that is the result. *)
Lemma rep_greedy cs caps res : forall run min bef rst',
  forallb (cset_match (ignoreCase re) cs) run = true ->
  match rst' with
  | [] => True
  | c :: _ => cset_match (ignoreCase re) cs c = false
  end ->
  (min <= length run)%nat ->
  k {| before := rev run ++ bef; rest := rst' |} caps = Some res ->
  rep re cs k caps min bef (run ++ rst') = Some res.
Proof.
  induction run as [|c run IH]; intros min bef rst' Hall Hstop Hmin Hk; simpl in *.
  - assert (min = 0)%nat by lia. subst min.
    destruct rst' as [|c rst']; simpl; [exact Hk|].
    rewrite Hstop. exact Hk.
  - apply andb_true_iff in Hall. destruct Hall as [Hc Hall]. rewrite Hc.
    rewrite (IH (Nat.pred min) (c :: bef) rst'); auto; [lia|].
    rewrite <- app_assoc in Hk. exact Hk.
Qed.

End Continuation.

(** The matcher is sound: its result is the continuation's result after
    some match of the pattern. *)
Lemma rmatch_sound (R : Type) r : forall (k : state -> captures -> option R) st caps res,
  rmatch re r k st caps = Some res ->
  exists st' caps', matches re r st caps st' caps' /\ k st' caps' = Some res.
Proof.
  induction r; intros k st caps res H; simpl in H.
  - exists st, caps. split; [constructor|exact H].
  - destruct (rest st) as [|c rst] eqn:E; [discriminate|].
    destruct (cset_match (ignoreCase re) cs c) eqn:Hc; [|discriminate].
    eexists _, caps. split; [eapply MSet; eassumption|exact H].
  - destruct (IHr1 _ _ _ _ H) as (st1 & caps1 & H1 & Hk1).
    destruct (IHr2 _ _ _ _ Hk1) as (st2 & caps2 & H2 & Hk2).
    exists st2, caps2. split; [eapply MSeq; eassumption|exact Hk2].
  - destruct (rmatch re r1 k st caps) eqn:E1.
    + injection H as <-.
      destruct (IHr1 _ _ _ _ E1) as (st' & caps' & H1 & Hk).
      exists st', caps'. split; [apply MAltL; exact H1|exact Hk].
    + destruct (IHr2 _ _ _ _ H) as (st' & caps' & H2 & Hk).
      exists st', caps'. split; [apply MAltR; exact H2|exact Hk].
  - destruct (rep_sound _ _ _ _ _ _ H) as (run & rst' & E & Hall & Hmin & Hk).
    eexists _, caps. split; [eapply MRep; eassumption|exact Hk].
  - destruct (IHr _ _ _ _ H) as (st' & caps' & H1 & Hk).
    eexists st', _. split; [apply MGroup; exact H1|exact Hk].
  - destruct (atBol re st) eqn:E; [|discriminate].
    exists st, caps. split; [apply MBol; exact E|exact H].
  - destruct (atEol re st) eqn:E; [|discriminate].
    exists st, caps. split; [apply MEol; exact E|exact H].
Qed.

(** The matcher is complete: when it fails, the continuation fails after
    every match of the pattern. *)
Lemma rmatch_complete (R : Type) r : forall (k : state -> captures -> option R) st caps,
  rmatch re r k st caps = None ->
  forall st' caps', matches re r st caps st' caps' -> k st' caps' = None.
Proof.
  induction r; intros k st caps H st' caps' Hm; simpl in H; inversion Hm; subst.
  - exact H.
  - match goal with E : rest st = _ |- _ => rewrite E in H end.
    match goal with E : cset_match _ _ _ = true |- _ => rewrite E in H end.
    exact H.
  - eapply IHr2; [|eassumption].
    eapply (IHr1 (fun st' caps' => rmatch re r2 k st' caps')); eassumption.
  - destruct (rmatch re r1 k st caps) eqn:E1; [discriminate|].
    eapply IHr1; eassumption.
  - destruct (rmatch re r1 k st caps) eqn:E1; [discriminate|].
    eapply IHr2; eassumption.
  - eapply rep_complete; eassumption.
  - eapply (IHr (fun st' caps' => k st' (setCapture n (pos st) (pos st') caps')));
      eassumption.
  - match goal with E : atBol _ _ = true |- _ => rewrite E in H end. exact H.
  - match goal with E : atEol _ _ = true |- _ => rewrite E in H end. exact H.
Qed.

Lemma matchAt_sound st e caps :
  matchAt re st = Some (e, caps) -> matches re (source re) st noCaptures e caps.
Proof.
  intros H. apply rmatch_sound in H.
  destruct H as (st' & caps' & Hm & E). injection E as <- <-. exact Hm.
Qed.

Lemma matchAt_complete st :
  matchAt re st = None -> forall e caps, ~ matches re (source re) st noCaptures e caps.
Proof.
  intros H e caps Hm.
  unfold matchAt in H.
  eapply rmatch_complete in H; [|exact Hm]. discriminate H.
Qed.

End Engine.

Section Search.
Import JSString RegExp Semantics Spec.
Variable re : RegExp.

Lemma search_none_inv bef rst :
  search re bef rst = None ->
  matchAt re {| before := bef; rest := rst |} = None
  /\ match rst with
     | [] => True
     | c :: rst' => search re (c :: bef) rst' = None
     end.
Proof.
  destruct rst as [|c rst']; simpl;
    destruct (matchAt re _) as [[e caps]|]; intros H; try discriminate; auto.
Qed.

(** Positions at which the pattern fails are passed by the search. *)
Lemma search_skip : forall skipped bef rst,
  (forall s1 s2, skipped = s1 ++ s2 -> s2 <> [] ->
     matchAt re {| before := rev s1 ++ bef; rest := s2 ++ rst |} = None) ->
  search re bef (skipped ++ rst) = search re (rev skipped ++ bef) rst.
Proof.
  induction skipped as [|c skipped IH]; intros bef rst H; [reflexivity|].
  simpl.
  assert (H0 := H [] (c :: skipped) eq_refl ltac:(discriminate)).
  simpl in H0. rewrite H0.
  rewrite IH; [rewrite <- app_assoc; reflexivity|].
  intros s1 s2 E Hne.
  specialize (H (c :: s1) s2). simpl in H. rewrite <- app_assoc in H.
  apply H; [rewrite E; reflexivity|exact Hne].
Qed.

Lemma search_here bef rst e caps :
  matchAt re {| before := bef; rest := rst |} = Some (e, caps) ->
  search re bef rst = Some ({| before := bef; rest := rst |}, e, caps).
Proof. intros H. destruct rst; simpl; rewrite H; reflexivity. Qed.

Lemma stateAt_app pre rst :
  stateAt (pre ++ rst) (length pre) = {| before := rev pre; rest := rst |}.
Proof.
  unfold stateAt.
  rewrite firstn_app, Nat.sub_diag, firstn_all, app_nil_r.
  rewrite skipn_app, Nat.sub_diag, skipn_all. reflexivity.
Qed.

(** The search returns the first index at which the pattern matches. *)
Lemma search_first pre rst e caps :
  (forall i, (i < length pre)%nat -> matchAt re (stateAt (pre ++ rst) i) = None) ->
  matchAt re (stateAt (pre ++ rst) (length pre)) = Some (e, caps) ->
  search re [] (pre ++ rst) = Some (stateAt (pre ++ rst) (length pre), e, caps).
Proof.
  intros Hbefore Hat.
  rewrite search_skip.
  - rewrite stateAt_app in *. rewrite app_nil_r. apply search_here. exact Hat.
  - intros s1 s2 E Hne. subst pre.
    assert (H := Hbefore (length s1)).
    rewrite <- app_assoc, stateAt_app, app_nil_r in *.
    apply H. rewrite length_app. destruct s2; [congruence|simpl; lia].
Qed.

Section Scan.
Variable A : Type.
Variable found : list (option jsstring) -> A -> A.
Variable unmatched : N -> A -> A.
Variable done : A.

(** Where the pattern matches nowhere, every unit is unmatched. *)
Lemma scan_no_match : forall rst bef,
  search re bef rst = None ->
  scan re found unmatched done bef rst 0 = fold_right unmatched done rst.
Proof.
  induction rst as [|c rst IH]; intros bef H;
    apply search_none_inv in H; destruct H as [Hat Hrest]; simpl; rewrite Hat.
  - reflexivity.
  - rewrite (IH _ Hrest). reflexivity.
Qed.

End Scan.

Lemma replaceAll_no_match replacer s :
  test re s = false -> replaceAll re replacer s = s.
Proof.
  unfold test, replaceAll. intros H.
  destruct (search re [] s) eqn:E; [discriminate|].
  rewrite (scan_no_match _ _ _ _ _ E).
  induction s as [|c s IH]; simpl; [reflexivity|].
  f_equal. clear. induction s; simpl; congruence.
Qed.

(** The matched text is the piece of input between the two ends. *)
Lemma advances_pos st consumed st' :
  advances st consumed st' -> (pos st' - pos st)%nat = length consumed.
Proof.
  intros [_ H]. unfold pos. rewrite H, length_app, length_rev. lia.
Qed.

Lemma matchAt_advances st e caps :
  matchAt re st = Some (e, caps) -> exists consumed, advances st consumed e.
Proof.
  intros H. apply matchAt_sound in H. eapply matches_advances. exact H.
Qed.

(** A replacement that keeps, in each match, the number of units that
    satisfy [p] keeps it in the whole text. *)
Lemma replaceAll_count (p : N -> bool) replacer :
  (forall st e caps consumed,
     matchAt re st = Some (e, caps) ->
     advances st consumed e ->
     count p (replacer (matchArray re st e caps)) = count p consumed) ->
  forall s, count p (replaceAll re replacer s) = count p s.
Proof.
  intros Hkeep s. unfold replaceAll.
  assert (Hcount_app : forall a b, count p (a ++ b) = (count p a + count p b)%nat).
  { intros a b. unfold count. rewrite filter_app, length_app. reflexivity. }
  assert (Hcount_cons : forall c l, count p (c :: l) = (count p [c] + count p l)%nat).
  { intros c l. apply (Hcount_app [c] l). }
  assert (Hgen : forall rst bef skip, (skip <= length rst)%nat ->
            count p (scan re (fun m out => replacer m ++ out)
                          (fun c out => c :: out) [] bef rst skip)
            = count p (skipn skip rst)).
  { induction rst as [|c rst IH]; intros bef skip Hskip.
    - simpl in Hskip. assert (skip = 0)%nat by lia. subst skip. simpl.
      destruct (matchAt re _) as [[e caps]|] eqn:Hat; [|reflexivity].
      destruct (matchAt_advances _ Hat) as [consumed Hadv].
      rewrite app_nil_r, (Hkeep _ _ _ _ Hat Hadv).
      destruct Hadv as [Hrest _]. simpl in Hrest.
      destruct consumed; [reflexivity|discriminate].
    - destruct skip as [|skip]; simpl.
      + destruct (matchAt re _) as [[e caps]|] eqn:Hat.
        * destruct (matchAt_advances _ Hat) as [consumed Hadv].
          rewrite Hcount_app, (Hkeep _ _ _ _ Hat Hadv).
          pose proof (advances_pos Hadv) as Hlen. unfold pos in Hlen. simpl in Hlen.
          unfold pos. simpl. rewrite Hlen.
          destruct Hadv as [Hrest _]. simpl in Hrest.
          destruct consumed as [|x consumed]; simpl.
          -- rewrite (Hcount_cons c rst), (Hcount_cons c (scan _ _ _ _ _ _ _)).
             rewrite (IH _ 0%nat) by lia. reflexivity.
          -- injection Hrest as <- Hrst.
             rewrite IH by (rewrite Hrst, length_app; lia).
             rewrite Hrst, skipn_app, Nat.sub_diag, skipn_all. simpl.
             rewrite (Hcount_cons c consumed), (Hcount_cons c (consumed ++ rest e)).
             rewrite Hcount_app. lia.
        * rewrite (Hcount_cons c rst), (Hcount_cons c (scan _ _ _ _ _ _ _)).
          rewrite (IH _ 0%nat) by lia. reflexivity.
      + apply IH. simpl in Hskip. lia. }
  apply (Hgen s [] 0%nat). lia.
Qed.

(** A replacement that loses, in no match, a unit that satisfies [p]
    loses none in the whole text. *)
Lemma replaceAll_count_ge (p : N -> bool) replacer :
  (forall st e caps consumed,
     matchAt re st = Some (e, caps) ->
     advances st consumed e ->
     (count p consumed <= count p (replacer (matchArray re st e caps)))%nat) ->
  forall s, (count p s <= count p (replaceAll re replacer s))%nat.
Proof.
  intros Hkeep s. unfold replaceAll.
  assert (Hcount_app : forall a b, count p (a ++ b) = (count p a + count p b)%nat).
  { intros a b. unfold count. rewrite filter_app, length_app. reflexivity. }
  assert (Hcount_cons : forall c l, count p (c :: l) = (count p [c] + count p l)%nat).
  { intros c l. apply (Hcount_app [c] l). }
  assert (Hgen : forall rst bef skip, (skip <= length rst)%nat ->
            (count p (skipn skip rst)
             <= count p (scan re (fun m out => replacer m ++ out)
                             (fun c out => c :: out) [] bef rst skip))%nat).
  { induction rst as [|c rst IH]; intros bef skip Hskip.
    - simpl in Hskip. assert (skip = 0)%nat by lia. subst skip. simpl.
      destruct (matchAt re _) as [[e caps]|] eqn:Hat; [|apply Nat.le_refl].
      unfold count. simpl. lia.
    - destruct skip as [|skip]; simpl.
      + destruct (matchAt re _) as [[e caps]|] eqn:Hat.
        * destruct (matchAt_advances _ Hat) as [consumed Hadv].
          pose proof (Hkeep _ _ _ _ Hat Hadv) as Hm.
          rewrite Hcount_app.
          pose proof (advances_pos Hadv) as Hlen. unfold pos in Hlen. simpl in Hlen.
          unfold pos. simpl. rewrite Hlen.
          destruct Hadv as [Hrest _]. simpl in Hrest.
          destruct consumed as [|x consumed]; simpl.
          -- rewrite (Hcount_cons c rst), (Hcount_cons c (scan _ _ _ _ _ _ _)).
             pose proof (IH (c :: bef) 0%nat ltac:(lia)) as Hih. simpl in Hih. lia.
          -- injection Hrest as <- Hrst.
             assert (Hskipn : skipn (length consumed) rst = rest e)
               by (rewrite Hrst, skipn_app, Nat.sub_diag, skipn_all; reflexivity).
             pose proof (IH (c :: bef) (length consumed)
                           ltac:(rewrite Hrst, length_app; lia)) as Hih.
             rewrite Hskipn in Hih.
             rewrite Hrst at 1.
             rewrite (Hcount_cons c (consumed ++ rest e)), Hcount_app.
             rewrite (Hcount_cons c consumed) in Hm. lia.
        * rewrite (Hcount_cons c rst), (Hcount_cons c (scan _ _ _ _ _ _ _)).
          pose proof (IH (c :: bef) 0%nat ltac:(lia)) as Hih. simpl in Hih. lia.
      + apply IH. simpl in Hskip. lia. }
  apply (Hgen s [] 0%nat). lia.
Qed.

End Search.

(* ===================================================================== *)
(** * The patterns of the formatter *)
(* ===================================================================== *)

Section Question.
Import JSString RegExp ChatbotController Semantics Spec.
Local Open Scope N_scope.

Lemma count_app p a b : count p (a ++ b) = (count p a + count p b)%nat.
Proof. unfold count. rewrite filter_app, length_app. reflexivity. Qed.

Lemma count_cons p c s :
  count p (c :: s) = ((if p c then 1 else 0) + count p s)%nat.
Proof. unfold count. simpl. destruct (p c); reflexivity. Qed.

Lemma count_zero p s : count p s = 0%nat <-> forallb (fun c => negb (p c)) s = true.
Proof.
  induction s as [|c s IH]; simpl; [tauto|].
  rewrite count_cons. destruct (p c); simpl; [split; [lia|discriminate]|exact IH].
Qed.

Lemma pos_step c bef r1 r2 :
  (pos {| before := c :: bef; rest := r1 |}
   - pos {| before := bef; rest := r2 |})%nat = 1%nat.
Proof. unfold pos. cbn [before length]. lia. Qed.

Lemma matchAt_question bef rst :
  matchAt questionRe {| before := bef; rest := rst |}
  = match rst with
    | c :: rst' => if isQmark c
                   then Some ({| before := c :: bef; rest := rst' |}, noCaptures)
                   else None
    | [] => None
    end.
Proof.
  destruct rst as [|c rst']; [reflexivity|].
  unfold matchAt. simpl. unfold isQmark, qmark.
  rewrite orb_false_r. reflexivity.
Qed.

(** The pattern finds one match for each question mark. *)
Lemma matchAll_question s :
  length (matchAll questionRe s) = count isQmark s.
Proof.
  unfold matchAll. generalize (@nil N) as bef.
  induction s as [|c s IH]; intros bef.
  - reflexivity.
  - rewrite count_cons. simpl scan. rewrite matchAt_question.
    destruct (isQmark c).
    + rewrite pos_step. simpl. rewrite IH. reflexivity.
    + simpl. apply IH.
Qed.

Lemma startsWith_qmark s :
  startsWith (str "?") s = match s with c :: _ => isQmark c | [] => false end.
Proof.
  destruct s as [|c s]; [reflexivity|].
  simpl. unfold isQmark, qmark. rewrite N.eqb_sym, andb_true_r. reflexivity.
Qed.

(** Up to the first question mark of a text that has one. *)
Lemma first_question_split s :
  (0 < count isQmark s)%nat ->
  exists pre post,
    s = pre ++ [qmark] ++ post
    /\ count isQmark pre = 0%nat
    /\ indexOf (str "?") s = Z.of_nat (length pre).
Proof.
  induction s as [|c s IH]; intros H.
  - cbv in H. lia.
  - rewrite count_cons in H.
    cbn [indexOf]. rewrite startsWith_qmark.
    destruct (isQmark c) eqn:Hc.
    + exists [], s. apply N.eqb_eq in Hc. subst c. repeat split.
    + destruct (IH H) as (pre & post & -> & Hpre & Hidx).
      exists (c :: pre), post. rewrite count_cons, Hc, Hidx.
      repeat split; [exact Hpre|].
      destruct (Z.ltb_spec (Z.of_nat (length pre)) 0); [lia|].
      simpl length. lia.
Qed.

Lemma substring_prefix pre post :
  substring (pre ++ post) 0 (Z.of_nat (length pre)) = pre.
Proof.
  unfold substring, clamp. rewrite Nat2Z.id. simpl Z.to_nat.
  rewrite length_app.
  replace (Nat.min 0 _) with 0%nat by lia.
  replace (Nat.min (length pre) _) with (length pre) by lia.
  simpl Nat.min. rewrite Nat.max_r by lia. rewrite Nat.sub_0_r. simpl skipn.
  rewrite firstn_app, Nat.sub_diag, firstn_all. simpl. apply app_nil_r.
Qed.

(** The last step of the formatter, by the number of question marks. *)
Lemma firstQuestion_spec s :
  ((1 < count isQmark s)%nat ->
   exists pre post,
     s = pre ++ [qmark] ++ post
     /\ count isQmark pre = 0%nat
     /\ firstQuestion s = pre ++ [qmark])
  /\ ((count isQmark s <= 1)%nat -> firstQuestion s = s).
Proof.
  unfold firstQuestion, match_. simpl global.
  pose proof (matchAll_question s) as Hlen.
  split; intros H.
  - destruct (first_question_split s ltac:(lia)) as (pre & post & E & Hpre & Hidx).
    exists pre, post. split; [exact E|]. split; [exact Hpre|].
    destruct (matchAll questionRe s) as [|m ms]; [simpl in Hlen; lia|].
    rewrite Hlen.
    destruct (Nat.ltb_spec 1 (count isQmark s)); [|lia].
    rewrite Hidx.
    replace (Z.of_nat (length pre) + 1)%Z with (Z.of_nat (length (pre ++ [qmark])))
      by (rewrite length_app; simpl; lia).
    rewrite E at 1. rewrite app_assoc. apply substring_prefix.
  - destruct (matchAll questionRe s) as [|m ms]; [reflexivity|].
    rewrite Hlen.
    destruct (Nat.ltb_spec 1 (count isQmark s)); [lia|reflexivity].
Qed.

Lemma firstQuestion_idem s : firstQuestion (firstQuestion s) = firstQuestion s.
Proof.
  destruct (firstQuestion_spec s) as [Hmany Hfew].
  destruct (Nat.ltb_spec 1 (count isQmark s)) as [H|H].
  - destruct (Hmany H) as (pre & post & _ & Hpre & ->).
    apply firstQuestion_spec.
    rewrite count_app, Hpre. cbv. lia.
  - rewrite (Hfew H). exact (Hfew H).
Qed.

(** What [firstQuestion] returns is a prefix of its argument. *)
Lemma firstQuestion_prefix s : exists post, s = firstQuestion s ++ post.
Proof.
  destruct (firstQuestion_spec s) as [Hmany Hfew].
  destruct (Nat.ltb_spec 1 (count isQmark s)) as [H|H].
  - destruct (Hmany H) as (pre & post & E & _ & ->).
    exists post. rewrite <- app_assoc. exact E.
  - exists []. rewrite (Hfew H), app_nil_r. reflexivity.
Qed.

End Question.

Section Lines.
Import JSString RegExp ChatbotController Semantics Spec.
Local Open Scope N_scope.

Lemma cset_space x : cset_match false CSpace x = isSpace x.
Proof. simpl. apply orb_false_r. Qed.

Lemma cset_any x : cset_match false CAny x = negb (isLineTerminator x).
Proof. simpl. apply orb_false_r. Qed.

Lemma cset_char a x : cset_match false (CChar a) x = (x =? a).
Proof. simpl. apply orb_false_r. Qed.

Lemma source_bulletRe :
  source bulletRe
  = RSeq RBol (RSeq (RRep 0 CSpace) (RSeq (RSet (CChar 45)) lineTail)).
Proof. reflexivity. Qed.

Lemma source_headingRe :
  source headingRe = RSeq RBol (RSeq (RRep 1 (CChar 35)) lineTail).
Proof. reflexivity. Qed.

Lemma advances_unique st a b st' :
  advances st a st' -> advances st b st' -> a = b.
Proof.
  intros [_ Ha] [_ Hb]. rewrite Ha in Hb. apply app_inv_tail in Hb.
  rewrite <- (rev_involutive a), Hb. apply rev_involutive.
Qed.

(** The slice between two positions of one input. *)
Lemma slice_between bef a b rst :
  slice (rev bef ++ a ++ b ++ rst)
        (length a + length bef) (length b + (length a + length bef)) = b.
Proof.
  unfold slice.
  replace (rev bef ++ a ++ b ++ rst) with ((rev bef ++ a) ++ b ++ rst)
    by (rewrite <- app_assoc; reflexivity).
  replace (length a + length bef)%nat with (length (rev bef ++ a))
    by (rewrite length_app, length_rev; lia).
  rewrite skipn_app, Nat.sub_diag, skipn_all. simpl.
  replace (length b + length (rev bef ++ a) - length (rev bef ++ a))%nat
    with (length b) by lia.
  rewrite firstn_app, Nat.sub_diag, firstn_all. simpl. apply app_nil_r.
Qed.

Lemma group1_matchArray re st e caps lo hi :
  ngroups (source re) = 1%nat -> caps 1%nat = Some (lo, hi) ->
  group1 (matchArray re st e caps) = slice (input st) lo hi.
Proof.
  intros Hn Hc. unfold group1, matchArray, at_. rewrite Hn. simpl. rewrite Hc.
  reflexivity.
Qed.

Section LineTail.
Variable re : RegExp.
Hypothesis Hmulti : multiline re = true.
Hypothesis Hcase : ignoreCase re = false.

(** What [lineTail] matches: a white-space unit, then one or more units
    that are not line terminators, up to the end of a line. *)
Lemma lineTail_inv st caps e caps' :
  matches re lineTail st caps e caps' ->
  exists c run rst,
    rest st = c :: run ++ rst
    /\ isSpace c = true
    /\ forallb (cset_match false CAny) run = true
    /\ (1 <= length run)%nat
    /\ e = {| before := rev run ++ c :: before st; rest := rst |}
    /\ caps' = setCapture 1 (S (pos st)) (length run + S (pos st)) caps
    /\ atEol re e = true.
Proof.
  unfold lineTail. intros H. inv_matches.
  rewrite Hcase in *. simpl rest in *. simpl before in *. subst.
  exists c, run, rst0. rewrite cset_space in *.
  repeat split; auto.
  unfold pos. simpl. rewrite length_app, length_rev. reflexivity.
Qed.

(** A match of a pattern without [$] does not depend on what follows the
    text it consumes. *)
Lemma matches_extend r st caps st' caps' post :
  noEol r = true ->
  matches re r st caps st' caps' ->
  matches re r (extend st post) caps (extend st' post) caps'.
Proof.
  intros Hno Hm. induction Hm; simpl in Hno;
    try (apply andb_true_iff in Hno; destruct Hno as [Hno1 Hno2]).
  - constructor.
  - apply (@MSet re cs (extend st post) caps c (rst ++ post)).
    + unfold extend. simpl. rewrite H. reflexivity.
    + exact H0.
  - eapply MSeq; eauto.
  - apply MAltL. auto.
  - apply MAltR. auto.
  - apply (@MRep re min cs (extend st post) caps run (rst ++ post)).
    + unfold extend. simpl. rewrite H, app_assoc. reflexivity.
    + exact H0.
    + exact H1.
  - apply (@MGroup re n r (extend st post) caps (extend st' post) caps'). auto.
  - apply MBol. exact H.
  - discriminate.
Qed.

Lemma forallb_takeWhile p s : forallb p (takeWhile p s) = true.
Proof.
  induction s as [|c s IH]; simpl; [reflexivity|].
  destruct (p c) eqn:E; simpl; [rewrite E; exact IH|reflexivity].
Qed.

Lemma takeWhile_split p s :
  exists rst, s = takeWhile p s ++ rst
              /\ match rst with [] => True | c :: _ => p c = false end.
Proof.
  induction s as [|c s (rst & E & Hstop)]; simpl.
  - exists []. split; [reflexivity|exact I].
  - destruct (p c) eqn:Hc.
    + exists rst. split; [simpl; f_equal; exact E|exact Hstop].
    + exists (c :: s). split; [reflexivity|exact Hc].
Qed.

(** A line that [lineTail] matches is still matched when the text goes
    on: the group takes the rest of the longer line. *)
Lemma lineTail_extend st caps e caps' post :
  matches re lineTail st caps e caps' ->
  exists e' caps'', matches re lineTail (extend st post) caps e' caps''.
Proof.
  intros H.
  destruct (lineTail_inv H) as (c & run & rst & Hrest & Hc & Hrun & Hlen & -> & _ & Heol).
  unfold atEol in Heol. simpl in Heol. rewrite Hmulti in Heol. simpl in Heol.
  assert (Hgoal : forall run' rst',
            rest (extend st post) = c :: run' ++ rst' ->
            forallb (cset_match false CAny) run' = true ->
            (1 <= length run')%nat ->
            match rst' with [] => True | x :: _ => isLineTerminator x = true end ->
            exists e' caps'', matches re lineTail (extend st post) caps e' caps'').
  { intros run' rst' Hrest' Hrun' Hlen' Hstop.
    eexists _, _. unfold lineTail.
    eapply MSeq.
    - eapply MSet; [exact Hrest'|]. rewrite Hcase, cset_space. exact Hc.
    - eapply MSeq.
      + apply MGroup. eapply MRep; [reflexivity| |exact Hlen'].
        rewrite Hcase. exact Hrun'.
      + eapply MSeq; [|apply MEmpty]. apply MEol.
        unfold atEol. simpl. rewrite Hmulti.
        destruct rst'; [reflexivity|exact Hstop]. }
  destruct rst as [|x rst].
  - destruct (takeWhile_split (cset_match false CAny) post) as (rst' & E & Hstop).
    apply (Hgoal (run ++ takeWhile (cset_match false CAny) post) rst').
    + unfold extend. simpl. rewrite Hrest, app_nil_r. simpl. f_equal.
      rewrite <- app_assoc. f_equal. exact E.
    + rewrite forallb_app, Hrun, forallb_takeWhile. reflexivity.
    + rewrite length_app. lia.
    + destruct rst' as [|y rst']; [exact I|].
      rewrite cset_any in Hstop. destruct (isLineTerminator y); [reflexivity|discriminate].
  - apply (Hgoal run ((x :: rst) ++ post)).
    + unfold extend. simpl. rewrite Hrest. simpl. rewrite <- app_assoc. reflexivity.
    + exact Hrun.
    + exact Hlen.
    + exact Heol.
Qed.

Lemma endsWithLineTail_extend r : forall st caps e caps' post,
  endsWithLineTail r ->
  matches re r st caps e caps' ->
  exists e' caps'', matches re r (extend st post) caps e' caps''.
Proof.
  induction r; intros st caps e caps' post Hends Hm;
    destruct Hends as [E|Hends];
    try (rewrite E in *; eapply lineTail_extend; exact Hm);
    try contradiction.
  destruct Hends as [Hno Hends].
  inversion Hm; subst.
  match goal with
  | H1 : matches re r1 _ _ _ _, H2 : matches re r2 _ _ _ _ |- _ =>
      destruct (IHr2 _ _ _ _ post Hends H2) as (e' & caps'' & H');
      exists e', caps''; eapply MSeq; [|exact H'];
      apply matches_extend; assumption
  end.
Qed.

End LineTail.
End Lines.

Section Prefix.
Import JSString RegExp ChatbotController Semantics Spec.
Local Open Scope N_scope.
Variable re : RegExp.

Lemma search_none_at : forall skipped bef rst,
  search re bef (skipped ++ rst) = None ->
  matchAt re {| before := rev skipped ++ bef; rest := rst |} = None.
Proof.
  induction skipped as [|c skipped IH]; intros bef rst H;
    apply search_none_inv in H; destruct H as [Hat Hrest].
  - exact Hat.
  - simpl. rewrite <- app_assoc. apply IH. exact Hrest.
Qed.

Lemma search_some_inv : forall rst bef st e caps,
  search re bef rst = Some (st, e, caps) ->
  exists skipped,
    rst = skipped ++ rest st /\ before st = rev skipped ++ bef
    /\ matchAt re st = Some (e, caps).
Proof.
  induction rst as [|c rst IH]; intros bef st e caps H; simpl in H.
  - destruct (matchAt re _) as [[e' caps']|] eqn:Hat; [|discriminate].
    injection H as <- <- <-. exists []. auto.
  - destruct (matchAt re _) as [[e' caps']|] eqn:Hat.
    + injection H as <- <- <-. exists []. auto.
    + destruct (IH _ _ _ _ H) as (skipped & E & Hbef & Hm).
      exists (c :: skipped). simpl. rewrite <- app_assoc, E. auto.
Qed.

(** A line pattern that matches nowhere in a text matches nowhere in a
    prefix of it. *)
Lemma test_prefix s post :
  multiline re = true -> ignoreCase re = false ->
  endsWithLineTail (source re) ->
  test re (s ++ post) = false -> test re s = false.
Proof.
  intros Hmulti Hcase Hends Hlong. unfold test in *.
  destruct (search re [] s) as [[[st e] caps]|] eqn:Hs; [exfalso|reflexivity].
  destruct (search re [] (s ++ post)) eqn:Hl; [discriminate|].
  destruct (search_some_inv _ _ Hs) as (skipped & E & Hbef & Hat).
  apply matchAt_sound in Hat.
  destruct (endsWithLineTail_extend Hmulti Hcase post Hends Hat) as (e' & caps' & Hm).
  rewrite E, <- app_assoc in Hl. apply search_none_at in Hl.
  eapply matchAt_complete; [exact Hl|].
  rewrite <- Hbef. destruct st as [b r]. exact Hm.
Qed.

End Prefix.

Section Counts.
Import JSString RegExp ChatbotController Semantics Spec.
Local Open Scope N_scope.
Context {U : UnicodeTables}.

Lemma isSpace_not_qmark c : isSpace c = true -> isQmark c = false.
Proof.
  intros H. unfold isQmark, qmark. destruct (N.eqb_spec c 63); [|reflexivity].
  subst c. discriminate H.
Qed.

Lemma count_spaces run :
  forallb (cset_match false CSpace) run = true -> count isQmark run = 0%nat.
Proof.
  intros H. apply count_zero. rewrite forallb_forall in *.
  intros x Hx. specialize (H x Hx). rewrite cset_space in H.
  rewrite (isSpace_not_qmark _ H). reflexivity.
Qed.

Lemma count_chars a run :
  a <> qmark ->
  forallb (cset_match false (CChar a)) run = true -> count isQmark run = 0%nat.
Proof.
  intros Ha H. apply count_zero. rewrite forallb_forall in *.
  intros x Hx. specialize (H x Hx). rewrite cset_char in H.
  apply N.eqb_eq in H. subst x. unfold isQmark.
  destruct (N.eqb_spec a qmark); [contradiction|reflexivity].
Qed.

Lemma withParagraphs_count s :
  count isQmark (withParagraphs s) = count isQmark s.
Proof.
  apply replaceAll_count. intros st e caps consumed Hat Hadv.
  apply matchAt_sound in Hat. change (source paragraphRe) with (RRep 2 (CChar 10)) in Hat.
  inversion Hat; subst.
  assert (consumed = run).
  { eapply advances_unique; [exact Hadv|]. split; [assumption|reflexivity]. }
  subst consumed. symmetry. apply (@count_chars 10); [discriminate|assumption].
Qed.

(** What a match of a line pattern consumes after its head: the white
    space and the line; group 1 is the line. *)
Lemma lineTail_match re st0 head st caps e caps' consumed :
  multiline re = true -> ignoreCase re = false ->
  ngroups (source re) = 1%nat ->
  advances st0 head st ->
  matches re lineTail st caps e caps' ->
  advances st0 consumed e ->
  exists c line,
    consumed = head ++ c :: line /\ isSpace c = true
    /\ group1 (matchArray re st0 e caps') = line.
Proof.
  intros Hmulti Hcase Hn Hhead Hm Hadv.
  destruct (lineTail_inv Hcase Hm)
    as (c & run & rst & Hrest & Hc & Hrun & Hlen & -> & -> & _).
  exists c, run.
  destruct Hhead as [Hrest0 Hbef0].
  assert (consumed = head ++ c :: run).
  { eapply advances_unique; [exact Hadv|]. split; simpl.
    - rewrite Hrest0, Hrest, <- app_assoc. reflexivity.
    - rewrite Hbef0, rev_app_distr. simpl. rewrite <- !app_assoc. reflexivity. }
  repeat split; auto.
  erewrite group1_matchArray; [|exact Hn|unfold setCapture; simpl; reflexivity].
  unfold input, pos. rewrite Hrest0, Hrest, Hbef0.
  rewrite length_app, length_rev.
  replace (rev (before st0) ++ head ++ c :: run ++ rst)
    with (rev (before st0) ++ (head ++ [c]) ++ run ++ rst)
    by (rewrite <- app_assoc; reflexivity).
  replace (S (length head + length (before st0)))
    with (length (head ++ [c]) + length (before st0))%nat
    by (rewrite length_app; simpl; lia).
  apply slice_between.
Qed.

Lemma withBullets_count s :
  count isQmark (withBullets s) = count isQmark s.
Proof.
  apply replaceAll_count. intros st e caps consumed Hat Hadv.
  apply matchAt_sound in Hat. rewrite source_bulletRe in Hat.
  inv_matches. cbn [rest before] in *. subst.
  change (ignoreCase bulletRe) with false in *.
  match goal with
  | Htail : matches _ lineTail _ _ _ _,
    Hrest : rest ?st0 = ?run ++ ?c :: _ |- _ =>
      rename Htail into HT; rename Hrest into HR;
      edestruct (@lineTail_match bulletRe st0 (run ++ [c]))
        as (w & line & HC & Hw & HG)
  end.
  1-3: reflexivity.
  2: exact HT.
  2: exact Hadv.
  { split; cbn [rest before];
      [rewrite HR, <- app_assoc; reflexivity|rewrite rev_app_distr; reflexivity]. }
  rewrite HC, HG.
  unfold bullet. rewrite !count_app. cbn [app]. rewrite !count_cons.
  match goal with
  | H : forallb _ ?run = true |- _ => rewrite (count_spaces _ H)
  end.
  match goal with
  | H : cset_match _ (CChar 45) _ = true |- _ =>
      rewrite cset_char in H; apply N.eqb_eq in H; subst
  end.
  rewrite (isSpace_not_qmark _ Hw). reflexivity.
Qed.

Lemma upperAscii_qmark c : isQmark (upperAscii c) = isQmark c.
Proof.
  unfold upperAscii, isAsciiLower, isQmark, qmark.
  destruct (N.leb_spec 97 c); destruct (N.leb_spec c 122); simpl; try reflexivity.
  destruct (N.eqb_spec (c - 32) 63); destruct (N.eqb_spec c 63); try reflexivity; lia.
Qed.

(** Upper-casing keeps the number of question marks, when the tables
    produce none. *)
Lemma toUpperCase_count s :
  noQmarkFromTables ->
  count isQmark (toUpperCase s) = count isQmark s.
Proof.
  intros Hup. unfold toUpperCase.
  enough (Hgen : forall run, nonAscii run = true ->
            count isQmark (toUpperCase_go run s) = count isQmark s)
    by (apply Hgen; reflexivity).
  induction s as [|c s IH]; intros run Hrun; simpl.
  - unfold flushUpper. destruct run; [reflexivity|]. apply Hup.
    unfold nonAscii in *. rewrite forallb_forall in *.
    intros x Hx. apply Hrun. apply in_rev. exact Hx.
  - destruct (N.ltb_spec c 128).
    + rewrite count_app, !count_cons, IH, upperAscii_qmark by reflexivity.
      unfold flushUpper. destruct run; [reflexivity|]. rewrite Hup; [reflexivity|].
      unfold nonAscii in *. rewrite forallb_forall in *.
      intros x Hx. apply Hrun. apply in_rev. exact Hx.
    + rewrite IH, count_cons.
      * unfold isQmark, qmark. destruct (N.eqb_spec c 63); [lia|reflexivity].
      * unfold nonAscii in *. simpl. rewrite Hrun.
        destruct (N.ltb_spec c 128); [lia|reflexivity].
Qed.

(** Whatever the tables give, upper-casing loses no question mark: the
    question mark is an ASCII unit, and upper-casing keeps it. *)
Lemma toUpperCase_count_ge s :
  (count isQmark s <= count isQmark (toUpperCase s))%nat.
Proof.
  unfold toUpperCase. generalize (@nil N) as run.
  induction s as [|c s IH]; intros run; simpl.
  - unfold count. simpl. lia.
  - destruct (N.ltb_spec c 128).
    + rewrite count_app, !count_cons, upperAscii_qmark.
      specialize (IH []). lia.
    + rewrite count_cons. specialize (IH (c :: run)).
      unfold isQmark at 1, qmark. destruct (N.eqb_spec c 63); [lia|exact IH].
Qed.

Lemma withHeadings_count s :
  noQmarkFromTables ->
  count isQmark (withHeadings s) = count isQmark s.
Proof.
  intros Hup.
  apply replaceAll_count. intros st e caps consumed Hat Hadv.
  apply matchAt_sound in Hat. rewrite source_headingRe in Hat.
  inv_matches. cbn [rest before] in *. subst.
  change (ignoreCase headingRe) with false in *.
  match goal with
  | Htail : matches _ lineTail _ _ _ _,
    Hrest : rest ?st0 = ?run ++ _ |- _ =>
      rename Htail into HT; rename Hrest into HR;
      edestruct (@lineTail_match headingRe st0 run)
        as (w & line & HC & Hw & HG)
  end.
  1-3: reflexivity.
  2: exact HT.
  2: exact Hadv.
  { split; cbn [rest before]; [exact HR|reflexivity]. }
  rewrite HC, HG.
  rewrite (toUpperCase_count _ Hup), !count_app, !count_cons.
  match goal with
  | H : forallb _ ?run = true |- _ =>
      rewrite (@count_chars 35 _ ltac:(discriminate) H)
  end.
  rewrite (isSpace_not_qmark _ Hw). reflexivity.
Qed.

Lemma withHeadings_count_ge s :
  (count isQmark s <= count isQmark (withHeadings s))%nat.
Proof.
  apply replaceAll_count_ge. intros st e caps consumed Hat Hadv.
  apply matchAt_sound in Hat. rewrite source_headingRe in Hat.
  inv_matches. cbn [rest before] in *. subst.
  change (ignoreCase headingRe) with false in *.
  match goal with
  | Htail : matches _ lineTail _ _ _ _,
    Hrest : rest ?st0 = ?run ++ _ |- _ =>
      rename Htail into HT; rename Hrest into HR;
      edestruct (@lineTail_match headingRe st0 run)
        as (w & line & HC & Hw & HG)
  end.
  1-3: reflexivity.
  2: exact HT.
  2: exact Hadv.
  { split; cbn [rest before]; [exact HR|reflexivity]. }
  rewrite HC, HG.
  rewrite !count_app, !count_cons.
  match goal with
  | H : forallb _ ?run = true |- _ =>
      rewrite (@count_chars 35 _ ltac:(discriminate) H)
  end.
  rewrite (isSpace_not_qmark _ Hw).
  pose proof (toUpperCase_count_ge line). lia.
Qed.

End Counts.

Section Paragraphs.
Import JSString RegExp ChatbotController Semantics Spec.
Local Open Scope N_scope.

Lemma scan_skip (re : RegExp) (A : Type) found unmatched (done : A) :
  forall k rst bef,
    (k <= length rst)%nat ->
    scan re found unmatched done bef rst k
    = scan re found unmatched done (rev (firstn k rst) ++ bef) (skipn k rst) 0.
Proof.
  induction k as [|k IH]; intros rst bef Hk; [reflexivity|].
  destruct rst as [|c rst]; [simpl in Hk; lia|].
  cbn [scan firstn skipn rev]. rewrite IH by (simpl in Hk; lia).
  rewrite <- app_assoc. reflexivity.
Qed.

Lemma scan_cons (re : RegExp) (A : Type) found unmatched (done : A) bef c rst :
  scan re found unmatched done bef (c :: rst) 0
  = let st := {| before := bef; rest := c :: rst |} in
    match matchAt re st with
    | Some (e, caps) =>
        found (matchArray re st e caps)
          match (pos e - pos st)%nat with
          | O => unmatched c (scan re found unmatched done (c :: bef) rst 0)
          | S skip' => scan re found unmatched done (c :: bef) rst skip'
          end
    | None => unmatched c (scan re found unmatched done (c :: bef) rst 0)
    end.
Proof. reflexivity. Qed.

Lemma collapse_other n s :
  match s with [] => True | c :: _ => isLF c = false end ->
  collapse n s = collapse 0 s.
Proof.
  destruct s as [|c s]; [reflexivity|]. unfold isLF. simpl. intros ->. reflexivity.
Qed.

Lemma collapse_skip run s :
  forallb isLF run = true -> collapse 2 (run ++ s) = collapse 2 s.
Proof.
  induction run as [|c run IH]; simpl; [reflexivity|].
  intros H. apply andb_true_iff in H. destruct H as [Hc Hrun].
  unfold isLF in Hc. rewrite Hc. exact (IH Hrun).
Qed.

Lemma matchAt_paragraph_none bef rst :
  match rst with
  | c :: d :: _ => isLF c && isLF d = false
  | _ => True
  end ->
  matchAt paragraphRe {| before := bef; rest := rst |} = None.
Proof.
  unfold matchAt, isLF. change (source paragraphRe) with (RRep 2 (CChar 10)).
  cbn [rmatch before rest].
  destruct rst as [|c [|d rst]]; intros H; cbn [rep Nat.pred];
    change (ignoreCase paragraphRe) with false; rewrite ?cset_char.
  - reflexivity.
  - destruct (c =? 10); reflexivity.
  - destruct (c =? 10); [|reflexivity].
    simpl in H. rewrite H. reflexivity.
Qed.

Lemma matchAt_paragraph_some bef run rst :
  forallb isLF run = true -> (2 <= length run)%nat ->
  match rst with [] => True | c :: _ => isLF c = false end ->
  matchAt paragraphRe {| before := bef; rest := run ++ rst |}
  = Some ({| before := rev run ++ bef; rest := rst |}, noCaptures).
Proof.
  intros Hrun Hlen Hstop. unfold matchAt.
  change (source paragraphRe) with (RRep 2 (CChar 10)). cbn [rmatch before rest].
  apply rep_greedy; auto.
  - change (ignoreCase paragraphRe) with false.
    rewrite forallb_forall in *. intros x Hx. rewrite cset_char. exact (Hrun x Hx).
  - change (ignoreCase paragraphRe) with false.
    destruct rst as [|c rst]; [exact I|]. rewrite cset_char. exact Hstop.
Qed.

(** The first step of the formatter cuts every run of line feeds down to
    two. *)
Lemma withParagraphs_collapse s : withParagraphs s = collapse 0 s.
Proof.
  unfold withParagraphs, replaceAll.
  enough (Hgen : forall n s, (length s <= n)%nat -> forall bef,
            scan paragraphRe (fun _ out => [10; 10] ++ out)
                 (fun c out => c :: out) [] bef s 0 = collapse 0 s)
    by (apply (Hgen (length s)); lia).
  clear s.
  induction n as [|n IH]; intros s Hle bef.
  - destruct s; [|simpl in Hle; lia]. reflexivity.
  - destruct s as [|c s]; [reflexivity|].
    simpl in Hle.
    destruct (isLF c) eqn:Hc.
    + unfold isLF in Hc. apply N.eqb_eq in Hc. subst c.
      destruct (takeWhile_split isLF s) as (rst & E & Hstop).
      pose proof (forallb_takeWhile isLF s) as Hrun.
      destruct (takeWhile isLF s) as [|d run] eqn:Htw.
      * simpl in E. subst rst.
        rewrite scan_cons. cbv zeta. rewrite matchAt_paragraph_none.
        -- rewrite IH by lia. cbn [collapse]. simpl.
           f_equal. symmetry. apply collapse_other. exact Hstop.
        -- destruct s as [|d s]; [exact I|]. simpl. exact Hstop.
      * subst s.
        assert (Hm := @matchAt_paragraph_some bef (10 :: d :: run) rst
                        Hrun ltac:(simpl; lia) Hstop).
        cbn [app] in Hm. cbn [app]. rewrite scan_cons. cbv zeta. rewrite Hm.
        unfold pos. cbn [before].
        replace (length (rev (10%N :: d :: run) ++ bef) - length bef)%nat
          with (S (length (d :: run)))
          by (rewrite length_app, length_rev; cbn [length]; lia).
        cbv beta iota.
        change (d :: run ++ rst) with ((d :: run) ++ rst).
        rewrite scan_skip by (rewrite length_app; lia).
        rewrite firstn_app, Nat.sub_diag, firstn_all, skipn_app, Nat.sub_diag, skipn_all.
        simpl firstn. simpl skipn. rewrite app_nil_r. cbn [app].
        rewrite IH by (rewrite length_app in Hle; simpl in Hle; lia).
        simpl in Hrun. apply andb_true_iff in Hrun. destruct Hrun as [Hd Hrun].
        unfold isLF in Hd. apply N.eqb_eq in Hd. subst d.
        cbn [collapse]. simpl. f_equal. f_equal.
        rewrite collapse_skip by exact Hrun.
        symmetry. apply collapse_other. exact Hstop.
    + rewrite scan_cons. cbv zeta. rewrite matchAt_paragraph_none.
      * rewrite IH by lia. cbn [collapse]. unfold isLF in Hc. rewrite Hc. reflexivity.
      * destruct s; [exact I|]. rewrite Hc. reflexivity.
Qed.

Lemma collapse_idem : forall s n, collapse n (collapse n s) = collapse n s.
Proof.
  induction s as [|c s IH]; intros n; [reflexivity|].
  cbn [collapse]. destruct (c =? 10) eqn:Hc.
  - destruct (n <? 2)%nat eqn:Hn.
    + cbn [collapse]. rewrite Hc, Hn, IH. reflexivity.
    + apply IH.
  - cbn [collapse]. rewrite Hc, IH. reflexivity.
Qed.

Lemma collapse_length : forall s n, (length (collapse n s) <= length s)%nat.
Proof.
  induction s as [|c s IH]; intros n; [simpl; lia|].
  cbn [collapse]. destruct (c =? 10); [destruct (n <? 2)%nat|]; simpl;
    try (specialize (IH (S n)); lia); try (specialize (IH n); lia);
    specialize (IH 0%nat); lia.
Qed.

(** A prefix of a text without long runs has no long run. *)
Lemma collapse_prefix : forall p q n,
  collapse n (p ++ q) = p ++ q -> collapse n p = p.
Proof.
  induction p as [|c p IH]; intros q n H; [reflexivity|].
  simpl app in H. cbn [collapse] in *.
  destruct (c =? 10) eqn:Hc.
  - destruct (n <? 2)%nat eqn:Hn.
    + injection H as H. f_equal. exact (IH _ _ H).
    + exfalso. pose proof (collapse_length (p ++ q) n) as Hlen.
      rewrite H in Hlen. simpl in Hlen. lia.
  - injection H as H. f_equal. exact (IH _ _ H).
Qed.

End Paragraphs.

Section Plain.
Import JSString RegExp ChatbotController Semantics Spec.
Local Open Scope N_scope.

Lemma collapse_In c : forall s n, In c (collapse n s) -> In c s.
Proof.
  induction s as [|d s IH]; intros n H; [exact H|].
  cbn [collapse] in H.
  destruct (d =? 10); [destruct (n <? 2)%nat|];
    try (destruct H as [H|H]; [left; exact H|right; exact (IH _ H)]).
  right. exact (IH _ H).
Qed.

(** A bullet line has a hyphen. *)
Lemma bullet_needs_hyphen s : ~ In 45 s -> test bulletRe s = false.
Proof.
  intros Hno. unfold test.
  destruct (search bulletRe [] s) as [[[st e] caps]|] eqn:Hs; [exfalso|reflexivity].
  apply search_some_inv in Hs. destruct Hs as (skipped & E & _ & Hat).
  apply matchAt_sound in Hat. rewrite source_bulletRe in Hat.
  inv_matches. cbn [rest before] in *.
  change (ignoreCase bulletRe) with false in *.
  match goal with
  | H : cset_match false (CChar 45) ?c = true |- _ =>
      rewrite cset_char in H; apply N.eqb_eq in H; subst c
  end.
  subst.
  apply Hno. apply in_or_app. right.
  match goal with
  | H : rest _ = _ ++ 45 :: _ |- _ => rewrite H
  end.
  apply in_or_app. right. left. reflexivity.
Qed.

(** A heading line has a number sign. *)
Lemma heading_needs_hash s : ~ In 35 s -> test headingRe s = false.
Proof.
  intros Hno. unfold test.
  destruct (search headingRe [] s) as [[[st e] caps]|] eqn:Hs; [exfalso|reflexivity].
  apply search_some_inv in Hs. destruct Hs as (skipped & E & _ & Hat).
  apply matchAt_sound in Hat. rewrite source_headingRe in Hat.
  inv_matches. cbn [rest before] in *. subst.
  change (ignoreCase headingRe) with false in *.
  match goal with
  | H : rest _ = ?run ++ _, Hrun : forallb _ ?run = true, Hlen : (1 <= length ?run)%nat |- _ =>
      destruct run as [|x run]; [simpl in Hlen; lia|];
      cbn [forallb] in Hrun; apply andb_true_iff in Hrun; destruct Hrun as [Hx _];
      rewrite cset_char in Hx; apply N.eqb_eq in Hx; subst x;
      apply Hno; apply in_or_app; right; rewrite H; left; reflexivity
  end.
Qed.

End Plain.

(* ===================================================================== *)
(** * The completion client and the orchestrator *)
(* ===================================================================== *)

Section CompletionClient.
Import JSString JSValue Spec.
Variable apiKey : option jsstring.
Variable axios_post : MistralService.Request -> outcome jsval.

(** The four tests of "Validate response structure" come to one: a
    payload is refused exactly when its first choice has no message. *)
Lemma invalidStructure_message data :
  MistralService.invalidStructure data
  = negb (truthyVal (firstChoiceMessage data)).
Proof.
  unfold MistralService.invalidStructure, firstChoiceMessage.
  destruct data as [| |b|q|s|items|fields]; cbn [get];
    try (cbn [getFirst get truthyVal negb orb]; rewrite ?orb_true_r; reflexivity).
  cbn [truthyVal negb orb].
  destruct (lookup (str "choices") fields) as [| |b|q|s|items|choices];
    cbn [getFirst get truthyVal negb orb hd];
    try (rewrite ?orb_true_r; reflexivity).
  - (* a string *)
    destruct s as [|c s]; cbn [truthy truthyVal getFirst get negb orb]; reflexivity.
  - (* a list *)
    destruct items as [|first items]; cbn [hd truthyVal negb orb]; [reflexivity|].
    destruct first as [| |b|q|s|items'|choice];
      cbn [get truthyVal negb orb]; rewrite ?orb_true_r; reflexivity.
  - (* an object *)
    destruct (lookup (str "0") choices) as [| |b|q|s|items'|choice];
      cbn [get truthyVal negb orb]; rewrite ?orb_true_r; reflexivity.
Qed.

(** The promise of the service is never rejected. *)
Lemma service_always_fulfils userMessage leadInfo messageHistory :
  exists v, MistralService.generateResponse apiKey axios_post
              userMessage leadInfo messageHistory = Return v.
Proof.
  unfold MistralService.generateResponse, tryCatch.
  destruct (MistralService.requestCompletion _ _ _ _ _); eauto.
Qed.

(** What the service resolves with, case by case. *)
Lemma service_outcome userMessage leadInfo messageHistory :
  MistralService.generateResponse apiKey axios_post
    userMessage leadInfo messageHistory
  = if truthy_opt apiKey then
      match axios_post (MistralService.completionRequest apiKey userMessage
                          leadInfo messageHistory) with
      | Return data =>
          if truthyVal (firstChoiceMessage data)
          then Return (payloadContent data)
          else Return (VStr MistralService.fallbackNotice)
      | Throw _ => Return (VStr MistralService.fallbackNotice)
      end
    else Return (VStr MistralService.fallbackNotice).
Proof.
  unfold MistralService.generateResponse, MistralService.requestCompletion.
  destruct (truthy_opt apiKey); [|reflexivity]. cbn [negb].
  destruct (axios_post _) as [data|e]; [|reflexivity]. cbn [bind].
  rewrite invalidStructure_message.
  destruct (truthyVal (firstChoiceMessage data)); reflexivity.
Qed.

(** Unless a message without text came, the [catch] block answers a
    failed call with the notice. *)
Lemma service_returns_notice userMessage leadInfo messageHistory :
  CompletionFailure apiKey axios_post
    (MistralService.completionRequest apiKey userMessage leadInfo messageHistory) ->
  ~ MessageWithoutText apiKey axios_post
      (MistralService.completionRequest apiKey userMessage leadInfo messageHistory) ->
  MistralService.generateResponse apiKey axios_post
    userMessage leadInfo messageHistory
  = Return (VStr MistralService.fallbackNotice).
Proof.
  intros Hfail Hnone. rewrite service_outcome.
  destruct (truthy_opt apiKey) eqn:Hkey; [|reflexivity].
  destruct Hfail as [Hno | request Hpost | status data request Hpost | data Hpost Hbad].
  - rewrite Hkey in Hno. discriminate Hno.
  - rewrite Hpost. reflexivity.
  - rewrite Hpost. reflexivity.
  - rewrite Hpost.
    destruct (truthyVal (firstChoiceMessage data)) eqn:Hmessage; [|reflexivity].
    contradiction Hnone. split; [exact Hkey|].
    exists data. repeat split; assumption.
Qed.

(** A message without text is relayed: the service resolves with what
    the message holds as content, which is no string. *)
Lemma service_relays_content userMessage leadInfo messageHistory :
  MessageWithoutText apiKey axios_post
    (MistralService.completionRequest apiKey userMessage leadInfo messageHistory) ->
  exists data,
    axios_post (MistralService.completionRequest apiKey userMessage
                  leadInfo messageHistory) = Return data
    /\ MistralService.generateResponse apiKey axios_post
         userMessage leadInfo messageHistory
       = Return (payloadContent data)
    /\ forall text, payloadContent data <> VStr text.
Proof.
  intros (Hkey & data & Hpost & Hmessage & Htext).
  exists data. split; [exact Hpost|]. split.
  - rewrite service_outcome, Hkey, Hpost, Hmessage. reflexivity.
  - intros text E. unfold textContent in Htext. rewrite E in Htext.
    discriminate Htext.
Qed.

(** C1, where the code departs from its documentation: for every failure
    mode of the remote call (missing credential, transport error, non-2xx
    answer, payload without text content) the completion client does not
    fail.  Its promise is never rejected: it is fulfilled with the fixed
    notice or, when the first choice of the payload has a message without
    text content, with what that message holds as content, which is no
    string. *)
Theorem completion_client_swallows_failure userMessage leadInfo messageHistory :
  CompletionFailure apiKey axios_post
    (MistralService.completionRequest apiKey userMessage leadInfo messageHistory) ->
  (forall e, MistralService.generateResponse apiKey axios_post
               userMessage leadInfo messageHistory <> Throw e)
  /\ (~ MessageWithoutText apiKey axios_post
          (MistralService.completionRequest apiKey userMessage leadInfo
             messageHistory) ->
      MistralService.generateResponse apiKey axios_post
        userMessage leadInfo messageHistory
      = Return (VStr MistralService.fallbackNotice))
  /\ (MessageWithoutText apiKey axios_post
        (MistralService.completionRequest apiKey userMessage leadInfo
           messageHistory) ->
      exists data,
        axios_post (MistralService.completionRequest apiKey userMessage
                      leadInfo messageHistory) = Return data
        /\ MistralService.generateResponse apiKey axios_post
             userMessage leadInfo messageHistory
           = Return (payloadContent data)
        /\ forall text, payloadContent data <> VStr text).
Proof.
  intros Hfail. split; [|split].
  - intros e He.
    destruct (service_always_fulfils userMessage leadInfo messageHistory) as [v Hv].
    rewrite Hv in He. discriminate He.
  - exact (service_returns_notice Hfail).
  - apply service_relays_content.
Qed.

End CompletionClient.

(** C1 at three failures: without credential and at a payload without
    choices the promise is fulfilled with the notice; at a payload whose
    message has no content it is fulfilled with [undefined]. *)
Lemma completion_client_swallows_failure_witness :
  MistralService.generateResponse None Spec.unreachable
    (JSString.str "hello") None None
  = JSValue.Return (JSValue.VStr MistralService.fallbackNotice)
  /\ MistralService.generateResponse (Some (JSString.str "key")) Spec.blank
       (JSString.str "hello") None None
     = JSValue.Return (JSValue.VStr MistralService.fallbackNotice)
  /\ MistralService.generateResponse (Some (JSString.str "key")) Spec.silent
       (JSString.str "hello") None None
     = JSValue.Return JSValue.VUndefined.
Proof.
  split; [|split].
  - apply (@completion_client_swallows_failure None Spec.unreachable).
    + apply Spec.MissingCredential. reflexivity.
    + intros [Hkey _]. discriminate Hkey.
  - apply (@completion_client_swallows_failure (Some (JSString.str "key")) Spec.blank).
    + eapply Spec.MalformedPayload; reflexivity.
    + intros (_ & data & Hpost & Hmessage & _).
      injection Hpost as <-. discriminate Hmessage.
  - assert (Hfail : Spec.CompletionFailure (Some (JSString.str "key")) Spec.silent
                      (MistralService.completionRequest (Some (JSString.str "key"))
                         (JSString.str "hello") None None))
      by (eapply Spec.MalformedPayload; reflexivity).
    destruct (proj2 (proj2 (@completion_client_swallows_failure
                              (Some (JSString.str "key")) Spec.silent
                              (JSString.str "hello") None None Hfail)))
      as (data & Hpost & Hresult & _).
    + split; [reflexivity|]. eexists. repeat split; reflexivity.
    + injection Hpost as <-. exact Hresult.
Defined.

Section Orchestrator.
Import JSString JSValue RegExp ChatbotController Spec.
Context {U : UnicodeTables}.

(** The formatter leaves the notice as it is. *)
Lemma format_fallbackNotice :
  formatNotionStyleResponse MistralService.fallbackNotice
  = MistralService.fallbackNotice.
Proof. vm_compute. reflexivity. Qed.


(** So does [processMessage] answer, unless the timer wins the race. *)
Lemma botResponse_on_failure w message lead uiSize :
  deadlineFirst w = false ->
  CompletionFailure (apiKey w) (axios_post w)
    (MistralService.completionRequest (apiKey w) message
       (Some (contextWithUiInfo lead uiSize)) (Some (Lead.messageHistory lead))) ->
  ~ MessageWithoutText (apiKey w) (axios_post w)
      (MistralService.completionRequest (apiKey w) message
         (Some (contextWithUiInfo lead uiSize)) (Some (Lead.messageHistory lead))) ->
  botResponse w message lead uiSize = MistralService.fallbackNotice.
Proof.
  intros Htimer Hfail Hnone. unfold botResponse, generateResponse. rewrite Htimer.
  rewrite (service_returns_notice Hfail Hnone). cbn [bind tryCatch].
  rewrite format_fallbackNotice. reflexivity.
Qed.

(** C2, at the failing input: without credential the orchestrator answers
    the greeting ["hello"] of a new lead with the notice of the service,
    where the template responder gives its generic greeting. *)
Theorem orchestrator_skips_template_on_failure :
  generateResponse None Spec.unreachable (str "hello") (Lead.new 1)
    [{| Lead.sender := str "user"; Lead.message := str "hello" |}] VUndefined
  = Return MistralService.fallbackNotice
  /\ generateTemplateResponse (str "hello") (Lead.new 1)
     = str "Hello! I'm your real estate assistant. May I know your name?"
  /\ MistralService.fallbackNotice
     <> generateTemplateResponse (str "hello") (Lead.new 1).
Proof.
  split; [vm_compute; reflexivity|].
  split; [vm_compute; reflexivity|].
  vm_compute. discriminate.
Qed.

End Orchestrator.



(* ===================================================================== *)
(** * The prompt builder *)
(* ===================================================================== *)

Section PromptBuilder.
Import JSString.




End PromptBuilder.




(* ===================================================================== *)
(** * The greeting pattern *)
(* ===================================================================== *)

Section Literals.
Import JSString RegExp ChatbotController Semantics Spec.
Local Open Scope N_scope.
Variable re : RegExp.

(** A literal consumes the text it is equal to. *)
Lemma rmatch_lit (R : Type) w : forall (k : state -> captures -> option R) bef rst caps,
  rmatch re (RLit w) k {| before := bef; rest := rst |} caps
  = if litMatch (ignoreCase re) w rst
    then k {| before := rev (firstn (length w) rst) ++ bef;
              rest := skipn (length w) rst |} caps
    else None.
Proof.
  induction w as [|a w IH]; intros k bef rst caps.
  - reflexivity.
  - destruct w as [|a' w].
    + destruct rst as [|b rst]; [reflexivity|]. cbn [RLit rmatch rest before litMatch].
      rewrite andb_true_r.
      destruct (cset_match (ignoreCase re) (CChar a) b); reflexivity.
    + cbn [RLit rmatch]. destruct rst as [|b rst]; [reflexivity|].
      cbn [rest before]. cbn [litMatch] in *.
      destruct (cset_match (ignoreCase re) (CChar a) b); [|reflexivity].
      rewrite IH. cbn [andb length firstn skipn rev].
      rewrite <- app_assoc. reflexivity.
Qed.

End Literals.

Section Greeting.
Import JSString RegExp ChatbotController Semantics Spec.
Local Open Scope N_scope.

(** With the [i] flag a lower-case ASCII letter of a pattern matches the
    units whose ASCII lower case it is. *)
Lemma cset_char_icase a b :
  isAsciiLower a = true ->
  cset_match true (CChar a) b = (lowerAscii b =? a).
Proof.
  cbn [cset_match cset_in andb].
  unfold lowerAscii, upperAscii, isAsciiUpper, isAsciiLower. intros Ha.
  apply andb_true_iff in Ha. destruct Ha as [H1 H2].
  apply N.leb_le in H1. apply N.leb_le in H2.
  destruct (N.leb_spec 65 b); destruct (N.leb_spec b 90);
    destruct (N.leb_spec 97 b); destruct (N.leb_spec b 122); cbn [andb];
    repeat match goal with
           | |- context [?x =? ?y] => destruct (N.eqb_spec x y)
           end; cbn [orb]; try reflexivity; lia.
Qed.

Lemma litMatch_lower w : forall s,
  forallb isAsciiLower w = true ->
  litMatch true w s = startsWith w (map lowerAscii s).
Proof.
  induction w as [|a w IH]; intros s Hw; [reflexivity|].
  cbn [forallb] in Hw. apply andb_true_iff in Hw. destruct Hw as [Ha Hw].
  destruct s as [|b s]; [reflexivity|].
  cbn [litMatch map startsWith].
  rewrite cset_char_icase by exact Ha. rewrite IH by exact Hw.
  rewrite (N.eqb_sym a). reflexivity.
Qed.

Lemma matchAt_greeting_later c bef rst :
  matchAt greetingRe {| before := c :: bef; rest := rst |} = None.
Proof. reflexivity. Qed.

Lemma search_greeting_later : forall rst c bef,
  search greetingRe (c :: bef) rst = None.
Proof.
  induction rst as [|d rst IH]; intros c bef; cbn [search];
    rewrite matchAt_greeting_later; [reflexivity|apply IH].
Qed.

(** The greeting pattern matches the messages that start with a greeting
    word, letter case apart. *)
Lemma greeting_match message :
  isSome (match_ greetingRe message) = startsWithGreeting message.
Proof.
  unfold match_, exec. cbn [global greetingRe].
  assert (Hsearch : isSome (search greetingRe [] message)
                    = isSome (matchAt greetingRe {| before := []; rest := message |})).
  { destruct message as [|c rst]; cbn [search];
      destruct (matchAt greetingRe _) as [[e caps]|]; try reflexivity.
    rewrite search_greeting_later. reflexivity. }
  assert (Hsome : forall A B (o : option A) (f : A -> B),
            isSome (match o with Some x => Some (f x) | None => None end) = isSome o).
  { intros A B [x|] f; reflexivity. }
  transitivity (isSome (search greetingRe [] message)).
  { destruct (search greetingRe [] message) as [[[st e] caps]|]; reflexivity. }
  rewrite Hsearch. unfold matchAt, startsWithGreeting, greetingWords.
  change (source greetingRe)
    with (RSeq RBol (RSeq (RGroup 1 (RAlt (RLit (str "hi")) (RAlt (RLit (str "hello"))
             (RAlt (RLit (str "hey")) (RLit (str "greetings")))))) REmpty)).
  cbn [rmatch atBol before].
  rewrite !rmatch_lit. change (ignoreCase greetingRe) with true.
  rewrite !litMatch_lower by reflexivity.
  cbn [existsb].
  destruct (startsWith (str "hi") (map lowerAscii message)); [reflexivity|].
  destruct (startsWith (str "hello") (map lowerAscii message)); [reflexivity|].
  destruct (startsWith (str "hey") (map lowerAscii message)); [reflexivity|].
  destruct (startsWith (str "greetings") (map lowerAscii message)); reflexivity.
Qed.

End Greeting.

(* ===================================================================== *)
(** * The template responder *)
(* ===================================================================== *)

Section TemplateResponder.
Import JSString JSValue RegExp ChatbotController.
Context {U : UnicodeTables}.

(** C4 (as amended): for every message text that does not start with a
    greeting word (hi, hello, hey or greetings, in any letter case), if
    name, propertyType, budget and preferredLocation are all set, the
    template responder returns the full-summary reply. *)
Theorem template_full_summary message leadInfo :
  Spec.startsWithGreeting message = false ->
  Spec.allSet leadInfo ->
  generateTemplateResponse message leadInfo = Spec.fullSummary leadInfo.
Proof.
  intros Hgreet (Hname & Htype & Hbudget & Hloc).
  unfold generateTemplateResponse.
  rewrite greeting_match, Hgreet, Hname, Htype, Hbudget, Hloc. reflexivity.
Qed.

(** With all four attributes set, a message that starts with a greeting
    word is answered by the personalised greeting. *)
Lemma template_greeting message leadInfo :
  Spec.startsWithGreeting message = true ->
  Spec.allSet leadInfo ->
  generateTemplateResponse message leadInfo
  = str "Hello " ++ interp (Lead.name leadInfo)
    ++ str "! How can I help you with your real estate search today?".
Proof.
  intros Hgreet (Hname & _).
  unfold generateTemplateResponse.
  rewrite greeting_match, Hgreet, Hname. reflexivity.
Qed.

End TemplateResponder.

(** The amended C4 at the message ["what now"]. *)
Lemma template_full_summary_witness :
  Spec.startsWithGreeting (JSString.str "what now") = false
  /\ Spec.allSet Spec.alice
  /\ ChatbotController.generateTemplateResponse (U := JSString.asciiTables)
       (JSString.str "what now") Spec.alice
     = Spec.fullSummary Spec.alice.
Proof.
  split; [reflexivity|]. split; [repeat split|].
  apply (@template_full_summary JSString.asciiTables (JSString.str "what now") Spec.alice).
  - reflexivity.
  - repeat split.
Defined.

(** C4 (as stated) fails: all four attributes of [Spec.alice] are set, and
    whatever the Unicode tables, the message ["hi"] gets the personalised
    greeting, not the full summary. *)
Lemma template_greeting_before_summary :
  Spec.allSet Spec.alice
  /\ (forall U : JSString.UnicodeTables,
        ChatbotController.generateTemplateResponse (U := U)
          (JSString.str "hi") Spec.alice
        = JSString.str "Hello Alice! How can I help you with your real estate search today?")
  /\ ~ (exists U : JSString.UnicodeTables,
          ChatbotController.generateTemplateResponse (U := U)
            (JSString.str "hi") Spec.alice
          = Spec.fullSummary Spec.alice).
Proof.
  split; [repeat split|]. split.
  - intros U. vm_compute. reflexivity.
  - intros [U HU]. vm_compute in HU. discriminate HU.
Qed.

(* ===================================================================== *)
(** * The merge of extracted attributes and the property type *)
(* ===================================================================== *)

Section Merge.
Import JSString JSValue RegExp ChatbotController.
Context {U : UnicodeTables}.

Lemma trimmedGroup_trimmed m v : trimmedGroup m = Some v -> trim v = v.
Proof.
  unfold trimmedGroup. destruct m as [arr|]; [|discriminate].
  destruct (truthy_opt (at_ arr 1)); [|discriminate].
  destruct (at_ arr 1) as [g|]; simpl; [|discriminate].
  intros E. injection E as <-. apply trim_idem.
Qed.

Lemma firstPropertyType_In message w :
  firstPropertyType message = Some w -> In w propertyTypes.
Proof. intros H. apply find_some in H. apply H. Qed.

Lemma propertyTypes_trimmed w : In w propertyTypes -> trim w = w.
Proof.
  intros H. repeat (destruct H as [<-|H]; [vm_compute; reflexivity|]).
  destruct H.
Qed.

(** What the extractor returns is already trimmed. *)
Lemma extracted_trimmed message a v :
  Spec.extracted a (extractUserInfo message) = Some v -> trim v = v.
Proof.
  destruct a; simpl; intros H.
  - exact (trimmedGroup_trimmed _ H).
  - exact (trimmedGroup_trimmed _ H).
  - exact (trimmedGroup_trimmed _ H).
  - apply propertyTypes_trimmed. exact (firstPropertyType_In _ H).
Qed.

Lemma stored_push a t lead : Spec.stored a (Lead.push t lead) = Spec.stored a lead.
Proof. destruct a; reflexivity. Qed.

(** The merge, attribute by attribute. *)
Lemma updateLead_stored info lead a :
  (forall v, Spec.extracted a info = Some v -> trim v = v) ->
  Spec.stored a (updateLead info lead)
  = if truthy_opt (Spec.extracted a info) then Spec.extracted a info
    else Spec.stored a lead.
Proof.
  intros Htrim.
  destruct info as [[n|] [b|] [l|] [p|]]; destruct a;
    unfold updateLead; simpl in *;
    repeat match goal with
           | |- context [truthy ?s] => destruct (truthy s) eqn:?
           end;
    simpl; try reflexivity;
    rewrite Htrim; reflexivity.
Qed.

(** C10: in [processMessage], for each of name, budget, preferredLocation
    and propertyType: when the extractor's value is absent or empty the
    saved lead keeps the value it had, when it is non-empty the saved lead
    holds the extracted value, and so a populated attribute is never
    replaced by an empty one. *)
Theorem merge_keeps_or_overwrites w reqBody message lead a :
  get reqBody (str "message") = VStr message ->
  truthy message = true ->
  findOrCreate w (get reqBody (str "userId")) = Return lead ->
  exists saved,
    document (processMessage w reqBody) = Some saved
    /\ (truthy_opt (Spec.extracted a (extractUserInfo message)) = false ->
        Spec.stored a saved = Spec.stored a lead)
    /\ (truthy_opt (Spec.extracted a (extractUserInfo message)) = true ->
        Spec.stored a saved = Spec.extracted a (extractUserInfo message))
    /\ (truthy_opt (Spec.stored a lead) = true ->
        truthy_opt (Spec.stored a saved) = true).
Proof.
  intros Hmsg Htruthy Hlead.
  assert (Hstored : forall t1 t2,
            Spec.stored a (Lead.push t2 (Lead.push t1
                             (updateLead (extractUserInfo message) lead)))
            = if truthy_opt (Spec.extracted a (extractUserInfo message))
              then Spec.extracted a (extractUserInfo message)
              else Spec.stored a lead).
  { intros t1 t2. rewrite !stored_push. apply updateLead_stored.
    intros v. apply extracted_trimmed. }
  unfold processMessage.
  destruct reqBody; try discriminate Hmsg.
  rewrite Hmsg, Hlead. simpl truthyVal. rewrite Htruthy. simpl negb. cbv iota.
  match goal with
  | |- context [save w ?l] => exists l; destruct (save w l)
  end.
  all: split; [reflexivity|]; rewrite Hstored;
    destruct (truthy_opt (Spec.extracted a (extractUserInfo message))) eqn:E;
    repeat split; congruence.
Qed.


End Merge.

(** C10 at the first message ["my name is Alice"] of a conversation. *)
Lemma merge_keeps_or_overwrites_witness :
  exists saved,
    ChatbotController.document
      (ChatbotController.processMessage (U := JSString.asciiTables) Spec.offline
         (Spec.say (JSString.str "my name is Alice"))) = Some saved
    /\ Lead.name saved = Some (JSString.str "Alice").
Proof.
  destruct (@merge_keeps_or_overwrites JSString.asciiTables Spec.offline
              (Spec.say (JSString.str "my name is Alice"))
              (JSString.str "my name is Alice") (Lead.new 7) Spec.Name
              eq_refl eq_refl eq_refl)
    as (saved & Hdoc & _ & Hset & _).
  exists saved. split; [exact Hdoc|]. exact (Hset eq_refl).
Defined.


(* ===================================================================== *)
(** * The name pattern of the extractor *)
(* ===================================================================== *)

Section Name.
Import JSString RegExp ChatbotController Semantics Spec.
Local Open Scope N_scope.

Lemma nameChar_spec c :
  cset_match (ignoreCase nameRe) (CUnion (CRange 97 122) CSpace) c = nameChar c.
Proof. reflexivity. Qed.

(** At an occurrence of the introduction the pattern matches, and its
    group takes ["Alice"] and the letters and white space that follow. *)
Lemma matchAt_alice bef suf rst :
  suf = takeWhile nameChar suf ++ rst ->
  match rst with [] => True | c :: _ => nameChar c = false end ->
  matchAt nameRe {| before := bef; rest := myNameIsAlice ++ suf |}
  = Some ({| before := rev (str "Alice" ++ takeWhile nameChar suf)
                       ++ rev (str "my name is ") ++ bef;
             rest := rst |},
          setCapture 1 (11 + length bef)
            (length (str "Alice" ++ takeWhile nameChar suf) + (11 + length bef))
            noCaptures).
Proof.
  intros E Hstop. unfold matchAt.
  match goal with |- _ = ?r => set (result := r) end.
  cbn -[rep]. rewrite E at 1.
  change (65 :: 108 :: 105 :: 99 :: 101 :: takeWhile nameChar suf ++ rst)
    with ((str "Alice" ++ takeWhile nameChar suf) ++ rst).
  match goal with
  | |- match ?r with _ => _ end = _ => assert (Hrep : r = result)
  end.
  { apply rep_greedy.
    - rewrite forallb_app. apply andb_true_iff. split; [reflexivity|].
      apply (forallb_takeWhile nameChar).
    - destruct rst; [exact I|exact Hstop].
    - rewrite length_app. simpl. lia.
    - subst result. unfold pos. cbn [before].
      rewrite !length_app, length_rev, length_app. reflexivity. }
  rewrite Hrep. reflexivity.
Qed.

Lemma at1_matchArray re st e caps lo hi :
  ngroups (source re) = 1%nat -> caps 1%nat = Some (lo, hi) ->
  at_ (matchArray re st e caps) 1 = Some (slice (input st) lo hi).
Proof.
  intros Hn Hc. unfold matchArray, at_. rewrite Hn. simpl. rewrite Hc.
  reflexivity.
Qed.

Lemma dropWhile_all p a b :
  forallb p a = true -> dropWhile p (a ++ b) = dropWhile p b.
Proof.
  induction a as [|c a IH]; simpl; [reflexivity|].
  intros H. apply andb_true_iff in H. destruct H as [Hc Ha].
  rewrite Hc. exact (IH Ha).
Qed.

Lemma trim_alice ws :
  forallb isSpace ws = true -> trim (str "Alice" ++ ws) = str "Alice".
Proof.
  intros H. unfold trim, trimStart, trimEnd.
  change (dropWhile isSpace (str "Alice" ++ ws)) with (str "Alice" ++ ws).
  rewrite rev_app_distr, dropWhile_all.
  - reflexivity.
  - rewrite forallb_forall in *. intros x Hx. apply H. apply in_rev. exact Hx.
Qed.

Section WithTables.
Context {U : UnicodeTables}.

(** C5 (as amended): when the leftmost match of the name pattern starts
    at an occurrence of ["my name is Alice"], and the letters and white
    space that follow the occurrence are white space only, the extractor
    returns the name ["Alice"]. *)
Theorem name_after_introduction pre suf :
  (forall i, (i < length pre)%nat ->
     matchAt nameRe (stateAt (pre ++ myNameIsAlice ++ suf) i) = None) ->
  forallb isSpace (takeWhile nameChar suf) = true ->
  name (extractUserInfo (pre ++ myNameIsAlice ++ suf)) = Some (str "Alice").
Proof.
  intros Hbefore Hws.
  destruct (takeWhile_split nameChar suf) as (rst & E & Hstop).
  pose proof (@matchAt_alice (rev pre) suf rst E Hstop) as Hat.
  cbn [extractUserInfo name]. unfold match_. cbn [global nameRe]. unfold exec.
  rewrite (@search_first nameRe pre (myNameIsAlice ++ suf) _ _ Hbefore)
    by (rewrite stateAt_app; exact Hat).
  unfold trimmedGroup.
  assert (Hgroup : at_ (matchArray nameRe
                          (stateAt (pre ++ myNameIsAlice ++ suf) (length pre))
                          {| before := rev (str "Alice" ++ takeWhile nameChar suf)
                                       ++ rev (str "my name is ") ++ rev pre;
                             rest := rst |}
                          (setCapture 1 (11 + length (rev pre))
                             (length (str "Alice" ++ takeWhile nameChar suf)
                              + (11 + length (rev pre))) noCaptures)) 1
                   = Some (str "Alice" ++ takeWhile nameChar suf)).
  { rewrite (@at1_matchArray nameRe _ _ _ _ _ eq_refl eq_refl).
    f_equal. rewrite stateAt_app. unfold input. cbn [before rest].
    assert (Hin : myNameIsAlice ++ suf
                  = str "my name is " ++ (str "Alice" ++ takeWhile nameChar suf) ++ rst)
      by (rewrite E at 1; reflexivity).
    rewrite Hin.
    apply (slice_between (rev pre) (str "my name is ")
                         (str "Alice" ++ takeWhile nameChar suf) rst). }
  rewrite Hgroup. cbn [truthy_opt truthy app str map list_ascii_of_string].
  cbn [option_map]. f_equal. apply trim_alice. exact Hws.
Qed.

End WithTables.
End Name.

(** The amended C5 at the message ["Hello, my name is Alice!"]. *)
Lemma name_after_introduction_witness :
  ChatbotController.name
    (ChatbotController.extractUserInfo (U := JSString.asciiTables)
       (JSString.str "Hello, my name is Alice!"))
  = Some (JSString.str "Alice").
Proof.
  apply (@name_after_introduction JSString.asciiTables
           (JSString.str "Hello, ") (JSString.str "!")).
  - intros i Hi.
    do 7 (destruct i as [|i]; [vm_compute; reflexivity|]).
    simpl in Hi. lia.
  - reflexivity.
Defined.

(** C5 (as stated) fails: ["my name is Alice Smith"] contains
    ["my name is Alice"], and the name extracted from it is
    ["Alice Smith"]. *)
Lemma name_takes_following_words :
  JSString.includes Spec.myNameIsAlice (JSString.str "my name is Alice Smith") = true
  /\ (forall U : JSString.UnicodeTables,
        ChatbotController.name
          (ChatbotController.extractUserInfo (U := U)
             (JSString.str "my name is Alice Smith"))
        = Some (JSString.str "Alice Smith"))
  /\ JSString.str "Alice Smith" <> JSString.str "Alice".
Proof.
  split; [vm_compute; reflexivity|].
  split; [intros U; vm_compute; reflexivity|discriminate].
Qed.

(* ===================================================================== *)
(** * The response formatter *)
(* ===================================================================== *)

Section Formatter.
Import JSString RegExp ChatbotController Semantics Spec.
Local Open Scope N_scope.
Context {U : UnicodeTables}.

(** The three rewriting steps keep the number of question marks. *)
Lemma processed_count response :
  noQmarkFromTables ->
  count isQmark (withHeadings (withBullets (withParagraphs response)))
  = count isQmark response.
Proof.
  intros Hup.
  rewrite (withHeadings_count _ Hup), withBullets_count, withParagraphs_count.
  reflexivity.
Qed.

Lemma processed_count_ge response :
  (count isQmark response
   <= count isQmark (withHeadings (withBullets (withParagraphs response))))%nat.
Proof.
  pose proof (withHeadings_count_ge (withBullets (withParagraphs response))) as H.
  rewrite withBullets_count, withParagraphs_count in H. exact H.
Qed.

(** C7: a text with more than one question mark is returned cut right
    after the first question mark of its processed form (paragraphs,
    bullets and headings rewritten), the part after it dropped; a text
    with at most one question mark is returned in its processed form,
    uncut.  The second half takes the Unicode tables to yield no question
    mark when they upper-case text outside ASCII; the first half holds
    whatever the tables give. *)
Theorem formatter_keeps_first_question response :
  ((1 < count isQmark response)%nat ->
   exists pre post,
     withHeadings (withBullets (withParagraphs response)) = pre ++ [qmark] ++ post
     /\ count isQmark pre = 0%nat
     /\ formatNotionStyleResponse response = pre ++ [qmark])
  /\ (noQmarkFromTables ->
      (count isQmark response <= 1)%nat ->
      formatNotionStyleResponse response
      = withHeadings (withBullets (withParagraphs response))).
Proof.
  unfold formatNotionStyleResponse.
  destruct (firstQuestion_spec
              (withHeadings (withBullets (withParagraphs response))))
    as [Hmany Hfew].
  split.
  - intros Hcount. apply Hmany.
    pose proof (processed_count_ge response). lia.
  - intros Hup Hcount. apply Hfew.
    rewrite (processed_count response Hup). exact Hcount.
Qed.

(** Where neither line pattern applies, the formatter only normalises
    paragraphs and keeps the first question, and a second pass changes
    nothing. *)
Lemma format_twice response :
  test bulletRe (withParagraphs response) = false ->
  test headingRe (withParagraphs response) = false ->
  formatNotionStyleResponse (formatNotionStyleResponse response)
  = formatNotionStyleResponse response.
Proof.
  intros Hbullet Hheading.
  assert (Hends_b : endsWithLineTail (source bulletRe)).
  { rewrite source_bulletRe. right. split; [reflexivity|].
    right. split; [reflexivity|]. right. split; [reflexivity|]. left. reflexivity. }
  assert (Hends_h : endsWithLineTail (source headingRe)).
  { rewrite source_headingRe. right. split; [reflexivity|].
    right. split; [reflexivity|]. left. reflexivity. }
  assert (Hfirst : formatNotionStyleResponse response
                   = firstQuestion (withParagraphs response)).
  { unfold formatNotionStyleResponse, withHeadings, withBullets.
    rewrite (@replaceAll_no_match bulletRe _ _ Hbullet).
    rewrite (@replaceAll_no_match headingRe _ _ Hheading). reflexivity. }
  rewrite Hfirst.
  destruct (firstQuestion_prefix (withParagraphs response)) as [post Hpost].
  set (once := firstQuestion (withParagraphs response)) in *.
  assert (Hpar : withParagraphs once = once).
  { rewrite withParagraphs_collapse. apply (collapse_prefix once post).
    rewrite <- Hpost, withParagraphs_collapse. apply collapse_idem. }
  rewrite Hpost in Hbullet, Hheading.
  apply test_prefix in Hbullet; [|reflexivity|reflexivity|exact Hends_b].
  apply test_prefix in Hheading; [|reflexivity|reflexivity|exact Hends_h].
  unfold formatNotionStyleResponse, withHeadings, withBullets.
  rewrite Hpar.
  rewrite (@replaceAll_no_match bulletRe _ _ Hbullet).
  rewrite (@replaceAll_no_match headingRe _ _ Hheading).
  apply firstQuestion_idem.
Qed.


(** In particular the formatter is idempotent on the texts that have
    neither a hyphen nor a number sign. *)
Lemma format_twice_plain response :
  ~ In 45 response -> ~ In 35 response ->
  formatNotionStyleResponse (formatNotionStyleResponse response)
  = formatNotionStyleResponse response.
Proof.
  intros Hhyphen Hhash. apply format_twice.
  - apply bullet_needs_hyphen. intros H. apply Hhyphen.
    rewrite withParagraphs_collapse in H. exact (collapse_In _ _ _ H).
  - apply heading_needs_hash. intros H. apply Hhash.
    rewrite withParagraphs_collapse in H. exact (collapse_In _ _ _ H).
Qed.

End Formatter.

(** Tables that leave text outside ASCII as it is yield no question
    mark. *)
Lemma asciiTables_noQmark : Spec.noQmarkFromTables (U := JSString.asciiTables).
Proof.
  intros r Hr. change (JSString.upperNonAscii r) with r.
  apply count_zero. unfold Spec.nonAscii in Hr.
  rewrite forallb_forall in *. intros x Hx. specialize (Hr x Hx).
  unfold Spec.isQmark, Spec.qmark.
  destruct (N.eqb_spec x 63); [subst x; discriminate Hr|reflexivity].
Qed.

(** C7 at the texts ["Which area? Which budget? Thanks"], which is cut
    after its first question, and ["# plans\nWhich area?"], which is
    returned with its heading in capitals and its one question whole. *)
Lemma formatter_keeps_first_question_witness :
  (exists pre post,
     ChatbotController.withHeadings (U := JSString.asciiTables)
       (ChatbotController.withBullets
          (ChatbotController.withParagraphs
             (JSString.str "Which area? Which budget? Thanks")))
     = pre ++ [Spec.qmark] ++ post
     /\ Spec.count Spec.isQmark pre = 0%nat
     /\ ChatbotController.formatNotionStyleResponse (U := JSString.asciiTables)
          (JSString.str "Which area? Which budget? Thanks")
        = pre ++ [Spec.qmark])
  /\ ChatbotController.formatNotionStyleResponse (U := JSString.asciiTables)
       (JSString.str "# plans" ++ [10%N] ++ JSString.str "Which area?")
     = JSString.str "PLANS" ++ [10%N] ++ JSString.str "Which area?".
Proof.
  split.
  - apply (proj1 (@formatter_keeps_first_question JSString.asciiTables
                    (JSString.str "Which area? Which budget? Thanks"))).
    vm_compute. lia.
  - rewrite (proj2 (@formatter_keeps_first_question JSString.asciiTables
                      (JSString.str "# plans" ++ [10%N] ++ JSString.str "Which area?"))
               asciiTables_noQmark).
    + vm_compute. reflexivity.
    + vm_compute. lia.
Defined.

(** C8 (as stated) fails: whatever the Unicode tables, the heading line
    ["# # a"] is formatted to ["# A"], and ["# A"] to ["A"]. *)
Lemma formatter_not_idempotent :
  ~ (exists U : JSString.UnicodeTables,
       ChatbotController.formatNotionStyleResponse (U := U)
         (ChatbotController.formatNotionStyleResponse (U := U) (JSString.str "# # a"))
       = ChatbotController.formatNotionStyleResponse (U := U) (JSString.str "# # a")).
Proof. intros [U H]. vm_compute in H. discriminate H. Qed.

(** Bullet lines break idempotence too: ["-\n\n- a"] is formatted to
    ["-\n* a"] (with the bullet character for [*]), and that to a line of
    two bullets. *)
Lemma formatter_not_idempotent_on_bullets :
  forall U : JSString.UnicodeTables,
    ChatbotController.formatNotionStyleResponse (U := U)
      (JSString.str "-" ++ [10; 10] ++ JSString.str "- a")%N
    = (JSString.str "-" ++ [10; ChatbotController.bullet] ++ JSString.str " a")%N
    /\ ChatbotController.formatNotionStyleResponse (U := U)
         (JSString.str "-" ++ [10; ChatbotController.bullet] ++ JSString.str " a")%N
       = ([ChatbotController.bullet] ++ JSString.str " "
          ++ [ChatbotController.bullet] ++ JSString.str " a")%N.
Proof. intros U. split; vm_compute; reflexivity. Qed.

(* ===================================================================== *)
(** * The history window of the completion client *)
(* ===================================================================== *)

Section HistoryWindow.
Import JSString JSValue Spec.

(** How one turn is formatted: the sender ['user'] keeps its role, every
    other sender is the assistant. *)
Lemma formatMessageHistory_map history :
  MistralService.formatMessageHistory (Some history)
  = map (fun msg =>
           {| MistralService.role :=
                if jsstring_eqb (Lead.sender msg) (str "user")
                then str "user" else str "assistant";
              MistralService.content := Lead.message msg |})
        (skipn (length history - 10) history).
Proof. destruct history; reflexivity. Qed.

Lemma formatMessageHistory_length history :
  length (MistralService.formatMessageHistory (Some history))
  = Nat.min (length history) 10.
Proof.
  rewrite formatMessageHistory_map, length_map, length_skipn. lia.
Qed.

Lemma jsstring_eqb_eq a b : jsstring_eqb a b = true <-> a = b.
Proof.
  unfold jsstring_eqb. destruct (list_eq_dec N.eq_dec a b); split; auto; discriminate.
Qed.

(** X1: a null or empty history gives no message; of any history the
    client passes on the last turns, ten at most, each as a message with
    the text of the turn and with the role ['user'] when the sender of the
    turn is ['user'] and the role ['assistant'] otherwise. *)
Theorem history_window_bounded :
  MistralService.formatMessageHistory None = []
  /\ MistralService.formatMessageHistory (Some []) = []
  /\ forall history,
       let passed := MistralService.formatMessageHistory (Some history) in
       length passed = Nat.min (length history) 10
       /\ (length passed <= 10)%nat
       /\ forallb chatRole passed = true
       /\ Forall2 formatted (skipn (length history - 10) history) passed.
Proof.
  split; [reflexivity|]. split; [reflexivity|].
  intros history. cbv zeta. split; [|split; [|split]].
  - apply formatMessageHistory_length.
  - rewrite formatMessageHistory_length. lia.
  - rewrite formatMessageHistory_map, forallb_forall.
    intros m Hm. apply in_map_iff in Hm. destruct Hm as (t & <- & _).
    unfold chatRole. cbn [MistralService.role].
    destruct (jsstring_eqb (Lead.sender t) (str "user")); reflexivity.
  - rewrite formatMessageHistory_map.
    induction (skipn (length history - 10) history) as [|turn turns IH];
      cbn [map]; constructor; [|exact IH].
    unfold formatted. cbn [MistralService.role MistralService.content].
    split; [reflexivity|].
    destruct (jsstring_eqb (Lead.sender turn) (str "user")) eqn:Hsender.
    + split; [reflexivity|]. intros Hother. contradiction Hother.
      apply jsstring_eqb_eq. exact Hsender.
    + split; [|reflexivity]. intros Huser.
      apply jsstring_eqb_eq in Huser. rewrite Huser in Hsender. discriminate Hsender.
Qed.

(** X2: the turns passed on are the last ten, in their order and with
    their text: a history of at most ten turns is passed on whole, and of
    a longer one everything before its last ten turns is dropped. *)
Theorem history_window_recent older recent :
  (older = [] /\ (length recent <= 10)%nat) \/ length recent = 10%nat ->
  map MistralService.content
      (MistralService.formatMessageHistory (Some (older ++ recent)))
  = map Lead.message recent
  /\ MistralService.formatMessageHistory (Some (older ++ recent))
     = MistralService.formatMessageHistory (Some recent).
Proof.
  intros Hwindow.
  assert (Hskip : skipn (length (older ++ recent) - 10) (older ++ recent) = recent).
  { destruct Hwindow as [[-> Hshort]|Hten].
    - cbn [app]. replace (length recent - 10)%nat with 0%nat by lia. reflexivity.
    - rewrite length_app, Hten.
      replace (length older + 10 - 10)%nat with (length older + 0)%nat by lia.
      rewrite skipn_app, Nat.add_0_r, skipn_all.
      replace (length older - length older)%nat with 0%nat by lia. reflexivity. }
  assert (Hself : skipn (length recent - 10) recent = recent).
  { replace (length recent - 10)%nat with 0%nat by (destruct Hwindow; lia).
    reflexivity. }
  rewrite !formatMessageHistory_map, Hskip, Hself, map_map.
  split; reflexivity.
Qed.

End HistoryWindow.

(** X2 at a history of twelve turns: the first two are dropped. *)
Lemma history_window_recent_witness :
  map MistralService.content
      (MistralService.formatMessageHistory
         (Some (map Spec.userTurn
                    [JSString.str "a"; JSString.str "b"]
                ++ map Spec.userTurn
                       (map (fun c => [c]) [48; 49; 50; 51; 52; 53; 54; 55; 56; 57]%N))))
  = map (fun c => [c]) [48; 49; 50; 51; 52; 53; 54; 55; 56; 57]%N.
Proof.
  refine (eq_trans (proj1 (@history_window_recent _ _ _)) _).
  - right. reflexivity.
  - reflexivity.
Defined.

(* ===================================================================== *)
(** * The completion request and its answer *)
(* ===================================================================== *)

Section CompletionRequest.
Import JSString JSValue Spec.
Variable apiKey : option jsstring.
Variable axios_post : MistralService.Request -> outcome jsval.

(** A payload with a first choice that has a message is well formed. *)
Lemma answered_valid req content :
  Answered apiKey axios_post req content ->
  exists data,
    axios_post req = Return data
    /\ MistralService.invalidStructure data = false
    /\ get (get (getFirst (get data (str "choices"))) (str "message")) (str "content")
       = content.
Proof.
  intros (_ & fields & choice & others & message & Hpost & Hchoices & Hmessage
          & Htruthy & Hcontent).
  exists (VObj fields). split; [exact Hpost|].
  unfold MistralService.invalidStructure.
  cbn [get truthyVal negb orb]. rewrite Hchoices.
  cbn [getFirst hd get truthyVal negb orb]. rewrite Hmessage, Htruthy.
  split; [reflexivity|exact Hcontent].
Qed.

Lemma service_relays userMessage leadInfo messageHistory content :
  Answered apiKey axios_post
    (MistralService.completionRequest apiKey userMessage leadInfo messageHistory)
    content ->
  MistralService.generateResponse apiKey axios_post
    userMessage leadInfo messageHistory
  = Return content.
Proof.
  intros Hanswered.
  destruct (answered_valid Hanswered) as (data & Hpost & Hvalid & Hcontent).
  destruct Hanswered as (Hkey & _).
  unfold MistralService.generateResponse, MistralService.requestCompletion.
  rewrite Hkey. cbn [negb]. rewrite Hpost. cbn [bind].
  rewrite Hvalid, Hcontent. reflexivity.
Qed.

(** X4: with a credential, when the endpoint answers with a payload whose
    first choice has a message, the client resolves with the [content] of
    that message as it is: a string, or whatever else it holds,
    [undefined] when the key is missing. *)
Theorem service_relays_first_choice userMessage leadInfo messageHistory content :
  Answered apiKey axios_post
    (MistralService.completionRequest apiKey userMessage leadInfo messageHistory)
    content ->
  MistralService.generateResponse apiKey axios_post
    userMessage leadInfo messageHistory
  = Return content.
Proof.
  intros Hanswered.
  destruct (answered_valid Hanswered) as (data & Hpost & Hvalid & Hcontent).
  destruct Hanswered as (Hkey & _).
  unfold MistralService.generateResponse, MistralService.requestCompletion.
  rewrite Hkey. cbn [negb]. rewrite Hpost. cbn [bind].
  rewrite Hvalid, Hcontent. reflexivity.
Qed.

End CompletionRequest.

Lemma answering_answered key content req :
  JSString.truthy key = true ->
  Spec.Answered (Some key) (Spec.answering content) req content.
Proof.
  intros Hkey. split; [exact Hkey|].
  eexists _, _, _, _. split; [reflexivity|].
  split; [reflexivity|]. split; [reflexivity|]. split; reflexivity.
Qed.

(** X4 at an endpoint that answers ["Which area?"]. *)
Lemma service_relays_first_choice_witness :
  MistralService.generateResponse (Some (JSString.str "key"))
    (Spec.answering (JSValue.VStr (JSString.str "Which area?")))
    (JSString.str "hello") None None
  = JSValue.Return (JSValue.VStr (JSString.str "Which area?")).
Proof.
  apply (@service_relays_first_choice (Some (JSString.str "key"))
           (Spec.answering (JSValue.VStr (JSString.str "Which area?")))).
  apply answering_answered. reflexivity.
Defined.

(* ===================================================================== *)
(** * The reply and where it comes from *)
(* ===================================================================== *)

Section Reply.
Import JSString JSValue RegExp ChatbotController Spec.
Context {U : UnicodeTables}.

(** The formatter leaves at most one question mark. *)
Lemma format_count_le response :
  (count isQmark (formatNotionStyleResponse response) <= 1)%nat.
Proof.
  unfold formatNotionStyleResponse.
  set (processed := withHeadings (withBullets (withParagraphs response))).
  destruct (firstQuestion_spec processed) as [Hmany Hfew].
  destruct (Nat.le_gt_cases (count isQmark processed) 1) as [Hle|Hgt].
  - rewrite (Hfew Hle). exact Hle.
  - destruct (Hmany Hgt) as (pre & post & _ & Hpre & ->).
    rewrite count_app, Hpre. cbv. lia.
Qed.

(** X5: whatever the text and whatever the Unicode tables, the formatted
    text holds at most one question mark. *)
Theorem formatter_at_most_one_question response :
  (count isQmark (formatNotionStyleResponse response) <= 1)%nat.
Proof.
  unfold formatNotionStyleResponse.
  set (processed := withHeadings (withBullets (withParagraphs response))).
  destruct (firstQuestion_spec processed) as [Hmany Hfew].
  destruct (Nat.le_gt_cases (count isQmark processed) 1) as [Hle|Hgt].
  - rewrite (Hfew Hle). exact Hle.
  - destruct (Hmany Hgt) as (pre & post & _ & Hpre & ->).
    rewrite count_app, Hpre. cbv. lia.
Qed.

Lemma orchestrator_on_answer
    apiKey axios_post message leadInfo messageHistory uiSize content :
  Answered apiKey axios_post
    (MistralService.completionRequest apiKey message
       (Some (contextWithUiInfo leadInfo uiSize)) (Some messageHistory))
    content ->
  generateResponse apiKey axios_post message leadInfo messageHistory uiSize
  = Return match content with
           | VStr text => formatNotionStyleResponse text
           | _ => generateTemplateResponse message leadInfo
           end.
Proof.
  intros Hanswered. unfold generateResponse.
  rewrite (service_relays Hanswered). cbn [bind].
  destruct content; reflexivity.
Qed.

(** X6: when the endpoint answers, the controller's reply is the content
    of the answer, formatted, if that content is a string; with any other
    content (a missing one included) the formatter throws and the reply is
    the template's. *)
Theorem orchestrator_formats_or_falls_back
    apiKey axios_post message leadInfo messageHistory uiSize content :
  Answered apiKey axios_post
    (MistralService.completionRequest apiKey message
       (Some (contextWithUiInfo leadInfo uiSize)) (Some messageHistory))
    content ->
  generateResponse apiKey axios_post message leadInfo messageHistory uiSize
  = Return match content with
           | VStr text => formatNotionStyleResponse text
           | _ => generateTemplateResponse message leadInfo
           end.
Proof.
  intros Hanswered. unfold generateResponse.
  rewrite (service_relays Hanswered). cbn [bind].
  destruct content; reflexivity.
Qed.

(** X7: the reply the handler records and sends is the template's (after
    the deadline, and when the formatter throws), or else a text the
    completion client resolved with, formatted, which holds at most one
    question mark: a completion is never passed on unformatted. *)
Theorem reply_is_template_or_formatted w message lead uiSize :
  botResponse w message lead uiSize = generateTemplateResponse message lead
  \/ (deadlineFirst w = false
      /\ exists text,
           MistralService.generateResponse (apiKey w) (axios_post w) message
             (Some (contextWithUiInfo lead uiSize)) (Some (Lead.messageHistory lead))
           = Return (VStr text)
           /\ botResponse w message lead uiSize = formatNotionStyleResponse text
           /\ (count isQmark (botResponse w message lead uiSize) <= 1)%nat).
Proof.
  unfold botResponse, generateResponse.
  destruct (deadlineFirst w); [left; reflexivity|].
  destruct (MistralService.generateResponse (apiKey w) (axios_post w) message
              (Some (contextWithUiInfo lead uiSize))
              (Some (Lead.messageHistory lead))) as [v|e] eqn:Hservice;
    cbn [bind tryCatch]; [|left; reflexivity].
  destruct v; cbn [tryCatch]; try (left; reflexivity).
  right. split; [reflexivity|]. eexists. split; [reflexivity|].
  split; [reflexivity|apply format_count_le].
Qed.

End Reply.

(** X6 at an endpoint that answers with no content: the reply to ["hi"]
    is the template's greeting. *)
Lemma orchestrator_formats_or_falls_back_witness :
  ChatbotController.generateResponse (U := JSString.asciiTables)
    (Some (JSString.str "key")) (Spec.answering JSValue.VNull)
    (JSString.str "hi") (Lead.new 1) [] JSValue.VUndefined
  = JSValue.Return
      (JSString.str "Hello! I'm your real estate assistant. May I know your name?").
Proof.
  refine (eq_trans
            (@orchestrator_formats_or_falls_back JSString.asciiTables
               (Some (JSString.str "key")) (Spec.answering JSValue.VNull)
               (JSString.str "hi") (Lead.new 1) [] JSValue.VUndefined
               JSValue.VNull _) _).
  - apply answering_answered. reflexivity.
  - vm_compute. reflexivity.
Defined.

(* ===================================================================== *)
(** * The two handlers *)
(* ===================================================================== *)

Section Handlers.
Import JSString JSValue RegExp ChatbotController Spec.
Context {U : UnicodeTables}.

Lemma updateLead_frame info lead :
  Lead._id (updateLead info lead) = Lead._id lead
  /\ Lead.phone (updateLead info lead) = Lead.phone lead
  /\ Lead.messageHistory (updateLead info lead) = Lead.messageHistory lead.
Proof.
  unfold updateLead.
  destruct (name info) as [n|]; [destruct (truthy n)|];
    (destruct (budget info) as [b|]; [destruct (truthy b)|]);
    (destruct (preferredLocation info) as [l|]; [destruct (truthy l)|]);
    (destruct (propertyType info) as [t|]; [destruct (truthy t)|]);
    repeat split.
Qed.

(** The handler on a message it accepts, for the lead it found or made. *)
Lemma processMessage_accepted w reqBody message lead :
  get reqBody (str "message") = VStr message ->
  truthy message = true ->
  findOrCreate w (get reqBody (str "userId")) = Return lead ->
  let heard := Lead.push (userTurn message)
                 (updateLead (extractUserInfo message) lead) in
  let response := botResponse w message heard (get reqBody (str "uiSize")) in
  let saved := Lead.push (botTurn response) heard in
  processMessage w reqBody
  = {| sent := {| status := 200;
                  body := Success response (Lead._id lead)
                            match save w saved with
                            | Return _ => None
                            | Throw _ =>
                                Some (str "Your conversation history may not be saved")
                            end |};
       document := Some saved |}.
Proof.
  intros Hmessage Htruthy Hlead. cbv zeta.
  destruct (updateLead_frame (extractUserInfo message) lead) as (Hid & _ & _).
  unfold processMessage.
  destruct reqBody; try discriminate Hmessage.
  rewrite Hmessage. cbn [truthyVal negb]. rewrite Htruthy. cbn [negb].
  rewrite Hlead.
  fold (userTurn message).
  set (heard := Lead.push (userTurn message)
                  (updateLead (extractUserInfo message) lead)).
  set (response := botResponse w message heard (get (VObj fields) (str "uiSize"))).
  fold (botTurn response).
  set (saved := Lead.push (botTurn response) heard).
  assert (Hsaved : Lead._id saved = Lead._id lead) by exact Hid.
  rewrite Hsaved.
  destruct (save w saved); reflexivity.
Qed.

(** X8: a message the handler accepts is answered with status 200 and
    the identifier of the lead, and the document it saves is that lead
    with two turns added at the end of its history: the user's message,
    then the reply that was sent.  Identifier and telephone number are
    kept. *)
Theorem message_appends_two_turns w reqBody message lead :
  get reqBody (str "message") = VStr message ->
  truthy message = true ->
  findOrCreate w (get reqBody (str "userId")) = Return lead ->
  exists response saved,
    reply (sent (processMessage w reqBody)) = (200%Z, Some (response, Lead._id lead))
    /\ document (processMessage w reqBody) = Some saved
    /\ Lead.messageHistory saved
       = Lead.messageHistory lead ++ [userTurn message; botTurn response]
    /\ Lead._id saved = Lead._id lead
    /\ Lead.phone saved = Lead.phone lead.
Proof.
  intros Hmessage Htruthy Hlead.
  rewrite (processMessage_accepted w reqBody Hmessage Htruthy Hlead).
  destruct (updateLead_frame (extractUserInfo message) lead) as (Hid & Hphone & Hhistory).
  eexists _, _. split; [reflexivity|]. split; [reflexivity|].
  cbn [Lead.push Lead.messageHistory Lead._id Lead.phone].
  rewrite Hhistory, Hid, Hphone, <- app_assoc. repeat split.
Qed.

(** X9: without an identifier in the request, or with one the store does
    not know, the handler starts a new lead: the reply carries the new
    identifier, not the one that was sent, and the saved history holds the
    two turns of this exchange only. *)
Theorem unknown_user_starts_afresh w reqBody message :
  get reqBody (str "message") = VStr message ->
  truthy message = true ->
  truthyVal (get reqBody (str "userId")) = false
  \/ findById w (get reqBody (str "userId")) = Return None ->
  exists response saved,
    reply (sent (processMessage w reqBody)) = (200%Z, Some (response, freshId w))
    /\ document (processMessage w reqBody) = Some saved
    /\ Lead._id saved = freshId w
    /\ Lead.messageHistory saved = [userTurn message; botTurn response].
Proof.
  intros Hmessage Htruthy Hunknown.
  assert (Hlead : findOrCreate w (get reqBody (str "userId"))
                  = Return (Lead.new (freshId w))).
  { unfold findOrCreate.
    destruct (truthyVal (get reqBody (str "userId"))); [|reflexivity].
    destruct Hunknown as [Hfalsy|Hnone]; [discriminate Hfalsy|].
    rewrite Hnone. reflexivity. }
  rewrite (processMessage_accepted w reqBody Hmessage Htruthy Hlead).
  destruct (updateLead_frame (extractUserInfo message) (Lead.new (freshId w)))
    as (Hid & _ & Hhistory).
  eexists _, _. split; [reflexivity|]. split; [reflexivity|].
  cbn [Lead.push Lead.messageHistory Lead._id].
  rewrite Hhistory, Hid. split; reflexivity.
Qed.

(** X10: the status of the handler's response is 200, 400, 500 or 503.
    It is 400 exactly when the request has a body without a message (no
    such key, or a falsy value such as the empty string), and 503 exactly
    when the message is a non-empty string, the request names a lead and
    the store fails to look it up.  A document is saved exactly when the
    status is 200. *)
Theorem status_cases w reqBody :
  let r := processMessage w reqBody in
  In (status (sent r)) [200; 400; 500; 503]%Z
  /\ (status (sent r) = 400%Z
      <-> reqBody <> VUndefined /\ reqBody <> VNull
          /\ truthyVal (get reqBody (str "message")) = false)
  /\ (status (sent r) = 503%Z
      <-> exists message e,
            get reqBody (str "message") = VStr message
            /\ truthy message = true
            /\ truthyVal (get reqBody (str "userId")) = true
            /\ findById w (get reqBody (str "userId")) = Throw e)
  /\ (status (sent r) = 200%Z <-> document r <> None).
Proof.
  cbv zeta.
  assert (Hnull : forall b, b = VUndefined \/ b = VNull ->
            processMessage w b
            = {| sent := {| status := 500;
                            body := Failure (str "Server error")
                              (Some (str "An unexpected error occurred. Please try again later.")) |};
                 document := None |}).
  { intros b [->| ->]; reflexivity. }
  assert (Hget : forall b, b = VUndefined \/ b = VNull ->
                 get b (str "message") = VUndefined).
  { intros b [->| ->]; reflexivity. }
  destruct (truthyVal (get reqBody (str "message"))) eqn:Htruthy.
  - (* a truthy message *)
    assert (Hbody : reqBody <> VUndefined /\ reqBody <> VNull).
    { split; intros ->; discriminate Htruthy. }
    destruct (get reqBody (str "message")) as [| |b|q|message|items|fields] eqn:Hmessage;
      try discriminate Htruthy.
    3: {
      (* a non-empty string *)
      cbn [truthyVal] in Htruthy.
      destruct (findOrCreate w (get reqBody (str "userId"))) as [lead|e] eqn:Hlead.
      - rewrite (processMessage_accepted w reqBody Hmessage Htruthy Hlead).
        cbn [sent status document].
        split; [left; reflexivity|]. split; [split; [discriminate|intros (_ & _ & H); discriminate H]|].
        split; [|split; [discriminate|reflexivity]].
        split; [discriminate|]. intros (m & e & _ & _ & Hid & Hthrow).
        unfold findOrCreate in Hlead. rewrite Hid, Hthrow in Hlead. discriminate Hlead.
      - assert (Hpm : processMessage w reqBody
                      = {| sent := {| status := 503;
                                      body := Failure (str "Database connection error")
                                        (Some (str "Unable to connect to database. Please try again later.")) |};
                           document := None |}).
        { unfold processMessage. destruct reqBody; try discriminate Hmessage.
          rewrite Hmessage. cbn [truthyVal negb]. rewrite Htruthy. cbn [negb].
          rewrite Hlead. reflexivity. }
        rewrite Hpm. cbn [sent status document].
        split; [right; right; right; left; reflexivity|].
        split; [split; [discriminate|intros (_ & _ & H); discriminate H]|].
        split; [|split; [discriminate|intros H; contradiction H; reflexivity]].
        split; [|reflexivity]. intros _.
        unfold findOrCreate in Hlead.
        destruct (truthyVal (get reqBody (str "userId"))) eqn:Hid; [|discriminate Hlead].
        destruct (findById w (get reqBody (str "userId"))) as [[found|]|e'] eqn:Hfind;
          try discriminate Hlead.
        exists message, e'. repeat split; assumption. }
    all: assert (Hpm : processMessage w reqBody
                      = {| sent := {| status := 500;
                                      body := Failure (str "Server error")
                                        (Some (str "An unexpected error occurred. Please try again later.")) |};
                           document := None |})
        by (unfold processMessage; destruct reqBody; try discriminate Hmessage;
            first [rewrite Hmessage, Htruthy|rewrite Hmessage]; reflexivity);
      rewrite Hpm; cbn [sent status document];
      (split; [right; right; left; reflexivity|]);
      (split; [split; [discriminate|intros (_ & _ & H); discriminate H]|]);
      (split; [split; [discriminate|intros (m & e & H & _); discriminate H]|]);
      (split; [discriminate|intros H; contradiction H; reflexivity]).
  - (* no message *)
    destruct reqBody as [| |b|q|s|items|fields] eqn:Hbody.
    1-2: cbn [processMessage sent status document];
      (split; [right; right; left; reflexivity|]);
      (split; [split; [discriminate|intros (H1 & H2 & _); congruence]|]);
      (split; [split; [discriminate|intros (m & e & H & _); discriminate H]|]);
      (split; [discriminate|intros H; contradiction H; reflexivity]).
    all: assert (Hpm : processMessage w reqBody
                      = {| sent := {| status := 400;
                                      body := Failure (str "Message is required") None |};
                           document := None |})
        by (subst reqBody; unfold processMessage; rewrite Htruthy; reflexivity);
      rewrite <- Hbody, Hpm; cbn [sent status document];
      (split; [right; left; reflexivity|]);
      (split; [split; [intros _; subst reqBody; repeat split; try discriminate; exact Htruthy
                      |reflexivity]|]);
      (split; [split; [discriminate
                      |intros (m & e & H & Ht & _); subst reqBody;
                       rewrite H in Htruthy; cbn [truthyVal] in Htruthy; congruence]|]);
      (split; [discriminate|intros H; contradiction H; reflexivity]).
Qed.

(** X11: a failure of [lead.save()] changes nothing but the warning:
    status, reply, identifier and the document handed to the store are
    the same with any other store, and the response carries the warning
    exactly when the save failed. *)
Theorem save_failure_only_warns w save' reqBody :
  reply (sent (processMessage (withSave save' w) reqBody))
  = reply (sent (processMessage w reqBody))
  /\ document (processMessage (withSave save' w) reqBody)
     = document (processMessage w reqBody)
  /\ forall saved,
       document (processMessage w reqBody) = Some saved ->
       (warning (sent (processMessage w reqBody))
        = Some (str "Your conversation history may not be saved")
        <-> exists e, save w saved = Throw e)
       /\ (warning (sent (processMessage w reqBody)) = None
           <-> exists u, save w saved = Return u).
Proof.
  unfold processMessage.
  destruct reqBody as [| |b|q|s|items|fields];
    try (split; [reflexivity|split; [reflexivity|intros saved H; discriminate H]]).
  all: match goal with
       | |- context [get ?body (str "message")] =>
           destruct (get body (str "message")) as [| |b'|q'|message|items'|fields'];
             cbn [truthyVal negb];
             try (split; [reflexivity|split; [reflexivity|intros saved H; discriminate H]])
       end.
  all: try match goal with
       | |- context [negb ?c] =>
           destruct c; cbn [negb];
             try (split; [reflexivity|split; [reflexivity|intros saved H; discriminate H]])
       end.
  all: change (findOrCreate (withSave save' w)) with (findOrCreate w);
    match goal with
    | |- context [findOrCreate ?w0 ?id] =>
        destruct (findOrCreate w0 id) as [lead|e];
          try (split; [reflexivity|split; [reflexivity|intros saved H; discriminate H]])
    end.
  all: change (botResponse (withSave save' w)) with (botResponse w);
    cbn [save withSave];
    match goal with
    | |- context [save ?w0 ?doc] =>
        set (saved0 := doc); destruct (save w0 saved0) as [u|e] eqn:Hsave;
          destruct (save' saved0);
          (split; [reflexivity|split; [reflexivity|]]);
          intros saved Hdoc; cbn [document] in Hdoc; injection Hdoc as <-;
          cbn [sent warning body]; rewrite Hsave;
          (split; split;
           first [ discriminate
                 | intros _; eexists; reflexivity
                 | intros [x Hx]; discriminate Hx
                 | intros _; reflexivity ])
    end.
Qed.

(** The history handler, case by case. *)
Lemma getChatHistory_found w params lead :
  truthyVal (get params (str "userId")) = true ->
  findById w (get params (str "userId")) = Return (Some lead) ->
  getChatHistory w params
  = {| historyStatus := 200;
       historyBody := HistorySuccess (Lead.messageHistory lead) |}.
Proof.
  intros Hid Hfind. unfold getChatHistory.
  destruct params; try discriminate Hid; rewrite Hid, Hfind; reflexivity.
Qed.

(** X12: what the message handler saves is what the history handler
    returns: once the store holds the saved document under an identifier,
    the history of that identifier is the lead's earlier history followed
    by the user's message and the reply that was sent. *)
Theorem history_round_trip w w' reqBody message lead saved params :
  get reqBody (str "message") = VStr message ->
  truthy message = true ->
  findOrCreate w (get reqBody (str "userId")) = Return lead ->
  document (processMessage w reqBody) = Some saved ->
  truthyVal (get params (str "userId")) = true ->
  findById w' (get params (str "userId")) = Return (Some saved) ->
  exists response,
    reply (sent (processMessage w reqBody)) = (200%Z, Some (response, Lead._id lead))
    /\ getChatHistory w' params
       = {| historyStatus := 200;
            historyBody :=
              HistorySuccess (Lead.messageHistory lead
                              ++ [userTurn message; botTurn response]) |}.
Proof.
  intros Hmessage Htruthy Hlead Hdoc Hid Hfind.
  rewrite (getChatHistory_found w' params Hid Hfind).
  rewrite (processMessage_accepted w reqBody Hmessage Htruthy Hlead) in Hdoc |- *.
  cbn [document] in Hdoc. injection Hdoc as <-.
  destruct (updateLead_frame (extractUserInfo message) lead) as (_ & _ & Hhistory).
  eexists. split; [reflexivity|].
  cbn [Lead.push Lead.messageHistory]. rewrite Hhistory, <- app_assoc. reflexivity.
Qed.

(** X13: the history handler answers 200, 400, 404 or 500; it answers
    200 exactly when the request names a lead the store holds, and then
    with the history of that lead, and 404 exactly when the store holds no
    lead of that name. *)
Theorem history_status_cases w params :
  let r := getChatHistory w params in
  In (historyStatus r) [200; 400; 404; 500]%Z
  /\ (historyStatus r = 200%Z
      <-> exists lead,
            truthyVal (get params (str "userId")) = true
            /\ findById w (get params (str "userId")) = Return (Some lead)
            /\ historyBody r = HistorySuccess (Lead.messageHistory lead))
  /\ (historyStatus r = 404%Z
      <-> truthyVal (get params (str "userId")) = true
          /\ findById w (get params (str "userId")) = Return None).
Proof.
  cbv zeta. unfold getChatHistory.
  destruct params as [| |b|q|s|items|fields].
  1-2: cbn [historyStatus get truthyVal];
    (split; [right; right; right; left; reflexivity|]);
    (split; [split; [discriminate|intros (l & H & _); discriminate H]
            |split; [discriminate|intros (H & _); discriminate H]]).
  all: match goal with
       | |- context [get ?p (str "userId")] =>
           destruct (truthyVal (get p (str "userId"))) eqn:Hid; cbn [negb];
             [destruct (findById w (get p (str "userId"))) as [[lead|]|e] eqn:Hfind|]
       end; cbn [historyStatus historyBody].
  all: first
    [ (* found *)
      split; [left; reflexivity|];
      split; [split; [intros _; eexists; repeat split; reflexivity|reflexivity]
             |split; [discriminate|intros (_ & H); discriminate H]]
    | (* not found *)
      split; [right; right; left; reflexivity|];
      split; [split; [discriminate|intros (l & _ & H & _); discriminate H]
             |split; [intros _; split; reflexivity|reflexivity]]
    | (* store error *)
      split; [right; right; right; left; reflexivity|];
      split; [split; [discriminate|intros (l & _ & H & _); discriminate H]
             |split; [discriminate|intros (_ & H); discriminate H]]
    | (* no identifier *)
      split; [right; left; reflexivity|];
      split; [split; [discriminate|intros (l & H & _); discriminate H]
             |split; [discriminate|intros (H & _); discriminate H]] ].
Qed.

End Handlers.

(** X8 at the lead Alice, who writes ["a villa"]. *)
Lemma message_appends_two_turns_witness :
  exists response saved,
    Spec.reply
      (ChatbotController.sent
         (ChatbotController.processMessage (U := JSString.asciiTables)
            (Spec.serving Spec.alice)
            (Spec.sayAs (JSString.str "1") (JSString.str "a villa"))))
    = (200%Z, Some (response, 1%N))
    /\ ChatbotController.document
         (ChatbotController.processMessage (U := JSString.asciiTables)
            (Spec.serving Spec.alice)
            (Spec.sayAs (JSString.str "1") (JSString.str "a villa")))
       = Some saved
    /\ Lead.messageHistory saved
       = [] ++ [Spec.userTurn (JSString.str "a villa"); Spec.botTurn response]
    /\ Lead._id saved = 1%N
    /\ Lead.phone saved = None.
Proof.
  apply (@message_appends_two_turns JSString.asciiTables
           (Spec.serving Spec.alice)
           (Spec.sayAs (JSString.str "1") (JSString.str "a villa"))
           (JSString.str "a villa") Spec.alice); reflexivity.
Defined.

(** X9 at a first ["hello"], sent without identifier. *)
Lemma unknown_user_starts_afresh_witness :
  exists response saved,
    Spec.reply
      (ChatbotController.sent
         (ChatbotController.processMessage (U := JSString.asciiTables)
            Spec.offline (Spec.say (JSString.str "hello"))))
    = (200%Z, Some (response, 7%N))
    /\ ChatbotController.document
         (ChatbotController.processMessage (U := JSString.asciiTables)
            Spec.offline (Spec.say (JSString.str "hello")))
       = Some saved
    /\ Lead._id saved = 7%N
    /\ Lead.messageHistory saved
       = [Spec.userTurn (JSString.str "hello"); Spec.botTurn response].
Proof.
  apply (@unknown_user_starts_afresh JSString.asciiTables Spec.offline
           (Spec.say (JSString.str "hello")) (JSString.str "hello"));
    [reflexivity|reflexivity|left; reflexivity].
Defined.

(** X12 at a first ["hello"], then the history of the lead it made. *)
Lemma history_round_trip_witness :
  exists response saved,
    ChatbotController.document
      (ChatbotController.processMessage (U := JSString.asciiTables)
         Spec.offline (Spec.say (JSString.str "hello")))
    = Some saved
    /\ ChatbotController.getChatHistory (Spec.serving saved)
         (Spec.historyOf (JSString.str "7"))
       = {| ChatbotController.historyStatus := 200;
            ChatbotController.historyBody :=
              ChatbotController.HistorySuccess
                ([] ++ [Spec.userTurn (JSString.str "hello");
                        Spec.botTurn response]) |}.
Proof.
  destruct (ChatbotController.document
              (ChatbotController.processMessage (U := JSString.asciiTables)
                 Spec.offline (Spec.say (JSString.str "hello"))))
    as [saved|] eqn:Hdoc; [|exfalso; vm_compute in Hdoc; discriminate Hdoc].
  destruct (@history_round_trip JSString.asciiTables Spec.offline
              (Spec.serving saved) (Spec.say (JSString.str "hello"))
              (JSString.str "hello") (Lead.new 7) saved
              (Spec.historyOf (JSString.str "7")))
    as (response & _ & Hhistory); try reflexivity; [exact Hdoc|].
  exists response, saved. split; [reflexivity|exact Hhistory].
Defined.

(* ===================================================================== *)
(** * The steps of the formatter *)
(* ===================================================================== *)

Section FormatterSteps.
Import JSString RegExp ChatbotController Semantics Spec.
Local Open Scope N_scope.

(** ** Paragraphs *)

Lemma collapse_filter (p : N -> bool) :
  (forall c, isLF c = true -> p c = false) ->
  forall s n, filter p (collapse n s) = filter p s.
Proof.
  intros Hp. induction s as [|c s IH]; intros n; [reflexivity|].
  cbn [collapse filter]. fold (isLF c).
  destruct (isLF c) eqn:Hc.
  - rewrite (Hp c Hc). destruct (n <? 2)%nat.
    + cbn [filter]. rewrite (Hp c Hc). apply IH.
    + apply IH.
  - cbn [filter]. rewrite IH. reflexivity.
Qed.

Lemma startsWith_LF_cons k c s :
  startsWith (repeat 10 (S k)) (c :: s) = isLF c && startsWith (repeat 10 k) s.
Proof.
  cbn [repeat startsWith]. unfold isLF. rewrite (N.eqb_sym 10 c). reflexivity.
Qed.

Lemma includes_cons w c s :
  includes w (c :: s) = startsWith w (c :: s) || includes w s.
Proof. reflexivity. Qed.

Lemma includes_nil w : includes w [] = startsWith w [].
Proof. cbn [includes]. apply orb_false_r. Qed.

(** No run of three line feeds is left, and after [n] line feeds the
    text does not go on with [3 - n] more. *)
Lemma collapse_no_three : forall s n, (n <= 2)%nat ->
  includes threeLF (collapse n s) = false
  /\ startsWith (repeat 10 (3 - n)) (collapse n s) = false.
Proof.
  change threeLF with (repeat 10 3).
  induction s as [|c s IH]; intros n Hn.
  - cbn [collapse]. rewrite includes_nil.
    destruct n as [|[|[|n]]]; try lia; split; reflexivity.
  - cbn [collapse]. fold (isLF c). destruct (isLF c) eqn:Hc.
    + destruct n as [|[|[|n]]]; try lia; cbn [Nat.ltb Nat.leb Nat.sub].
      * destruct (IH 1%nat ltac:(lia)) as [Hin Hst]. cbn [Nat.sub] in Hst.
        rewrite includes_cons, !startsWith_LF_cons, Hc, Hin, Hst. split; reflexivity.
      * destruct (IH 2%nat ltac:(lia)) as [Hin Hst]. cbn [Nat.sub] in Hst.
        rewrite includes_cons, !startsWith_LF_cons, Hc, Hin.
        assert (Htwo : startsWith (repeat 10 2) (collapse 2 s) = false).
        { destruct (collapse 2 s) as [|d t]; [reflexivity|].
          rewrite startsWith_LF_cons in Hst |- *.
          cbn [repeat startsWith] in Hst. rewrite andb_true_r in Hst.
          rewrite Hst. reflexivity. }
        rewrite Htwo, Hst. split; reflexivity.
      * exact (IH 2%nat ltac:(lia)).
    + destruct (IH 0%nat ltac:(lia)) as [Hin _].
      rewrite includes_cons, Hin.
      destruct n as [|[|[|n]]]; try lia; cbn [Nat.sub];
        rewrite !startsWith_LF_cons, Hc; split; reflexivity.
Qed.

(** A text without three line feeds in a row is kept as it is. *)
Lemma collapse_id : forall s n, (n <= 2)%nat ->
  startsWith (repeat 10 (3 - n)) s = false ->
  includes threeLF s = false ->
  collapse n s = s.
Proof.
  change threeLF with (repeat 10 3).
  induction s as [|c s IH]; intros n Hn Hst Hin; [reflexivity|].
  rewrite includes_cons in Hin. apply orb_false_iff in Hin. destruct Hin as [Hhere Hin].
  cbn [collapse]. fold (isLF c). destruct (isLF c) eqn:Hc.
  - destruct n as [|[|[|n]]]; try lia; cbn [Nat.ltb Nat.leb Nat.sub] in *.
    + f_equal. apply IH; [lia| |exact Hin].
      rewrite startsWith_LF_cons, Hc in Hst. exact Hst.
    + f_equal. apply IH; [lia| |exact Hin].
      rewrite startsWith_LF_cons, Hc in Hst. exact Hst.
    + rewrite startsWith_LF_cons, Hc in Hst. discriminate Hst.
  - f_equal. apply IH; [lia| |exact Hin].
    destruct s as [|d t]; [reflexivity|].
    rewrite includes_cons in Hin. apply orb_false_iff in Hin. apply Hin.
Qed.

(** X14: the paragraph step leaves no three line feeds in a row, changes
    nothing but line feeds, and keeps a text that has no three line feeds
    in a row as it is. *)
Theorem paragraphs_normalised s :
  includes threeLF (withParagraphs s) = false
  /\ filter (fun c => negb (isLF c)) (withParagraphs s)
     = filter (fun c => negb (isLF c)) s
  /\ (includes threeLF s = false -> withParagraphs s = s).
Proof.
  rewrite withParagraphs_collapse. split; [|split].
  - apply (@collapse_no_three s 0%nat). lia.
  - apply collapse_filter. intros c ->. reflexivity.
  - intros Hin. apply collapse_id; [lia| |exact Hin].
    destruct s as [|c t]; [reflexivity|].
    rewrite includes_cons in Hin. apply orb_false_iff in Hin. apply Hin.
Qed.

(** ** Texts the formatter keeps *)

Section Kept.
Context {U : UnicodeTables}.

(** X15: a text without hyphen, without number sign, without three line
    feeds in a row and with at most one question mark is returned as it
    is. *)
Theorem formatter_keeps_plain_text response :
  ~ In hyphen response -> ~ In numberSign response ->
  includes threeLF response = false ->
  (count isQmark response <= 1)%nat ->
  formatNotionStyleResponse response = response.
Proof.
  intros Hhyphen Hhash Hthree Hcount. unfold formatNotionStyleResponse.
  assert (Hpar : withParagraphs response = response).
  { rewrite withParagraphs_collapse. apply collapse_id; [lia| |exact Hthree].
    destruct response as [|c t]; [reflexivity|].
    rewrite includes_cons in Hthree. apply orb_false_iff in Hthree. apply Hthree. }
  rewrite Hpar. unfold withHeadings, withBullets.
  rewrite (@replaceAll_no_match bulletRe _ _ (bullet_needs_hyphen _ Hhyphen)).
  rewrite (@replaceAll_no_match headingRe _ _ (heading_needs_hash _ Hhash)).
  apply (proj2 (firstQuestion_spec response)). exact Hcount.
Qed.

End Kept.

End FormatterSteps.

(** X15 at the text ["We have two villas. Which area?"]. *)
Lemma formatter_keeps_plain_text_witness :
  ChatbotController.formatNotionStyleResponse (U := JSString.asciiTables)
    (JSString.str "We have two villas. Which area?")
  = JSString.str "We have two villas. Which area?".
Proof.
  apply (@formatter_keeps_plain_text JSString.asciiTables
           (JSString.str "We have two villas. Which area?")).
  - intros H. vm_compute in H. repeat (destruct H as [H|H]; [discriminate H|]). exact H.
  - intros H. vm_compute in H. repeat (destruct H as [H|H]; [discriminate H|]). exact H.
  - vm_compute. reflexivity.
  - vm_compute. lia.
Defined.

(* ===================================================================== *)
(** * Idempotence of the formatter *)
(* ===================================================================== *)

Section Idempotence.
Import JSString RegExp ChatbotController Semantics Spec.
Local Open Scope N_scope.
Context {U : UnicodeTables}.

(** The texts the formatter keeps: those that have no three line feeds
    in a row, no bullet line, no heading line, and at most one question
    mark. *)
Lemma format_normalised text :
  includes threeLF text = false ->
  test bulletRe text = false ->
  test headingRe text = false ->
  (count isQmark text <= 1)%nat ->
  formatNotionStyleResponse text = text.
Proof.
  intros Hthree Hbullet Hheading Hcount. unfold formatNotionStyleResponse.
  assert (Hpar : withParagraphs text = text).
  { rewrite withParagraphs_collapse. apply collapse_id; [lia| |exact Hthree].
    destruct text as [|c t]; [reflexivity|].
    rewrite includes_cons in Hthree. apply orb_false_iff in Hthree. apply Hthree. }
  rewrite Hpar. unfold withHeadings, withBullets.
  rewrite (@replaceAll_no_match bulletRe _ _ Hbullet).
  rewrite (@replaceAll_no_match headingRe _ _ Hheading).
  apply (proj2 (firstQuestion_spec text)). exact Hcount.
Qed.

(** C8 (as amended): on a text whose formatted form is normalised (it
    has no three line feeds in a row, no line that matches the bullet
    pattern and none that matches the heading pattern) formatting twice
    gives what formatting once gives.  That is so in particular when,
    once the paragraphs of the text are normalised, none of its lines
    matches the bullet pattern or the heading pattern. *)
Theorem formatter_idempotent_without_lines response :
  (includes threeLF (formatNotionStyleResponse response) = false ->
   test bulletRe (formatNotionStyleResponse response) = false ->
   test headingRe (formatNotionStyleResponse response) = false ->
   formatNotionStyleResponse (formatNotionStyleResponse response)
   = formatNotionStyleResponse response)
  /\ (test bulletRe (withParagraphs response) = false ->
      test headingRe (withParagraphs response) = false ->
      formatNotionStyleResponse (formatNotionStyleResponse response)
      = formatNotionStyleResponse response).
Proof.
  split.
  - intros Hthree Hbullet Hheading.
    apply format_normalised; try assumption. apply format_count_le.
  - exact (format_twice response).
Qed.

End Idempotence.

(** The amended C8 at the bullet line ["- two bedrooms"], whose formatted
    form has the bullet sign and no bullet line, and at a text without
    bullet or heading lines. *)
Lemma formatter_idempotent_without_lines_witness :
  ChatbotController.formatNotionStyleResponse (U := JSString.asciiTables)
    (ChatbotController.formatNotionStyleResponse (U := JSString.asciiTables)
       (JSString.str "- two bedrooms"))
  = ChatbotController.formatNotionStyleResponse (U := JSString.asciiTables)
      (JSString.str "- two bedrooms")
  /\ ChatbotController.formatNotionStyleResponse (U := JSString.asciiTables)
       (ChatbotController.formatNotionStyleResponse (U := JSString.asciiTables)
          (JSString.str "Which area? Which budget? Thanks"))
     = ChatbotController.formatNotionStyleResponse (U := JSString.asciiTables)
         (JSString.str "Which area? Which budget? Thanks").
Proof.
  split.
  - apply (proj1 (@formatter_idempotent_without_lines JSString.asciiTables
                    (JSString.str "- two bedrooms")));
      vm_compute; reflexivity.
  - apply (proj2 (@formatter_idempotent_without_lines JSString.asciiTables
                    (JSString.str "Which area? Which budget? Thanks")));
      vm_compute; reflexivity.
Defined.

(* ===================================================================== *)
(** * Bullet lines and heading lines *)
(* ===================================================================== *)

Section LineRules.
Import JSString RegExp ChatbotController Semantics Spec.
Local Open Scope N_scope.

(** A match that takes the whole of a text is the only one the
    replacement loop finds, when the pattern does not match the empty
    text at the end. *)
Lemma replaceAll_whole re replacer s e caps :
  s <> [] ->
  matchAt re {| before := []; rest := s |} = Some (e, caps) ->
  rest e = [] ->
  matchAt re e = None ->
  replaceAll re replacer s
  = replacer (matchArray re {| before := []; rest := s |} e caps).
Proof.
  intros Hs Hat Hend Hnone. unfold replaceAll.
  destruct s as [|c rst]; [contradiction Hs; reflexivity|].
  rewrite scan_cons. cbv zeta. rewrite Hat.
  destruct (matchAt_advances _ _ Hat) as [consumed Hadv].
  pose proof (advances_pos Hadv) as Hpos.
  destruct Hadv as [Hrest Hbefore]. cbn [rest before] in Hrest, Hbefore.
  rewrite Hend, app_nil_r in Hrest. subst consumed.
  rewrite Hpos. cbn [length].
  rewrite scan_skip by lia.
  rewrite firstn_all, skipn_all.
  assert (He : e = {| before := rev rst ++ [c]; rest := [] |}).
  { destruct e as [be re']. cbn [rest before] in *. subst re'.
    rewrite Hbefore, app_nil_r. reflexivity. }
  cbn [scan]. rewrite <- He, Hnone. apply app_nil_r.
Qed.

Lemma atBol_inside re c bef rst :
  isLineTerminator c = false ->
  atBol re {| before := c :: bef; rest := rst |} = false.
Proof. intros Hc. unfold atBol. cbn [before]. rewrite Hc. apply andb_false_r. Qed.

Lemma last_not_terminator (line : jsstring) tail :
  line <> [] ->
  forallb (fun c => negb (isLineTerminator c)) line = true ->
  exists c bef, rev line ++ tail = c :: bef /\ isLineTerminator c = false.
Proof.
  intros Hline Hall.
  destruct (rev line) as [|c bef] eqn:Hrev.
  - apply (f_equal (@rev N)) in Hrev. rewrite rev_involutive in Hrev.
    contradiction Hline.
  - exists c, (bef ++ tail). split; [reflexivity|].
    rewrite forallb_forall in Hall.
    apply negb_true_iff. apply Hall. apply in_rev. rewrite Hrev. left. reflexivity.
Qed.

Lemma any_line (line : jsstring) :
  forallb (fun c => negb (isLineTerminator c)) line = true ->
  forallb (cset_match false CAny) line = true.
Proof.
  intros H. rewrite forallb_forall in *. intros c Hc.
  rewrite cset_any. apply H. exact Hc.
Qed.

(** The bullet pattern on a bullet line: white space, a hyphen, one unit
    of white space, then a line. *)
Lemma matchAt_bullet_line indent c line :
  forallb isSpace indent = true ->
  isSpace c = true ->
  line <> [] ->
  forallb (fun c => negb (isLineTerminator c)) line = true ->
  matchAt bulletRe {| before := []; rest := indent ++ [hyphen] ++ [c] ++ line |}
  = Some ({| before := rev line ++ c :: hyphen :: rev indent ++ []; rest := [] |},
          setCapture 1 (length (indent ++ [hyphen; c]) + 0)
            (length line + (length (indent ++ [hyphen; c]) + 0)) noCaptures).
Proof.
  intros Hindent Hc Hline Hall. unfold matchAt. rewrite source_bulletRe.
  cbn [rmatch atBol before rest].
  erewrite rep_greedy; [reflexivity| | |apply Nat.le_0_l|].
  - rewrite forallb_forall in *. intros x Hx. rewrite cset_space. apply Hindent, Hx.
  - reflexivity.
  - cbn -[rep]. change (ignoreCase bulletRe) with false.
    rewrite Hc. cbn [orb].
    rewrite <- (app_nil_r line) at 1.
    erewrite rep_greedy; [reflexivity| | | |].
    + apply any_line, Hall.
    + exact I.
    + destruct line; [contradiction Hline; reflexivity|cbn [length]; lia].
    + cbn [atEol rest]. unfold pos. cbn [before].
      f_equal. f_equal.
      f_equal; rewrite ?length_app, ?length_rev; cbn [length];
        rewrite ?length_app, ?length_rev; cbn [length]; lia.
Qed.

(** X16: of a text that is one bullet line (white space, a hyphen, one
    unit of white space, then a line of text without line terminator)
    the bullet step makes the bullet sign, a space and the text of the
    line; the white space before the hyphen, line feeds included, is
    dropped. *)
Theorem bullet_line_rewritten indent c line :
  forallb isSpace indent = true ->
  isSpace c = true ->
  line <> [] ->
  forallb (fun c => negb (isLineTerminator c)) line = true ->
  withBullets (indent ++ [hyphen] ++ [c] ++ line) = [bullet; space] ++ line.
Proof.
  intros Hindent Hc Hline Hall. unfold withBullets.
  pose proof (@matchAt_bullet_line indent c line Hindent Hc Hline Hall) as Hat.
  etransitivity.
  { eapply replaceAll_whole; [|exact Hat| |].
    - destruct indent; discriminate.
    - reflexivity.
    - destruct (last_not_terminator (c :: hyphen :: rev indent ++ []) Hline Hall)
        as (d & bef & -> & Hd).
      unfold matchAt. rewrite source_bulletRe. cbn [rmatch].
      rewrite (@atBol_inside _ _ _ _ Hd). reflexivity. }
  cbv beta. f_equal.
  erewrite group1_matchArray; [|reflexivity|unfold setCapture; cbn [Nat.eqb]; reflexivity].
  unfold input. cbn [before rest].
  change (rev [] ++ indent ++ [hyphen] ++ [c] ++ line)
    with (rev [] ++ indent ++ [hyphen; c] ++ line).
  rewrite (app_assoc indent).
  rewrite <- (app_nil_r line) at 1.
  cbn [length].
  exact (slice_between [] (indent ++ [hyphen; c]) line []).
Qed.

Section Headings.
Context {U : UnicodeTables}.

Lemma matchAt_heading_line hashes c line :
  hashes <> [] ->
  forallb (N.eqb numberSign) hashes = true ->
  isSpace c = true ->
  line <> [] ->
  forallb (fun c => negb (isLineTerminator c)) line = true ->
  matchAt headingRe {| before := []; rest := hashes ++ [c] ++ line |}
  = Some ({| before := rev line ++ c :: rev hashes ++ []; rest := [] |},
          setCapture 1 (length (hashes ++ [c]) + 0)
            (length line + (length (hashes ++ [c]) + 0)) noCaptures).
Proof.
  intros Hhashes Hall Hc Hline Hany. unfold matchAt. rewrite source_headingRe.
  cbn [rmatch atBol before rest].
  assert (Hnot : cset_match false (CChar numberSign) c = false).
  { rewrite cset_char. apply N.eqb_neq. intros ->. discriminate Hc. }
  change (hashes ++ [c] ++ line) with (hashes ++ c :: line).
  erewrite rep_greedy; [reflexivity| | | |].
  - rewrite forallb_forall in *. intros x Hx. rewrite cset_char.
    rewrite N.eqb_sym. apply Hall, Hx.
  - exact Hnot.
  - destruct hashes; [contradiction Hhashes; reflexivity|cbn [length]; lia].
  - cbn -[rep]. change (ignoreCase headingRe) with false.
    rewrite Hc. cbn [orb].
    rewrite <- (app_nil_r line) at 1.
    erewrite rep_greedy; [reflexivity| | | |].
    + apply any_line, Hany.
    + exact I.
    + destruct line; [contradiction Hline; reflexivity|cbn [length]; lia].
    + cbn [atEol rest]. unfold pos. cbn [before].
      f_equal. f_equal.
      f_equal; rewrite ?length_app, ?length_rev; cbn [length];
        rewrite ?length_app, ?length_rev; cbn [length]; lia.
Qed.

(** X17: of a text that is one heading line (number signs, one unit of
    white space, then a line of text without line terminator) the
    heading step makes the text of the line in upper case, without the
    number signs. *)
Theorem heading_line_rewritten hashes c line :
  hashes <> [] ->
  forallb (N.eqb numberSign) hashes = true ->
  isSpace c = true ->
  line <> [] ->
  forallb (fun c => negb (isLineTerminator c)) line = true ->
  withHeadings (hashes ++ [c] ++ line) = toUpperCase line.
Proof.
  intros Hhashes Hall Hc Hline Hany. unfold withHeadings.
  pose proof (@matchAt_heading_line hashes c line Hhashes Hall Hc Hline Hany) as Hat.
  etransitivity.
  { eapply replaceAll_whole; [|exact Hat| |].
    - destruct hashes; [contradiction Hhashes; reflexivity|discriminate].
    - reflexivity.
    - destruct (last_not_terminator (c :: rev hashes ++ []) Hline Hany)
        as (d & bef & -> & Hd).
      unfold matchAt. rewrite source_headingRe. cbn [rmatch].
      rewrite (@atBol_inside _ _ _ _ Hd). reflexivity. }
  cbv beta. f_equal.
  erewrite group1_matchArray; [|reflexivity|unfold setCapture; cbn [Nat.eqb]; reflexivity].
  unfold input. cbn [before rest].
  rewrite (app_assoc hashes).
  rewrite <- (app_nil_r line) at 1.
  cbn [length].
  exact (slice_between [] (hashes ++ [c]) line []).
Qed.

End Headings.

End LineRules.

(** X16 at the line ["  - two bedrooms"]. *)
Lemma bullet_line_rewritten_witness :
  ChatbotController.withBullets
    (JSString.str "  " ++ [Spec.hyphen] ++ [Spec.space] ++ JSString.str "two bedrooms")
  = [ChatbotController.bullet; Spec.space] ++ JSString.str "two bedrooms".
Proof.
  apply (@bullet_line_rewritten (JSString.str "  ") Spec.space
           (JSString.str "two bedrooms")); try reflexivity.
  discriminate.
Defined.

(** X17 at the line ["## options"]. *)
Lemma heading_line_rewritten_witness :
  ChatbotController.withHeadings (U := JSString.asciiTables)
    (JSString.str "##" ++ [Spec.space] ++ JSString.str "options")
  = JSString.str "OPTIONS".
Proof.
  refine (eq_trans
            (@heading_line_rewritten JSString.asciiTables (JSString.str "##")
               Spec.space (JSString.str "options") _ _ _ _ _) _);
    try reflexivity; discriminate.
Defined.

(* ===================================================================== *)
(** * What the extractor captures *)
(* ===================================================================== *)

Section Captures.
Import JSString RegExp ChatbotController Semantics Spec.
Local Open Scope N_scope.

(** ** Trimming *)

Lemma dropWhile_suffix p (s : jsstring) : exists l, s = l ++ dropWhile p s.
Proof.
  induction s as [|c s [l IH]]; [exists []; reflexivity|].
  cbn [dropWhile]. destruct (p c).
  - exists (c :: l). cbn [app]. rewrite <- IH. reflexivity.
  - exists []. reflexivity.
Qed.

Lemma trim_inside s : exists l r, s = l ++ trim s ++ r.
Proof.
  unfold trim, trimEnd, trimStart.
  destruct (dropWhile_suffix isSpace s) as [l Hl].
  destruct (dropWhile_suffix isSpace (rev (dropWhile isSpace s))) as [r Hr].
  exists l, (rev r).
  rewrite <- rev_app_distr, <- Hr, rev_involutive. exact Hl.
Qed.

Lemma forallb_trim (q : N -> bool) s : forallb q s = true -> forallb q (trim s) = true.
Proof.
  intros H. destruct (trim_inside s) as (l & r & E).
  rewrite E, !forallb_app in H.
  apply andb_true_iff in H. destruct H as [_ H].
  apply andb_true_iff in H. apply H.
Qed.

Lemma includes_trim s pre post : includes (trim s) (pre ++ s ++ post) = true.
Proof.
  destruct (trim_inside s) as (l & r & E). rewrite E at 2.
  replace (pre ++ (l ++ trim s ++ r) ++ post)
    with ((pre ++ l) ++ trim s ++ (r ++ post))
    by (rewrite <- !app_assoc; reflexivity).
  apply includes_app.
Qed.

Lemma dropWhile_none p (s : jsstring) :
  forallb (fun c => negb (p c)) s = true -> dropWhile p s = s.
Proof.
  destruct s as [|c s]; [reflexivity|]. cbn [forallb dropWhile].
  intros H. apply andb_true_iff in H. destruct H as [H _].
  apply negb_true_iff in H. rewrite H. reflexivity.
Qed.

Lemma trim_none s : forallb (fun c => negb (isSpace c)) s = true -> trim s = s.
Proof.
  intros H. unfold trim, trimStart, trimEnd.
  rewrite (dropWhile_none _ _ H), dropWhile_none, rev_involutive; [reflexivity|].
  rewrite forallb_forall in *. intros x Hx. apply H, in_rev, Hx.
Qed.

(** ** Classes under the [i] flag *)

Lemma isSpace_not_printable c : 33 <= c <= 126 -> isSpace c = false.
Proof.
  intros Hc. unfold isSpace, isWhiteSpace, isLineTerminator.
  repeat match goal with
         | |- context [?a =? ?b] =>
             let H := fresh in
             destruct (N.eqb_spec a b) as [H|H]; [lia|]
         | |- context [?a <=? ?b] =>
             let H := fresh in
             destruct (N.leb_spec a b) as [H|H]; try lia
         end; reflexivity.
Qed.

Lemma upperAscii_cases c :
  (~ 97 <= c <= 122 /\ upperAscii c = c) \/ (97 <= c <= 122 /\ upperAscii c = c - 32).
Proof.
  unfold upperAscii, isAsciiLower.
  destruct (N.leb_spec 97 c); destruct (N.leb_spec c 122); cbn [andb];
    try (left; split; [lia|reflexivity]). right. split; [lia|reflexivity].
Qed.

Lemma lowerAscii_cases c :
  (~ 65 <= c <= 90 /\ lowerAscii c = c) \/ (65 <= c <= 90 /\ lowerAscii c = c + 32).
Proof.
  unfold lowerAscii, isAsciiUpper.
  destruct (N.leb_spec 65 c); destruct (N.leb_spec c 90); cbn [andb];
    try (left; split; [lia|reflexivity]). right. split; [lia|reflexivity].
Qed.

(** A set none of whose members is an ASCII letter matches the same
    units with and without the flag. *)
Lemma cset_icase_plain cs c :
  (forall x, 65 <= x <= 90 \/ 97 <= x <= 122 -> cset_in cs x = false) ->
  match cs with CUnion _ _ | CNot _ => False | _ => True end ->
  cset_match true cs c = cset_in cs c.
Proof.
  intros Hno Hshape.
  assert (Hcase : cset_in cs c
                  || (true && (cset_in cs (upperAscii c) || cset_in cs (lowerAscii c)))
                  = cset_in cs c).
  { cbn [andb].
    destruct (upperAscii_cases c) as [[Hc ->]|[Hc ->]];
      destruct (lowerAscii_cases c) as [[Hc' ->]|[Hc' ->]];
      try (rewrite !orb_diag; reflexivity); try lia.
    - rewrite (Hno (c + 32)), orb_false_r by lia. apply orb_diag.
    - rewrite (Hno (c - 32)) by lia. cbn [orb]. apply orb_diag. }
  destruct cs; try contradiction Hshape; exact Hcase.
Qed.

Lemma cset_space_icase c : cset_match true CSpace c = isSpace c.
Proof.
  apply (@cset_icase_plain CSpace); [|exact I].
  intros x Hx. apply isSpace_not_printable. lia.
Qed.

Lemma cset_digit_icase c : cset_match true CDigit c = isDigit c.
Proof.
  apply (@cset_icase_plain CDigit); [|exact I].
  intros x Hx. cbn [cset_in]. unfold isDigit.
  destruct (N.leb_spec 48 x); destruct (N.leb_spec x 57); try reflexivity; lia.
Qed.

Lemma cset_punct_icase a c :
  a < 65 -> cset_match true (CChar a) c = (c =? a).
Proof.
  intros Ha. apply (@cset_icase_plain (CChar a)); [|exact I].
  intros x Hx. cbn [cset_in]. apply N.eqb_neq. lia.
Qed.

Lemma cset_letter_icase c :
  cset_match true (CRange 97 122) c = isAsciiLetter c.
Proof.
  cbn [cset_match cset_in andb]. unfold isAsciiLetter, isAsciiLower, isAsciiUpper.
  destruct (upperAscii_cases c) as [[Hc ->]|[Hc ->]];
    destruct (lowerAscii_cases c) as [[Hc' ->]|[Hc' ->]]; try lia.
  - rewrite !orb_diag.
    destruct (N.leb_spec 97 c); destruct (N.leb_spec c 122);
      destruct (N.leb_spec 65 c); destruct (N.leb_spec c 90); try reflexivity; lia.
  - destruct (N.leb_spec 97 c); destruct (N.leb_spec c 122);
      destruct (N.leb_spec 65 c); destruct (N.leb_spec c 90);
      destruct (N.leb_spec 97 (c + 32)); destruct (N.leb_spec (c + 32) 122);
      try reflexivity; lia.
  - destruct (N.leb_spec 97 c); destruct (N.leb_spec c 122);
      destruct (N.leb_spec 65 c); destruct (N.leb_spec c 90);
      destruct (N.leb_spec 97 (c - 32)); destruct (N.leb_spec (c - 32) 122);
      try reflexivity; lia.
Qed.

(** ** A captured group *)

Lemma slice_advances st head st1 consumed e :
  advances st head st1 -> advances st1 consumed e ->
  slice (input st) (pos st1) (pos e) = consumed.
Proof.
  intros [Hrest Hbefore] [Hrest1 Hbefore1].
  unfold input, pos. rewrite Hbefore1, Hbefore, Hrest, Hrest1.
  rewrite !length_app, !length_rev.
  apply slice_between.
Qed.

(** What a sequence of patterns takes before the last of them. *)
Lemma prefix_inv re tail : forall ps st caps e caps',
  ignoreCase re = true ->
  matches re (fold_right RSeq tail ps) st caps e caps' ->
  exists head st1 caps1,
    advances st head st1
    /\ matches re tail st1 caps1 e caps'
    /\ (In (RSet (CChar 32)) ps -> In space head).
Proof.
  induction ps as [|p ps IH]; intros st caps e caps' Hcase Hm.
  - exists [], st, caps. split; [apply advances_refl|]. split; [exact Hm|].
    intros [].
  - cbn [fold_right] in Hm.
    inversion Hm as [| |r1 r2 st0 caps0 st1 caps1 st2 caps2 Hp Hrest| | | | | |]; subst.
    destruct (IH _ _ _ _ Hcase Hrest) as (head & st2 & caps2 & Hhead & Htail & Hin).
    destruct (matches_advances Hp) as [taken Htaken].
    exists (taken ++ head), st2, caps2.
    split; [exact (advances_trans Htaken Hhead)|]. split; [exact Htail|].
    intros [->|Hps]; apply in_or_app; [left|right; exact (Hin Hps)].
    inversion Hp as [|cs st0 caps0 c rst Hc Hspace| | | | | | |]; subst.
    rewrite Hcase, cset_punct_icase in Hspace by reflexivity.
    apply N.eqb_eq in Hspace. subst c.
    assert (taken = [32]); [|subst; left; reflexivity].
    eapply advances_unique; [exact Htaken|]. split; [exact Hc|reflexivity].
Qed.

(** What the extractor reads from such a pattern: a piece of the message
    that comes after a space and is matched by the body of the group,
    trimmed. *)
Lemma trimmedGroup_inv re ps G message v :
  capturing re ps G ->
  trimmedGroup (match_ re message) = Some v ->
  exists pre captured post st caps e caps',
    message = pre ++ captured ++ post
    /\ In space pre
    /\ captured <> []
    /\ v = trim captured
    /\ matches re G st caps e caps'
    /\ advances st captured e.
Proof.
  intros (Hglobal & Hcase & Hsource & Hgroups & Hspace) Hv.
  unfold trimmedGroup, match_ in Hv. rewrite Hglobal in Hv. unfold exec in Hv.
  destruct (search re [] message) as [[[st e] caps]|] eqn:Hsearch; [|discriminate Hv].
  apply search_some_inv in Hsearch.
  destruct Hsearch as (skipped & Hmessage & Hbefore & Hat).
  apply matchAt_sound in Hat. rewrite Hsource in Hat.
  destruct (prefix_inv _ _ Hcase Hat) as (head & st1 & caps1 & Hhead & Htail & Hin).
  inversion Htail as [| |r1 r2 st0 caps0 st3 caps3 st4 caps4 Hg Hempty| | | | | |]; subst.
  inversion Hempty; subst.
  inversion Hg as [| | | | | |n r st0 caps0 st3 caps3 Hbody| |]; subst.
  destruct (matches_advances Hbody) as [captured Hcaptured].
  erewrite at1_matchArray in Hv;
    [|exact Hgroups|unfold setCapture; cbn [Nat.eqb]; reflexivity].
  rewrite (slice_advances Hhead Hcaptured) in Hv.
  cbn [truthy_opt option_map] in Hv.
  destruct captured as [|c captured]; [discriminate Hv|].
  cbn [truthy] in Hv. injection Hv as <-.
  exists (skipped ++ head), (c :: captured), (rest e), st1, caps1, e, caps3.
  split; [|split; [apply in_or_app; right; exact (Hin Hspace)
                  |split; [discriminate
                          |split; [reflexivity|split; [exact Hbody|exact Hcaptured]]]]].
  try rewrite Hmessage. destruct Hhead as [H1 _]. rewrite H1.
  destruct Hcaptured as [H2 _]. rewrite H2.
  rewrite <- !app_assoc. reflexivity.
Qed.

Lemma rep_inv re min cs st caps e caps' captured :
  matches re (RRep min cs) st caps e caps' ->
  advances st captured e ->
  forallb (cset_match (ignoreCase re) cs) captured = true
  /\ (min <= length captured)%nat.
Proof.
  intros Hm Hadv. inversion Hm as [| | | | |m c st0 caps0 run rst Hrest Hrun Hlen| | |]; subst.
  assert (captured = run); [|subst; split; assumption].
  eapply advances_unique; [exact Hadv|]. split; [exact Hrest|reflexivity].
Qed.

Lemma capturing_nameRe :
  capturing nameRe
    [alts [lit "my name is"; lit "i am"; lit "i'm"]; RSet (CChar 32)]
    (RRep 1 (CUnion (CRange 97 122) CSpace)).
Proof. repeat split. right. left. reflexivity. Qed.

Lemma capturing_locationRe :
  capturing locationRe
    [alts [lit "location"; lit "area"; lit "place"; lit "interested in"];
     RSet (CChar 32)]
    (RRep 1 (CUnion (CRange 97 122) (CUnion CSpace (CChar 44)))).
Proof. repeat split. right. left. reflexivity. Qed.

Lemma capturing_budgetRe :
  capturing budgetRe
    [alts [lit "budget"; lit "afford"; lit "looking for"; lit "range";
           lit "price"];
     RSet (CChar 32); RRep 0 (CNot CDigit)]
    (RSeq (RRep 1 CDigit)
          (RSeq (RRep 0 (CUnion CDigit (CUnion (CChar 44) (CChar 46)))) REmpty)).
Proof. repeat split. right. left. reflexivity. Qed.

(** ** The three captured attributes *)

Section Extracted.
Context {U : UnicodeTables}.

(** X19: a budget the extractor finds starts with a digit, goes on with
    digits, commas and periods only, and is a piece of the message. *)
Theorem extracted_budget_shape message b :
  budget (extractUserInfo message) = Some b ->
  exists d tail,
    b = d :: tail
    /\ isDigit d = true
    /\ forallb (fun c => isDigit c || ((c =? comma) || (c =? period))) tail = true
    /\ includes b message = true.
Proof.
  intros Hb. cbn [extractUserInfo budget] in Hb.
  destruct (@trimmedGroup_inv _ _ _ _ _ capturing_budgetRe Hb)
    as (pre & captured & post & st & caps & e & caps' & -> & _ & _ & -> & Hm & Hadv).
  inversion Hm as [| |r1 r2 st0 caps0 st1 caps1 st2 caps2 Hdigits Hrest| | | | | |]; subst.
  inversion Hrest as [| |r1 r2 st0 caps0 st2 caps2 st3 caps3 Hmore Hempty| | | | | |]; subst.
  inversion Hempty; subst.
  destruct (matches_advances Hdigits) as [digits Hadv1].
  destruct (matches_advances Hmore) as [more Hadv2].
  destruct (rep_inv Hdigits Hadv1) as [Hall1 Hlen].
  destruct (rep_inv Hmore Hadv2) as [Hall2 _].
  assert (captured = digits ++ more).
  { eapply advances_unique; [exact Hadv|exact (advances_trans Hadv1 Hadv2)]. }
  subst captured.
  change (ignoreCase budgetRe) with true in Hall1, Hall2.
  assert (Hshape : forallb (fun c => isDigit c || ((c =? comma) || (c =? period)))
                     (digits ++ more) = true).
  { rewrite forallb_app. apply andb_true_iff. split; rewrite forallb_forall in *.
    - intros c Hc. specialize (Hall1 c Hc). rewrite cset_digit_icase in Hall1.
      rewrite Hall1. reflexivity.
    - intros c Hc. specialize (Hall2 c Hc). cbn [cset_match] in Hall2.
      fold (cset_match true CDigit c) in Hall2.
      fold (cset_match true (CChar 44) c) in Hall2.
      fold (cset_match true (CChar 46) c) in Hall2.
      rewrite cset_digit_icase, !cset_punct_icase in Hall2 by reflexivity.
      exact Hall2. }
  assert (Htrim : trim (digits ++ more) = digits ++ more).
  { apply trim_none. rewrite forallb_forall in *. intros c Hc.
    specialize (Hshape c Hc). apply negb_true_iff. apply isSpace_not_printable.
    unfold isDigit, comma, period in Hshape.
    apply orb_true_iff in Hshape. destruct Hshape as [H|H].
    - apply andb_true_iff in H. destruct H as [H1 H2].
      apply N.leb_le in H1, H2. lia.
    - apply orb_true_iff in H. destruct H as [H|H]; apply N.eqb_eq in H; lia. }
  rewrite Htrim.
  destruct digits as [|d digits]; [cbn [length] in Hlen; lia|].
  exists d, (digits ++ more).
  split; [reflexivity|]. split; [|split].
  - rewrite forallb_forall in Hall1. specialize (Hall1 d (or_introl eq_refl)).
    rewrite cset_digit_icase in Hall1. exact Hall1.
  - cbn [app forallb] in Hshape. apply andb_true_iff in Hshape. apply Hshape.
  - rewrite <- Htrim at 1. apply includes_trim.
Qed.

(** X20: from a message without a space the extractor takes no name, no
    budget and no location: each of the three patterns needs a space
    after its trigger words. *)
Theorem extracts_nothing_without_space message :
  ~ In space message ->
  name (extractUserInfo message) = None
  /\ budget (extractUserInfo message) = None
  /\ preferredLocation (extractUserInfo message) = None.
Proof.
  intros Hno.
  assert (Hnone : forall re ps G, capturing re ps G ->
                    trimmedGroup (match_ re message) = None).
  { intros re ps G Hre.
    destruct (trimmedGroup (match_ re message)) as [v|] eqn:Hv; [exfalso|reflexivity].
    destruct (@trimmedGroup_inv _ _ _ _ _ Hre Hv)
      as (pre & captured & post & _ & _ & _ & _ & E & Hin & _).
    apply Hno. rewrite E. apply in_or_app. left. exact Hin. }
  cbn [extractUserInfo name budget preferredLocation].
  rewrite (Hnone _ _ _ capturing_nameRe), (Hnone _ _ _ capturing_budgetRe),
    (Hnone _ _ _ capturing_locationRe).
  repeat split.
Qed.

End Extracted.

End Captures.

(** X19 at the message ["my budget is 500,000 dollars"]. *)
Lemma extracted_budget_shape_witness :
  exists d tail,
    JSString.str "500,000" = d :: tail
    /\ JSString.isDigit d = true
    /\ forallb (fun c => JSString.isDigit c
                         || (N.eqb c Spec.comma || N.eqb c Spec.period)) tail = true
    /\ JSString.includes (JSString.str "500,000")
         (JSString.str "my budget is 500,000 dollars") = true.
Proof.
  apply (@extracted_budget_shape JSString.asciiTables
           (JSString.str "my budget is 500,000 dollars") (JSString.str "500,000")).
  vm_compute. reflexivity.
Defined.

(** X20 at the message ["villa"]. *)
Lemma extracts_nothing_without_space_witness :
  ChatbotController.name
    (ChatbotController.extractUserInfo (U := JSString.asciiTables) (JSString.str "villa"))
  = None
  /\ ChatbotController.budget
       (ChatbotController.extractUserInfo (U := JSString.asciiTables) (JSString.str "villa"))
     = None
  /\ ChatbotController.preferredLocation
       (ChatbotController.extractUserInfo (U := JSString.asciiTables) (JSString.str "villa"))
     = None.
Proof.
  apply (@extracts_nothing_without_space JSString.asciiTables (JSString.str "villa")).
  intros H. vm_compute in H. repeat (destruct H as [H|H]; [discriminate H|]). exact H.
Defined.

(* ===================================================================== *)
(** * How far a captured word runs *)
(* ===================================================================== *)

Section Greedy.
Import JSString RegExp ChatbotController Semantics Spec.
Local Open Scope N_scope.

Lemma takeWhile_prefix p : forall (run rst : jsstring),
  forallb p run = true -> exists more, takeWhile p (run ++ rst) = run ++ more.
Proof.
  induction run as [|c run IH]; intros rst Hrun.
  - exists (takeWhile p rst). reflexivity.
  - cbn [forallb] in Hrun. apply andb_true_iff in Hrun. destruct Hrun as [Hc Hrun].
    destruct (IH rst Hrun) as [more Hmore].
    exists more. cbn [app takeWhile]. rewrite Hc, Hmore. reflexivity.
Qed.

(** A greedy quantifier whose continuation never fails takes the longest
    run there is. *)
Lemma rep_longest re (R : Type) (k : state -> captures -> option R)
    cs caps min bef rst res :
  (forall st, exists r, k st caps = Some r) ->
  rep re cs k caps min bef rst = Some res ->
  exists run rst',
    rst = run ++ rst'
    /\ forallb (cset_match (ignoreCase re) cs) run = true
    /\ (min <= length run)%nat
    /\ match rst' with
       | [] => True
       | c :: _ => cset_match (ignoreCase re) cs c = false
       end
    /\ k {| before := rev run ++ bef; rest := rst' |} caps = Some res.
Proof.
  intros Htotal Hrep.
  destruct (takeWhile_split (cset_match (ignoreCase re) cs) rst)
    as (rst' & Hsplit & Hstop).
  set (run := takeWhile (cset_match (ignoreCase re) cs) rst) in *.
  pose proof (forallb_takeWhile (cset_match (ignoreCase re) cs) rst) as Hrun.
  fold run in Hrun.
  destruct (rep_sound _ _ _ _ _ _ _ Hrep) as (run0 & rst0 & E0 & Hrun0 & Hmin & _).
  assert (Hlen : (min <= length run)%nat).
  { destruct (takeWhile_prefix _ run0 rst0 Hrun0) as [more Hmore].
    unfold run. rewrite E0, Hmore, length_app. lia. }
  destruct (Htotal {| before := rev run ++ bef; rest := rst' |}) as [r Hr].
  exists run, rst'. repeat split; try assumption.
  pose proof (@rep_greedy re R k cs caps r run min bef rst' Hrun Hstop Hlen Hr)
    as Hgreedy.
  rewrite <- Hsplit, Hrep in Hgreedy. rewrite Hr. exact (eq_sym Hgreedy).
Qed.

(** The patterns of the extractor whose group is a run of one class,
    right after the space: the group takes the run to its end. *)
Lemma capture_longest re A cs message v :
  global re = false ->
  source re = RSeq A (RSeq (RSet (CChar 32)) (RSeq (RGroup 1 (RRep 1 cs)) REmpty)) ->
  ngroups A = 0%nat ->
  trimmedGroup (match_ re message) = Some v ->
  exists pre captured post,
    message = pre ++ captured ++ post
    /\ v = trim captured
    /\ captured <> []
    /\ forallb (cset_match (ignoreCase re) cs) captured = true
    /\ match post with
       | [] => True
       | c :: _ => cset_match (ignoreCase re) cs c = false
       end.
Proof.
  intros Hglobal Hsource Hgroups Hv.
  unfold trimmedGroup, match_ in Hv. rewrite Hglobal in Hv. unfold exec in Hv.
  destruct (search re [] message) as [[[st e] caps]|] eqn:Hsearch; [|discriminate Hv].
  apply search_some_inv in Hsearch.
  destruct Hsearch as (skipped & Hmessage & Hbefore & Hat).
  assert (Hn : ngroups (source re) = 1%nat).
  { rewrite Hsource. cbn [ngroups]. rewrite Hgroups. reflexivity. }
  unfold matchAt in Hat. rewrite Hsource in Hat. cbn [rmatch] in Hat.
  apply rmatch_sound in Hat.
  destruct Hat as (st1 & caps1 & HA & Hrest).
  destruct (matches_advances HA) as [head Hhead].
  destruct (rest st1) as [|c rst] eqn:Hrest1; [discriminate Hrest|].
  destruct (cset_match (ignoreCase re) (CChar 32) c); [|discriminate Hrest].
  cbn [before rest] in Hrest.
  apply rep_longest in Hrest; [|intros st'; eexists; reflexivity].
  destruct Hrest as (run & rst' & -> & Hrun & Hlen & Hstop & Hend).
  injection Hend as <- <-.
  set (st2 := {| before := c :: before st1; rest := run ++ rst' |}) in *.
  set (e := {| before := rev run ++ c :: before st1; rest := rst' |}) in *.
  assert (Hhead' : advances st (head ++ [c]) st2).
  { destruct Hhead as [H1 H2]. split; unfold st2; cbn [rest before].
    - rewrite H1, Hrest1, <- app_assoc. reflexivity.
    - rewrite rev_app_distr, H2. reflexivity. }
  assert (Hrun' : advances st2 run e) by (split; reflexivity).
  erewrite at1_matchArray in Hv;
    [|exact Hn|unfold setCapture; cbn [Nat.eqb]; reflexivity].
  rewrite (slice_advances Hhead' Hrun') in Hv.
  cbn [truthy_opt option_map] in Hv.
  destruct run as [|d run]; [discriminate Hv|].
  cbn [truthy] in Hv. injection Hv as <-.
  exists (skipped ++ head ++ [c]), (d :: run), rst'.
  split; [|split; [reflexivity|split; [discriminate|split; assumption]]].
  rewrite Hmessage. destruct Hhead as [H1 _]. rewrite H1, Hrest1.
  rewrite <- !app_assoc. reflexivity.
Qed.

Section Words.
Context {U : UnicodeTables}.

(** X18: a name the extractor finds is made of ASCII letters and white
    space only and has no white space at either end.  It is the trimmed
    form of a piece of the message that runs as far as letters and white
    space go: the piece is followed by the end of the message or by a unit
    that is neither.  The same holds of a location, with commas
    allowed. *)
Theorem extracted_words_shape message :
  (forall n, name (extractUserInfo message) = Some n ->
     forallb (fun c => isAsciiLetter c || isSpace c) n = true
     /\ trim n = n
     /\ exists pre captured post,
          message = pre ++ captured ++ post
          /\ n = trim captured
          /\ forallb (fun c => isAsciiLetter c || isSpace c) captured = true
          /\ match post with
             | [] => True
             | c :: _ => isAsciiLetter c || isSpace c = false
             end)
  /\ (forall l, preferredLocation (extractUserInfo message) = Some l ->
       forallb (fun c => isAsciiLetter c || (isSpace c || (c =? comma))) l = true
       /\ trim l = l
       /\ exists pre captured post,
            message = pre ++ captured ++ post
            /\ l = trim captured
            /\ forallb (fun c => isAsciiLetter c || (isSpace c || (c =? comma)))
                       captured = true
            /\ match post with
               | [] => True
               | c :: _ => isAsciiLetter c || (isSpace c || (c =? comma)) = false
               end).
Proof.
  assert (Hname : forall c,
            cset_match true (CUnion (CRange 97 122) CSpace) c
            = isAsciiLetter c || isSpace c).
  { intros c. cbn [cset_match]. fold (cset_match true (CRange 97 122) c).
    fold (cset_match true CSpace c).
    rewrite cset_letter_icase, cset_space_icase. reflexivity. }
  assert (Hlocation : forall c,
            cset_match true (CUnion (CRange 97 122) (CUnion CSpace (CChar 44))) c
            = isAsciiLetter c || (isSpace c || (c =? comma))).
  { intros c. cbn [cset_match]. fold (cset_match true (CRange 97 122) c).
    fold (cset_match true CSpace c). fold (cset_match true (CChar 44) c).
    rewrite cset_letter_icase, cset_space_icase, cset_punct_icase by reflexivity.
    reflexivity. }
  split.
  - intros n Hn. cbn [extractUserInfo name] in Hn.
    apply (@capture_longest nameRe
             (alts [lit "my name is"; lit "i am"; lit "i'm"])
             (CUnion (CRange 97 122) CSpace)) in Hn; try reflexivity.
    destruct Hn as (pre & captured & post & E & -> & _ & Hall & Hstop).
    change (ignoreCase nameRe) with true in Hall, Hstop.
    assert (Hshape : forallb (fun c => isAsciiLetter c || isSpace c) captured = true).
    { rewrite forallb_forall in *. intros c Hc. rewrite <- Hname. apply Hall, Hc. }
    split; [apply forallb_trim, Hshape|]. split; [apply trim_idem|].
    exists pre, captured, post. repeat split; try assumption.
    destruct post as [|c post]; [exact I|]. rewrite <- Hname. exact Hstop.
  - intros l Hl. cbn [extractUserInfo preferredLocation] in Hl.
    apply (@capture_longest locationRe
             (alts [lit "location"; lit "area"; lit "place"; lit "interested in"])
             (CUnion (CRange 97 122) (CUnion CSpace (CChar 44)))) in Hl;
      try reflexivity.
    destruct Hl as (pre & captured & post & E & -> & _ & Hall & Hstop).
    change (ignoreCase locationRe) with true in Hall, Hstop.
    assert (Hshape : forallb (fun c => isAsciiLetter c || (isSpace c || (c =? comma)))
                       captured = true).
    { rewrite forallb_forall in *. intros c Hc. rewrite <- Hlocation. apply Hall, Hc. }
    split; [apply forallb_trim, Hshape|]. split; [apply trim_idem|].
    exists pre, captured, post. repeat split; try assumption.
    destruct post as [|c post]; [exact I|]. rewrite <- Hlocation. exact Hstop.
Qed.

End Words.

End Greedy.

(* ===================================================================== *)
(** * The replies of the template *)
(* ===================================================================== *)

Section Template.
Import JSString JSValue RegExp ChatbotController Spec.
Context {U : UnicodeTables}.

Lemma ends_app (a b : jsstring) :
  (exists pre, b = pre ++ [qmark]) -> exists pre, a ++ b = pre ++ [qmark].
Proof. intros [pre ->]. exists (a ++ pre). apply app_assoc. Qed.

Ltac asks :=
  repeat match goal with
         | |- exists pre, _ ++ _ = pre ++ [qmark] => apply ends_app
         end;
  match goal with
  | |- exists pre, ?s = pre ++ [qmark] => exists (removelast s); reflexivity
  end.

(** X21: whatever the message and the lead, the reply of the template
    responder ends with a question mark. *)
Theorem template_always_asks message leadInfo :
  exists pre, generateTemplateResponse message leadInfo = pre ++ [qmark].
Proof.
  unfold generateTemplateResponse.
  destruct (isSome (match_ greetingRe message)).
  { destruct (truthy_opt (Lead.name leadInfo)); asks. }
  destruct (negb (truthy_opt (Lead.name leadInfo)) && (3 <? length message)%nat).
  { destruct (trimmedGroup (match_ nameRe message)); asks. }
  destruct (truthy_opt (Lead.name leadInfo)
            && negb (truthy_opt (Lead.propertyType leadInfo))).
  { destruct (firstPropertyType message); asks. }
  destruct (truthy_opt (Lead.name leadInfo) && truthy_opt (Lead.propertyType leadInfo)
            && negb (truthy_opt (Lead.budget leadInfo))).
  { destruct (trimmedGroup (match_ budgetRe message)); asks. }
  destruct (truthy_opt (Lead.name leadInfo) && truthy_opt (Lead.propertyType leadInfo)
            && truthy_opt (Lead.budget leadInfo)
            && negb (truthy_opt (Lead.preferredLocation leadInfo))).
  { destruct (trimmedGroup (match_ locationRe message)); asks. }
  destruct (truthy_opt (Lead.name leadInfo) && truthy_opt (Lead.propertyType leadInfo)
            && truthy_opt (Lead.budget leadInfo)
            && truthy_opt (Lead.preferredLocation leadInfo)); asks.
Qed.

(** X22: a message that starts with one of the words hi, hello, hey and
    greetings, in any letter case and whatever follows, is answered with
    the greeting, by name when the name is known, whatever else the
    message and the lead hold. *)
Theorem greeting_takes_precedence message leadInfo :
  startsWithGreeting message = true ->
  generateTemplateResponse message leadInfo
  = if truthy_opt (Lead.name leadInfo)
    then str "Hello " ++ interp (Lead.name leadInfo)
         ++ str "! How can I help you with your real estate search today?"
    else str "Hello! I'm your real estate assistant. May I know your name?".
Proof.
  intros Hgreeting. unfold generateTemplateResponse.
  rewrite greeting_match, Hgreeting. reflexivity.
Qed.

End Template.

(** X22 at the message ["Highway 9 area"], from a lead without name. *)
Lemma greeting_takes_precedence_witness :
  ChatbotController.generateTemplateResponse (U := JSString.asciiTables)
    (JSString.str "Highway 9 area") (Lead.new 1)
  = JSString.str "Hello! I'm your real estate assistant. May I know your name?".
Proof.
  apply (@greeting_takes_precedence JSString.asciiTables
           (JSString.str "Highway 9 area") (Lead.new 1)).
  reflexivity.
Defined.

(* ===================================================================== *)
(** * What the system message tells the model *)
(* ===================================================================== *)

Section Prompt.
Import JSString JSValue ChatbotController Spec.







End Prompt.


(* ===================================================================== *)
(** * A whole exchange *)
(* ===================================================================== *)

Section Exchange.
Import JSString JSValue RegExp ChatbotController Spec.
Context {U : UnicodeTables}.

(** X3: the handler records the user's turn before it asks for a
    completion, and the client appends the message to the history it was
    given: the request ends with the user's message twice, after the
    system message and at most nine earlier turns. *)
Theorem request_repeats_message w message lead uiSize :
  exists earlier,
    MistralService.messages (sentRequest w message (heard message lead) uiSize)
    = MistralService.createSystemMessage
        (Some (contextWithUiInfo (heard message lead) uiSize))
      :: earlier ++ [userMessage message; userMessage message]
    /\ (length earlier <= 9)%nat
    /\ forallb chatRole earlier = true.
Proof.
  unfold sentRequest, MistralService.completionRequest, heard.
  cbn [MistralService.messages Lead.push Lead.messageHistory].
  set (history := Lead.messageHistory (updateLead (extractUserInfo message) lead)).
  rewrite formatMessageHistory_map.
  assert (Hskip : skipn (length (history ++ [userTurn message]) - 10)
                        (history ++ [userTurn message])
                  = skipn (length history - 9) history ++ [userTurn message]).
  { rewrite length_app. cbn [length].
    replace (length history + 1 - 10)%nat with (length history - 9)%nat by lia.
    rewrite skipn_app.
    replace (length history - 9 - length history)%nat with 0%nat by lia.
    reflexivity. }
  rewrite Hskip, map_app. cbn [map].
  eexists. split; [|split].
  - rewrite <- app_assoc. reflexivity.
  - rewrite length_map, length_skipn. lia.
  - rewrite forallb_forall. intros m Hm.
    apply in_map_iff in Hm. destruct Hm as (t & <- & _).
    unfold chatRole. cbn [MistralService.role].
    destruct (jsstring_eqb (Lead.sender t) (str "user")); reflexivity.
Qed.

(** X24: the way of a completion to the client: when the handler accepts
    a message, the deadline does not pass and the endpoint answers the
    request with a text, the client gets status 200 and that text,
    formatted, with the identifier of the lead. *)
Theorem completion_reaches_client w reqBody message lead text :
  get reqBody (str "message") = VStr message ->
  truthy message = true ->
  findOrCreate w (get reqBody (str "userId")) = Return lead ->
  deadlineFirst w = false ->
  Answered (apiKey w) (axios_post w)
    (sentRequest w message (heard message lead) (get reqBody (str "uiSize")))
    (VStr text) ->
  reply (sent (processMessage w reqBody))
  = (200%Z, Some (formatNotionStyleResponse text, Lead._id lead)).
Proof.
  intros Hmessage Htruthy Hlead Hdeadline Hanswered.
  rewrite (processMessage_accepted w reqBody Hmessage Htruthy Hlead).
  unfold reply. cbn [sent status body]. fold (heard message lead).
  unfold botResponse. rewrite Hdeadline.
  unfold sentRequest in Hanswered.
  rewrite (orchestrator_on_answer Hanswered). reflexivity.
Qed.

Lemma exchanges_app history asked answered :
  exchanges history = true ->
  exchanges (history ++ [userTurn asked; botTurn answered]) = true.
Proof.
  revert history.
  fix IH 1. intros [|t1 [|t2 history]] H.
  - reflexivity.
  - discriminate H.
  - cbn [app exchanges] in *.
    apply andb_true_iff in H. destruct H as [H1 H2].
    rewrite H1. apply (IH history H2).
Qed.

(** X25: the handler keeps histories made of exchanges: when the history
    of the lead is a sequence of user turns each followed by a bot turn,
    so is the history of the document it saves. *)
Theorem saved_history_is_exchanges w reqBody saved :
  (forall lead,
     findOrCreate w (get reqBody (str "userId")) = Return lead ->
     exchanges (Lead.messageHistory lead) = true) ->
  document (processMessage w reqBody) = Some saved ->
  exchanges (Lead.messageHistory saved) = true.
Proof.
  intros Hlead Hdoc.
  destruct (get reqBody (str "message")) as [| |b|q|message|items|fields] eqn:Hmessage.
  all: try (exfalso; revert Hdoc; unfold processMessage;
            destruct reqBody; try discriminate;
            rewrite Hmessage; cbn [truthyVal negb];
            repeat match goal with
                   | |- context [if ?c then _ else _] => destruct c
                   end; discriminate).
  destruct (truthy message) eqn:Htruthy.
  2: { exfalso. revert Hdoc. unfold processMessage.
       destruct reqBody; try discriminate.
       rewrite Hmessage. cbn [truthyVal]. rewrite Htruthy. discriminate. }
  destruct (findOrCreate w (get reqBody (str "userId"))) as [lead|e] eqn:Hfound.
  2: { exfalso. revert Hdoc. unfold processMessage.
       destruct reqBody; try discriminate.
       rewrite Hmessage. cbn [truthyVal]. rewrite Htruthy. cbn [negb].
       rewrite Hfound. discriminate. }
  rewrite (processMessage_accepted w reqBody Hmessage Htruthy Hfound) in Hdoc.
  cbn [document] in Hdoc. injection Hdoc as <-.
  destruct (updateLead_frame (extractUserInfo message) lead) as (_ & _ & Hhistory).
  cbn [Lead.push Lead.messageHistory]. rewrite Hhistory, <- app_assoc.
  apply exchanges_app. apply Hlead. reflexivity.
Qed.

(** X26: the replies of the template are not formatted: when the
    template asks a lead it knows by name for the type of property (the
    message names none and is no greeting), its reply holds two question
    marks. *)
Theorem template_asks_twice_for_type message leadInfo :
  startsWithGreeting message = false ->
  truthy_opt (Lead.name leadInfo) = true ->
  truthy_opt (Lead.propertyType leadInfo) = false ->
  firstPropertyType message = None ->
  generateTemplateResponse message leadInfo
  = str "What type of property are you interested in? Apartment, house, condo?"
  /\ count isQmark (generateTemplateResponse message leadInfo) = 2%nat.
Proof.
  intros Hgreeting Hname Htype Hnone.
  assert (E : generateTemplateResponse message leadInfo
              = str "What type of property are you interested in? Apartment, house, condo?").
  { unfold generateTemplateResponse.
    rewrite greeting_match, Hgreeting, Hname, Htype, Hnone. reflexivity. }
  rewrite E. split; reflexivity.
Qed.

End Exchange.

(** X24 at an endpoint that answers with two questions. *)
Lemma completion_reaches_client_witness :
  Spec.reply
    (ChatbotController.sent
       (ChatbotController.processMessage (U := JSString.asciiTables)
          (Spec.online (JSValue.VStr (JSString.str "Which area? Which budget?")))
          (Spec.say (JSString.str "hello"))))
  = (200%Z, Some (JSString.str "Which area?", 7%N)).
Proof.
  refine (eq_trans
            (@completion_reaches_client JSString.asciiTables
               (Spec.online (JSValue.VStr (JSString.str "Which area? Which budget?")))
               (Spec.say (JSString.str "hello")) (JSString.str "hello") (Lead.new 7)
               (JSString.str "Which area? Which budget?")
               eq_refl eq_refl eq_refl eq_refl
               (@answering_answered (JSString.str "key") _ _ eq_refl)) _).
  vm_compute. reflexivity.
Defined.

(** X25 at a first ["hello"]. *)
Lemma saved_history_is_exchanges_witness :
  exists saved,
    ChatbotController.document
      (ChatbotController.processMessage (U := JSString.asciiTables)
         Spec.offline (Spec.say (JSString.str "hello")))
    = Some saved
    /\ Spec.exchanges (Lead.messageHistory saved) = true.
Proof.
  destruct (ChatbotController.document
              (ChatbotController.processMessage (U := JSString.asciiTables)
                 Spec.offline (Spec.say (JSString.str "hello"))))
    as [saved|] eqn:Hdoc; [|exfalso; vm_compute in Hdoc; discriminate Hdoc].
  exists saved. split; [reflexivity|].
  apply (@saved_history_is_exchanges JSString.asciiTables Spec.offline
           (Spec.say (JSString.str "hello")) saved); [|exact Hdoc].
  intros lead Hlead. vm_compute in Hlead. injection Hlead as <-. reflexivity.
Defined.

(** X26 at the message ["what do you have"], from a lead named Bob. *)
Lemma template_asks_twice_for_type_witness :
  Spec.count Spec.isQmark
    (ChatbotController.generateTemplateResponse (U := JSString.asciiTables)
       (JSString.str "what do you have")
       (Lead.set_name (JSString.str "Bob") (Lead.new 1)))
  = 2%nat.
Proof.
  apply (@template_asks_twice_for_type JSString.asciiTables
           (JSString.str "what do you have")
           (Lead.set_name (JSString.str "Bob") (Lead.new 1)));
    vm_compute; reflexivity.
Defined.
